(** * Bond directory back end: the resilient ingestion core

    A shallow embedding of
    - [bond-directory/lib/ratingNormalizer.js] (module [RatingNormalizer]),
    - the NSDL transformers (module [Transformers]),
    - the circuit breaker (module [CircuitBreaker]),
    - the two upstream clients (modules [NsdlClient], [IndiaBondInfoClient]),
    - the paging and the rating tally of the routes' in-memory fallback
      (module [Routes]),
    with the properties the specification states about them and further
    laws of the code.

    JavaScript strings are modelled by [string]; the string functions
    below are exact on ASCII text (code units below 128). *)

From Stdlib Require Import ZArith List Ascii String Bool Lia.
From Stdlib Require Import Floats.SpecFloat.
From stdpp Require Import base option list gmap strings.
Import ListNotations.

Local Open Scope string_scope.

(** ** String primitives of the JavaScript runtime *)

Module JsString.

(** White space of [String.prototype.trim] and of the regex class [\s],
    restricted to ASCII: TAB, LF, VT, FF, CR and SPACE. *)
Definition is_ws (c : ascii) : bool :=
  let n := nat_of_ascii c in
  ((9 <=? n)%nat && (n <=? 13)%nat) || (n =? 32)%nat.

Definition is_digit (c : ascii) : bool :=
  let n := nat_of_ascii c in (48 <=? n)%nat && (n <=? 57)%nat.

Definition upper_char (c : ascii) : ascii :=
  let n := nat_of_ascii c in
  if (97 <=? n)%nat && (n <=? 122)%nat then ascii_of_nat (n - 32) else c.

Definition lower_char (c : ascii) : ascii :=
  let n := nat_of_ascii c in
  if (65 <=? n)%nat && (n <=? 90)%nat then ascii_of_nat (n + 32) else c.

Fixpoint map_chars (f : ascii -> ascii) (s : string) : string :=
  match s with
  | EmptyString => EmptyString
  | String c s' => String (f c) (map_chars f s')
  end.

Definition toUpperCase : string -> string := map_chars upper_char.
Definition toLowerCase : string -> string := map_chars lower_char.

Fixpoint filter_chars (keep : ascii -> bool) (s : string) : string :=
  match s with
  | EmptyString => EmptyString
  | String c s' =>
      if keep c then String c (filter_chars keep s') else filter_chars keep s'
  end.

Fixpoint drop_while (p : ascii -> bool) (s : string) : string :=
  match s with
  | EmptyString => EmptyString
  | String c s' => if p c then drop_while p s' else s
  end.

(** [drop_while_end p s] removes the longest suffix of [s] made of
    characters satisfying [p]. *)
Fixpoint drop_while_end (p : ascii -> bool) (s : string) : string :=
  match s with
  | EmptyString => EmptyString
  | String c s' =>
      match drop_while_end p s' with
      | EmptyString => if p c then EmptyString else String c EmptyString
      | r => String c r
      end
  end.

Definition trim (s : string) : string :=
  drop_while_end is_ws (drop_while is_ws s).

Definition startsWith (s pre : string) : bool := String.prefix pre s.

Fixpoint includes (s sub : string) : bool :=
  String.prefix sub s ||
  match s with
  | EmptyString => false
  | String _ s' => includes s' sub
  end.

(** [s.indexOf(c)] for a one-character needle; [None] stands for -1. *)
Fixpoint indexOf (s : string) (c : ascii) : option nat :=
  match s with
  | EmptyString => None
  | String d s' =>
      if Ascii.eqb d c then Some 0%nat else S <$> indexOf s' c
  end.

(** [s.slice(0, n)] and [s.slice(n)] for [0 <= n]. *)
Fixpoint slice_to (n : nat) (s : string) : string :=
  match n, s with
  | S k, String c s' => String c (slice_to k s')
  | _, _ => EmptyString
  end.

Fixpoint slice_from (n : nat) (s : string) : string :=
  match n, s with
  | S k, String _ s' => slice_from k s'
  | _, _ => s
  end.

(** [s.split(c)[0]]: the text before the first separator. *)
Definition split_first (s : string) (c : ascii) : string :=
  match indexOf s c with
  | Some i => slice_to i s
  | None => s
  end.

(** [s.padStart(n, "0")]. *)
Definition padStart0 (n : nat) (s : string) : string :=
  String.concat "" (repeat "0" (n - String.length s)) ++ s.

(** Every character of [s] satisfies [p]. *)
Fixpoint all_chars (p : ascii -> bool) (s : string) : bool :=
  match s with
  | EmptyString => true
  | String c s' => p c && all_chars p s'
  end.

Definition is_lower (c : ascii) : bool :=
  let n := nat_of_ascii c in (97 <=? n)%nat && (n <=? 122)%nat.

Definition is_upper (c : ascii) : bool :=
  let n := nat_of_ascii c in (65 <=? n)%nat && (n <=? 90)%nat.

(** [s] is not empty and its first character satisfies [p]. *)
Definition first_is (p : ascii -> bool) (s : string) : bool :=
  match s with
  | EmptyString => false
  | String c _ => p c
  end.

End JsString.

(** ** A backtracking matcher for the regular expressions of the sources

    The matcher enumerates, in the priority order of a backtracking engine,
    the ways a pattern can match a prefix of the subject: each way is the
    unconsumed rest together with the texts captured so far.  The first
    element of the enumeration is the match [RegExp.prototype.exec]
    reports. *)

Module Regex.
Import JsString.

Inductive regex : Type :=
| Lit (s : string)                       (* literal text, under the i flag *)
| Class (p : ascii -> bool) (lo : nat) (hi : option nat)
                                         (* greedy c{lo,hi}; c+ is c{1,} *)
| Seq (r1 r2 : regex)
| Alt (r1 r2 : regex)
| Opt (r : regex)                        (* greedy r? *)
| Group (r : regex).                     (* capturing parentheses *)

(** Length of the longest prefix of [s] whose characters satisfy [p]. *)
Fixpoint span_len (p : ascii -> bool) (s : string) : nat :=
  match s with
  | String c s' => if p c then S (span_len p s') else 0
  | EmptyString => 0
  end.

(** The counts a greedy [c{lo,hi}] tries, longest first. *)
Fixpoint counts_down (n lo : nat) : list nat :=
  if (n <? lo)%nat then []
  else match n with
       | 0 => [0%nat]
       | S k => n :: counts_down k lo
       end.

Definition lit_match (l s : string) : bool :=
  String.eqb (toUpperCase (slice_to (String.length l) s)) (toUpperCase l).

Fixpoint matches (r : regex) (s : string) (caps : list string)
  : list (string * list string) :=
  match r with
  | Lit l =>
      if lit_match l s then [(slice_from (String.length l) s, caps)] else []
  | Class p lo hi =>
      let avail := span_len p s in
      let top := match hi with
                 | Some h => Nat.min h avail
                 | None => avail
                 end in
      List.map (fun k => (slice_from k s, caps)) (counts_down top lo)
  | Seq r1 r2 =>
      List.flat_map (fun m => matches r2 (fst m) (snd m)) (matches r1 s caps)
  | Alt r1 r2 => (matches r1 s caps ++ matches r2 s caps)%list
  | Opt r1 => (matches r1 s caps ++ [(s, caps)])%list
  | Group r1 =>
      List.map
        (fun m =>
           (fst m,
            (snd m ++
               [slice_to (String.length s - String.length (fst m)) s])%list))
        (matches r1 s caps)
  end.

(** [alts [a; b; c]] is the alternation [a|b|c]. *)
Fixpoint alts (l : list regex) : regex :=
  match l with
  | [] => Lit ""
  | [r] => r
  | r :: l' => Alt r (alts l')
  end.

(** [/^r/.exec(s)]: the rest after the match. *)
Definition exec_prefix (r : regex) (s : string) : option string :=
  fst <$> head (matches r s []).

(** [/^r$/.exec(s)]: the captures of the first way to match all of [s]. *)
Definition exec_whole (r : regex) (s : string) : option (list string) :=
  snd <$>
    head (List.filter (fun m => String.eqb (fst m) "") (matches r s [])).

(** [s.replace(/^r/, "")]. *)
Definition replace_prefix (r : regex) (s : string) : string :=
  default s (exec_prefix r s).

(** [s.replace(/r$/, "")]: the engine tries the start positions from the
    left; the first position from which [r] reaches the end of the subject
    wins, and the text from there on is removed. *)
Fixpoint replace_suffix (r : regex) (s : string) : string :=
  match exec_whole r s with
  | Some _ => EmptyString
  | None =>
      match s with
      | EmptyString => EmptyString
      | String c s' => String c (replace_suffix r s')
      end
  end.

End Regex.

(** ** bond-directory/lib/ratingNormalizer.js *)

Module RatingNormalizer.
Import JsString Regex.

(** Sorted longest-first so that the greedy match picks AA+ before AA. *)
Definition KNOWN_GRADES : list string :=
  [ "AAA"; "AA+"; "AA-"; "AA";
    "A+"; "A-"; "A";
    "BBB+"; "BBB-"; "BBB";
    "BB+"; "BB-"; "BB";
    "B+"; "B-"; "B";
    "C+"; "C-"; "C";
    "D" ].

Definition NOISE_RESULTS : list string :=
  [ "WITHDRAWN"; "ISSUERNOTCOOPERATING"; "CISSUERNOTCOOPERATING";
    "PROVISIONALCAREWITHDRAWN"; "INDWITHDRAWN" ].

Definition AGENCY_PREFIXES_RE : regex :=
  Seq (Opt (Group (Lit "PROVISIONAL")))
      (Group (alts
         [ Lit "CRISIL"; Lit "ICRA"; Lit "CARE"; Lit "IVR"; Lit "BWR";
           Lit "ACUITE"; Lit "SMERA"; Lit "BRICKWORK";
           Seq (Lit "INDIARATING") (Opt (Lit "S"));
           Lit "INFOMERICS"; Lit "CRISILBBL";
           Seq (Lit "INDIA") (Seq (Class is_ws 1 None) (Lit "RATINGS")) ])).

Definition IND_PREFIX_RE : regex :=
  Group (alts [ Lit "IND"; Lit "PP-MLD" ]).

Definition SUFFIXES_RE : regex :=
  Group (alts
    [ Lit "CE"; Lit "SO"; Lit "RSO"; Lit "STABLE"; Lit "POSITIVE";
      Lit "NEGATIVE"; Lit "WATCH"; Lit "OUTLOOK"; Lit "SUSPENSION";
      Lit "REAFFIRMED" ]).

(** Lower = better quality.  Own properties of the object literal, in the
    order of the source. *)
Definition GRADE_RANK : list (string * Z) :=
  [ ("AAA", 1); ("AA+", 2); ("AA", 3); ("AA-", 4);
    ("A+", 5); ("A", 6); ("A-", 7);
    ("BBB+", 8); ("BBB", 9); ("BBB-", 10);
    ("BB+", 11); ("BB", 12); ("BB-", 13);
    ("B+", 14); ("B", 15); ("B-", 16);
    ("C+", 17); ("C", 18); ("C-", 19);
    ("D", 20);
    ("PP-MLD", 80);
    ("WITHDRAWN", 90);
    ("Unrated", 99) ]%Z.

(** The loop that strips trailing suffixes:
    [for (i = 0; i < 3; i++) { before = s; s = ...; if (s === before) break }]. *)
Fixpoint strip_suffixes (passes : nat) (s : string) : string :=
  match passes with
  | 0 => s
  | S k =>
      let before := s in
      let s := trim (replace_suffix SUFFIXES_RE s) in
      if String.eqb s before then s else strip_suffixes k s
  end.

(** [normalizeRating(raw)]; [None] is [null] (as argument: a missing
    value). *)
Definition normalizeRating (raw : option string) : option string :=
  match raw with
  | None => None
  | Some raw =>
      if String.eqb raw "" || String.eqb (trim raw) "" then None
      else
        let s := toUpperCase (trim (split_first raw ";")) in
        let s := match indexOf s "/" with
                 | Some slash => slice_to slash s
                 | None => s
                 end in
        let s := replace_suffix (Class (Ascii.eqb "*") 1 None) s in
        let s := filter_chars (fun c => negb (is_ws c)) s in
        let s := filter_chars
                   (fun c => negb (Ascii.eqb c "(" || Ascii.eqb c ")")) s in
        let s := trim s in
        if existsb (String.eqb s) NOISE_RESULTS then Some "WITHDRAWN"
        else
          let s := trim (replace_prefix AGENCY_PREFIXES_RE s) in
          let s := if startsWith s "PROVISIONAL"
                   then trim (slice_from 11 s) else s in
          if includes s "PP-MLD" then Some "PP-MLD"
          else
            let s := trim (replace_prefix IND_PREFIX_RE s) in
            let s := strip_suffixes 3 s in
            match List.find (String.eqb s) KNOWN_GRADES with
            | Some g => Some g
            | None =>
                match List.find (startsWith s) KNOWN_GRADES with
                | Some g => Some g
                | None => if String.eqb s "" then None else Some s
                end
            end
  end.

(** *** Property lookup on the rank table

    [GRADE_RANK] is an ordinary object literal, so [GRADE_RANK[key]] first
    consults its own properties and then those it inherits from
    [Object.prototype]. *)

Definition Object_prototype_keys : list string :=
  [ "constructor"; "__defineGetter__"; "__defineSetter__";
    "hasOwnProperty"; "__lookupGetter__"; "__lookupSetter__";
    "isPrototypeOf"; "propertyIsEnumerable"; "toString"; "valueOf";
    "__proto__"; "toLocaleString" ].

(** What a read of [GRADE_RANK[key]] can yield. *)
Inductive looked_up : Type :=
| Undefined
| Number (n : Z)
| Inherited (name : string).    (* a member of [Object.prototype] *)

Fixpoint own_property (tbl : list (string * Z)) (key : string) : option Z :=
  match tbl with
  | [] => None
  | (k, v) :: tbl' => if String.eqb k key then Some v else own_property tbl' key
  end.

Definition get_property (tbl : list (string * Z)) (key : string) : looked_up :=
  match own_property tbl key with
  | Some v => Number v
  | None =>
      if existsb (String.eqb key) Object_prototype_keys
      then Inherited key else Undefined
  end.

(** Property keys are strings: [null] is looked up as ["null"]. *)
Definition to_property_key (grade : option string) : string :=
  match grade with
  | Some s => s
  | None => "null"
  end.

(** [GRADE_RANK[grade] ?? 99]. *)
Definition getRatingRank (grade : option string) : looked_up :=
  match get_property GRADE_RANK (to_property_key grade) with
  | Undefined => Number 99
  | v => v
  end.

(** The ladder of the specification, best grade first: the keys of the
    rank table without the two sentinels PP-MLD and Unrated. *)
Definition ladder : list string :=
  [ "AAA"; "AA+"; "AA"; "AA-"; "A+"; "A"; "A-";
    "BBB+"; "BBB"; "BBB-"; "BB+"; "BB"; "BB-";
    "B+"; "B"; "B-"; "C+"; "C"; "C-"; "D"; "WITHDRAWN" ].

(** [rank_lt a b]: both ranks are numbers and the first is smaller. *)
Definition rank_lt (a b : string) : Prop :=
  match getRatingRank (Some a), getRatingRank (Some b) with
  | Number x, Number y => (x < y)%Z
  | _, _ => False
  end.

(** Every consecutive pair of a list is related by [R]. *)
Fixpoint chain {A} (R : A -> A -> Prop) (l : list A) : Prop :=
  match l with
  | a :: ((b :: _) as l') => R a b /\ chain R l'
  | _ => True
  end.

(** *** [normalizeRating] by stages

    The same function cut at the points where a value is handed from one
    step to the next: the last step (exact match, prefix match, cleaned
    remainder) and everything after the first segment was taken. *)

Definition match_grade (s : string) : option string :=
  match List.find (String.eqb s) KNOWN_GRADES with
  | Some g => Some g
  | None =>
      match List.find (startsWith s) KNOWN_GRADES with
      | Some g => Some g
      | None => if String.eqb s "" then None else Some s
      end
  end.

(** The text that reaches the noise test: outlook cut off, trailing
    asterisks, white space and parentheses removed. *)
Definition before_noise (s : string) : string :=
  let s := match indexOf s "/" with
           | Some slash => slice_to slash s
           | None => s
           end in
  let s := replace_suffix (Class (Ascii.eqb "*") 1 None) s in
  let s := filter_chars (fun c => negb (is_ws c)) s in
  let s := filter_chars
             (fun c => negb (Ascii.eqb c "(" || Ascii.eqb c ")")) s in
  trim s.

(** The text that reaches the PP-MLD test: agency prefix removed. *)
Definition after_agency (s : string) : string :=
  let s := trim (replace_prefix AGENCY_PREFIXES_RE s) in
  if startsWith s "PROVISIONAL" then trim (slice_from 11 s) else s.

(** The text that is matched against the grades. *)
Definition remainder (s : string) : string :=
  strip_suffixes 3 (trim (replace_prefix IND_PREFIX_RE s)).

(** Everything [normalizeRating] does with the upper-cased first
    segment. *)
Definition grade_of_segment (s : string) : option string :=
  let s := before_noise s in
  if existsb (String.eqb s) NOISE_RESULTS then Some "WITHDRAWN"
  else
    let s := after_agency s in
    if includes s "PP-MLD" then Some "PP-MLD"
    else match_grade (remainder s).

(** No entry of the list is a proper beginning of a later entry: the
    order in which a first-match search finds the longest match. *)
Fixpoint longest_first (l : list string) : bool :=
  match l with
  | [] => true
  | a :: l' =>
      forallb
        (fun b => negb (String.prefix a b
                        && (String.length a <? String.length b)%nat)) l'
      && longest_first l'
  end.

(** The characters a result of [normalizeRating] is made of: no white
    space, no lower-case letter, no parenthesis, no separator. *)
Definition clean_char (c : ascii) : bool :=
  negb (is_ws c) && negb (is_lower c)
  && negb (Ascii.eqb c "(" || Ascii.eqb c ")")
  && negb (Ascii.eqb c "/") && negb (Ascii.eqb c ";").

End RatingNormalizer.


(** ** The NSDL transformers (shared helpers and enrichment extractors) *)

Module Transformers.
Import JsString Regex.

(** JavaScript numbers are IEEE-754 doubles. *)
Definition number : Type := spec_float.

(** The values a raw record can hold.  A [Date] is its time value in
    milliseconds since the epoch, [None] being the Invalid Date. *)
Inductive value : Type :=
| VUndefined
| VNull
| VBool (b : bool)
| VNum (x : number)
| VStr (s : string)
| VDate (t : option Z).

Definition num_zero : number := S754_zero false.

Definition isNaN (x : number) : bool :=
  match x with S754_nan => true | _ => false end.

Definition truthy (v : value) : bool :=
  match v with
  | VUndefined | VNull => false
  | VBool b => b
  | VNum (S754_zero _) | VNum S754_nan => false
  | VNum _ => true
  | VStr s => negb (String.eqb s "")
  | VDate _ => true
  end.

(** [a || b]. *)
Definition or_else (a b : value) : value := if truthy a then a else b.

(** A raw record: its own enumerable properties.  The keys read below are
    fixed names, none of which [Object.prototype] defines. *)
Definition get (raw : gmap string value) (key : string) : value :=
  default VUndefined (raw !! key).

(** [val !== undefined && val !== null && val !== ''] fails. *)
Definition is_empty (v : value) : bool :=
  match v with
  | VUndefined | VNull => true
  | VStr s => String.eqb s ""
  | _ => false
  end.

(** Extract the first non-empty value among several possible field
    names. *)
Fixpoint pick (raw : gmap string value) (keys : list string) : value :=
  match keys with
  | [] => VNull
  | key :: keys' =>
      let val := get raw key in
      if negb (is_empty val) then val else pick raw keys'
  end.

(** *** Calendar arithmetic of the Date object *)

Definition is_leap (y : Z) : bool :=
  ((y mod 4 =? 0) && negb (y mod 100 =? 0) || (y mod 400 =? 0))%Z.

Definition days_in_month (y m : Z) : Z :=
  (if m =? 2 then (if is_leap y then 29 else 28)
   else if (m =? 4) || (m =? 6) || (m =? 9) || (m =? 11) then 30
   else 31)%Z.

(** Days from 1970-01-01 to the civil date [y]-[m]-[d]. *)
Definition days_from_civil (y m d : Z) : Z :=
  (let y' := if m <=? 2 then y - 1 else y in
   let era := y' / 400 in
   let yoe := y' - era * 400 in
   let mp := if m <=? 2 then m + 9 else m - 3 in
   let doy := (153 * mp + 2) / 5 + d - 1 in
   let doe := yoe * 365 + yoe / 4 - yoe / 100 + doy in
   era * 146097 + doe - 719468)%Z.

Fixpoint digits_value (acc : Z) (s : string) : Z :=
  match s with
  | EmptyString => acc
  | String c s' =>
      digits_value (acc * 10 + Z.of_nat (nat_of_ascii c - 48)) s'
  end.

Definition Z_of_digits (s : string) : Z := digits_value 0 s.

Definition digits (n : nat) : regex := Class is_digit n (Some n).
Definition char (c : ascii) : regex := Class (Ascii.eqb c) 1 (Some 1).

(** [YYYY-MM-DD] of the ECMAScript date-time string format. *)
Definition DATE_ONLY_RE : regex :=
  Seq (Group (digits 4)) (Seq (char "-")
  (Seq (Group (digits 2)) (Seq (char "-") (Group (digits 2))))).

(** [YYYY-MM-DDTHH:mm:ss.sssZ] of the same format. *)
Definition DATE_TIME_UTC_RE : regex :=
  Seq DATE_ONLY_RE (Seq (char "T")
  (Seq (Group (digits 2)) (Seq (char ":")
  (Seq (Group (digits 2)) (Seq (char ":")
  (Seq (Group (digits 2)) (Seq (char ".")
  (Seq (Group (digits 3)) (char "Z"))))))))).

(** The time value of a calendar date at a UTC time of day, as the
    standard fixes it: [Some None] (NaN) when the month is not 01-12 or the
    day not 01-31, or the time of day is out of bounds.  [None] leaves the
    answer to the engine: a day of 29-31 that the month does not have, and
    the hour 24. *)
Definition utc_time (y m d h mi sec ms : Z) : option (option Z) :=
  (if (m <? 1) || (12 <? m) || (d <? 1) || (31 <? d)
      || (24 <? h) || (59 <? mi) || (59 <? sec)
   then Some None
   else if (days_in_month y m <? d) || (h =? 24)
   then None
   else Some (Some (days_from_civil y m d * 86400000
                    + h * 3600000 + mi * 60000 + sec * 1000 + ms)))%Z.

(** The two forms of the date-time string format modelled here. *)
Definition parse_date_time_format (s : string) : option (option Z) :=
  match exec_whole DATE_TIME_UTC_RE s with
  | Some [y; m; d; h; mi; sec; ms] =>
      utc_time (Z_of_digits y) (Z_of_digits m) (Z_of_digits d)
               (Z_of_digits h) (Z_of_digits mi) (Z_of_digits sec)
               (Z_of_digits ms)
  | _ =>
      match exec_whole DATE_ONLY_RE s with
      | Some [y; m; d] =>
          utc_time (Z_of_digits y) (Z_of_digits m) (Z_of_digits d) 0 0 0 0
      | _ => None
      end
  end.

(** [/^(\d{1,2})[-/](\d{1,2})[-/](\d{4})$/] *)
Definition DMY_RE : regex :=
  let sep := Class (fun c => Ascii.eqb c "-" || Ascii.eqb c "/") 1 (Some 1) in
  Seq (Group (Class is_digit 1 (Some 2))) (Seq sep
  (Seq (Group (Class is_digit 1 (Some 2))) (Seq sep
  (Group (digits 4))))).

(** *** Slugs *)

(** The word characters of the regex assertion [\b]. *)
Definition is_word (c : ascii) : bool :=
  is_digit c || is_lower c || is_upper c || Ascii.eqb c "_".

(** The character at index [n] of [s] is a word character. *)
Definition word_at (n : nat) (s : string) : bool :=
  match String.get n s with
  | Some c => is_word c
  | None => false
  end.

(** [s.replace(/\bw\b/gi, r)] for a lower-case word [w], read from left
    to right: [prev] tells whether the character before [s] is a word
    character, [skip] how many characters of a match are still to be
    passed over. *)
Fixpoint replace_word_from (w r : string) (skip : nat) (prev : bool)
    (s : string) : string :=
  match s with
  | EmptyString => EmptyString
  | String c s' =>
      match skip with
      | S k => replace_word_from w r k (is_word c) s'
      | O =>
          if negb prev && String.prefix w (toLowerCase s)
             && negb (word_at (String.length w) s)
          then r ++ replace_word_from w r (String.length w - 1)
                      (is_word c) s'
          else String c (replace_word_from w r 0 (is_word c) s')
      end
  end.

Definition replace_word (w r s : string) : string :=
  replace_word_from w r 0 false s.

(** [[a-z0-9]] *)
Definition is_slug_char (c : ascii) : bool := is_lower c || is_digit c.

Definition is_dash (c : ascii) : bool := Ascii.eqb c "-".

(** [s.replace(/[^a-z0-9]+/g, '-')]: [in_run] tells whether the
    character before [s] was part of a run already replaced. *)
Fixpoint dash_runs (in_run : bool) (s : string) : string :=
  match s with
  | EmptyString => EmptyString
  | String c s' =>
      if is_slug_char c then String c (dash_runs false s')
      else if in_run then dash_runs true s'
      else String "-" (dash_runs true s')
  end.

(** [s.replace(/^-+|-+$/g, '')] *)
Definition strip_dashes (s : string) : string :=
  drop_while_end is_dash (drop_while is_dash s).

(** Two dashes in a row somewhere in [s]. *)
Fixpoint adjacent_dashes (s : string) : bool :=
  match s with
  | EmptyString => false
  | String a s' => is_dash a && first_is is_dash s' || adjacent_dashes s'
  end.

(** *** The normalized bond *)

Record issuer_part : Type :=
  { id : string;
    name : string;
    sector : value;
    ownershipType : string;
    issuer_issuerType : value;
    latestRating : value;
    description : value }.

Record rating_entry : Type :=
  { agency : value; rating_value : value; date : Z; outlook : string }.

Record bond : Type :=
  { isin : string;
    issuer : issuer_part;
    couponRate : number;
    couponType : string;
    couponFrequency : option string;
    maturityDate : value;
    issueDate : value;
    faceValue : value;
    minInvestment : value;
    issueSize : number;
    creditRating : value;
    ratingAgency : value;
    activeStatus : string;
    isRestructured : bool;
    bondsType : string;
    issuerType : value;
    listingExchange : value;
    taxFree : bool;
    secured : value;
    couponSchedule : list value;
    ratingHistory : list rating_entry;
    dataSource : string;
    apiResponseRaw : gmap string value;
    lastSyncedAt : Z }.

(** [v === true] and [v === 'Yes'] *)
Definition is_true (v : value) : bool :=
  match v with VBool true => true | _ => false end.
Definition is_yes (v : value) : bool :=
  match v with VStr s => String.eqb s "Yes" | _ => false end.

(** [detectOwnershipType(issuerName)], on a string. *)
Definition detectOwnershipType (issuerName : string) : string :=
  let n := toLowerCase issuerName in
  if includes n "government" || includes n "govt" || includes n " goi"
     || includes n "india bonds"
  then "government"
  else if includes n " psu" || includes n "public sector"
          || includes n "bhel" || includes n "ongc" || includes n "ntpc"
          || includes n "gail" || includes n "iocl" || includes n "hpcl"
          || includes n "bpcl"
  then "psu"
  else "private".

(** [detectBondType(issuerName, apiData)], on a string and a record. *)
Definition detectBondType (issuerName : string)
    (apiData : gmap string value) : string :=
  let n := toLowerCase issuerName in
  if is_true (get apiData "taxFree") || is_yes (get apiData "taxFreeStatus")
  then "tax-free"
  else if includes n "government" || includes n "gsec"
          || includes n "g-sec"
  then "gsec"
  else if includes n "sdl" || includes n "state development loan"
  then "sdl"
  else if String.eqb (detectOwnershipType issuerName) "psu" then "psu"
  else "corporate".

(** [x || null] on a number. *)
Definition number_or_null (x : number) : value :=
  if truthy (VNum x) then VNum x else VNull.

Section Engine.
(** What the engine decides and the model leaves open: number and date
    formatting, [parseFloat] on text, and the parsing of date strings
    outside the two forms above. *)
Variable Number_toString : number -> string.
Variable Date_toString : option Z -> string.
Variable parseFloat_text : string -> number.
Variable Date_parse_other : string -> option Z.
Variable parseInt_text : string -> number.

(** [String(v)]. *)
Definition ToString (v : value) : string :=
  match v with
  | VUndefined => "undefined"
  | VNull => "null"
  | VBool true => "true"
  | VBool false => "false"
  | VNum x => Number_toString x
  | VStr s => s
  | VDate t => Date_toString t
  end.

(** [parseFloat(v)] converts its argument to a string first. *)
Definition parseFloat (v : value) : number := parseFloat_text (ToString v).

(** The time value of [new Date(s)]. *)
Definition Date_parse (s : string) : option Z :=
  match parse_date_time_format s with
  | Some t => t
  | None => Date_parse_other s
  end.

(** Parse dates in multiple formats: DD-MM-YYYY, DD/MM/YYYY, YYYY-MM-DD,
    timestamps. *)
Definition parseDate (dateString : value) : value :=
  if negb (truthy dateString) then VNull
  else
    match dateString with
    | VDate _ => dateString
    | _ =>
        let str := trim (ToString dateString) in
        if String.eqb str "" then VNull
        else
          match exec_whole DMY_RE str with
          | Some (d :: m :: y :: _) =>
              VDate (Date_parse
                       (y ++ "-" ++ padStart0 2 m ++ "-" ++ padStart0 2 d
                          ++ "T00:00:00.000Z"))
          | _ =>
              let iso := Date_parse str in
              match iso with
              | None => VNull
              | Some _ => VDate iso
              end
          end
    end.

(** The transformers' own [normalizeRating]: strip spaces and
    parentheses, upper-case. *)
Definition normalizeRating (raw : value) : value :=
  let raw := match raw with VUndefined => VStr "" | _ => raw end in
  let s := ToString (or_else raw (VStr "")) in
  let s := filter_chars (fun c => negb (is_ws c)) s in
  let s := filter_chars
             (fun c => negb (Ascii.eqb c "(" || Ascii.eqb c ")")) s in
  or_else (VStr (trim (toUpperCase s))) VNull.

(** [v.toUpperCase()] exists on strings only; anything else raises a
    TypeError, rendered by [None]. *)
Definition call_toUpperCase (v : value) : option string :=
  match v with
  | VStr s => Some (toUpperCase s)
  | _ => None
  end.

(** [extractCreditRatingMap(rawArray)], the loop threaded through
    [map]. *)
Fixpoint extractCreditRatingMap_from
    (map : gmap string (gmap string value))
    (rawArray : list (gmap string value))
  : option (gmap string (gmap string value)) :=
  match rawArray with
  | [] => Some map
  | record :: rest =>
      isin ← call_toUpperCase
               (or_else (pick record ["isin"; "ISIN"]) (VStr ""));
      if String.eqb isin "" then extractCreditRatingMap_from map rest
      else
        let rating :=
          normalizeRating
            (pick record ["creditRating"; "rating"; "credit_rating"]) in
        let agency :=
          or_else
            (pick record ["ratingAgency"; "rating_agency"; "agencyName"])
            VNull in
        if negb (String.eqb isin "") && truthy rating
        then extractCreditRatingMap_from
               (<[isin := {[ "creditRating" := rating;
                             "ratingAgency" := agency ]}]> map) rest
        else extractCreditRatingMap_from map rest
  end.

Definition extractCreditRatingMap := extractCreditRatingMap_from ∅.

(** [extractInterestRateMap(rawArray)]. *)
Fixpoint extractInterestRateMap_from
    (map : gmap string (gmap string value))
    (rawArray : list (gmap string value))
  : option (gmap string (gmap string value)) :=
  match rawArray with
  | [] => Some map
  | record :: rest =>
      isin ← call_toUpperCase
               (or_else (pick record ["isin"; "ISIN"]) (VStr ""));
      if String.eqb isin "" then extractInterestRateMap_from map rest
      else
        let bucket :=
          or_else
            (pick record ["interestRateRange"; "rateRange"; "bucket";
                          "rate_range"; "category"])
            VNull in
        let rate :=
          parseFloat
            (or_else (pick record ["interestRate"; "couponRate"; "rate"])
                     (VNum num_zero)) in
        extractInterestRateMap_from
          (<[isin := {[ "interestRateCategory" := bucket;
                        "couponRate" :=
                          if isNaN rate then VUndefined else VNum rate ]}]>
             map)
          rest
  end.

Definition extractInterestRateMap := extractInterestRateMap_from ∅.

(** [generateSlug(name)]; [name.toLowerCase()] exists on strings only,
    anything else that is truthy raises a TypeError, rendered by
    [None]. *)
Definition generateSlug (name : value) : option string :=
  if negb (truthy name) then Some "unknown"
  else
    match name with
    | VStr s =>
        Some (slice_to 80
                (strip_dashes
                   (dash_runs false
                      (replace_word "private" "pvt"
                         (replace_word "limited" "ltd"
                            (toLowerCase s))))))
    | _ => None
    end.

(** [parseInt(v)] converts its argument to a string first. *)
Definition parseInt (v : value) : number := parseInt_text (ToString v).

(** [extractIssuerTypeMap(rawArray)]. *)
Fixpoint extractIssuerTypeMap_from
    (map : gmap string (gmap string value))
    (rawArray : list (gmap string value))
  : option (gmap string (gmap string value)) :=
  match rawArray with
  | [] => Some map
  | record :: rest =>
      let name :=
        or_else (pick record ["issuerName"; "companyName"; "name";
                              "issuer_name"]) (VStr "") in
      let type :=
        or_else (pick record ["issuerType"; "issuer_type"; "ownerType";
                              "category"]) VNull in
      isin ← call_toUpperCase
               (or_else (pick record ["isin"; "ISIN"]) (VStr ""));
      let map :=
        if negb (String.eqb isin "") && truthy type
        then <[isin := {[ "issuerType" := type ]}]> map
        else map in
      if truthy name && truthy type
      then
        slug ← generateSlug name;
        extractIssuerTypeMap_from
          (<[slug := {[ "issuerType" := type ]}]> map) rest
      else extractIssuerTypeMap_from map rest
  end.

Definition extractIssuerTypeMap := extractIssuerTypeMap_from ∅.

(** [extractRestructuredSet(rawArray)]. *)
Fixpoint extractRestructuredSet_from (set : gset string)
    (rawArray : list (gmap string value)) : option (gset string) :=
  match rawArray with
  | [] => Some set
  | record :: rest =>
      isin ← call_toUpperCase
               (or_else (pick record ["isin"; "ISIN"]) (VStr ""));
      if negb (String.eqb isin "")
      then extractRestructuredSet_from ({[ isin ]} ∪ set) rest
      else extractRestructuredSet_from set rest
  end.

Definition extractRestructuredSet := extractRestructuredSet_from ∅.

(** [extractIssuerWiseMap(rawArray)]. *)
Fixpoint extractIssuerWiseMap_from
    (map : gmap string (gmap string value))
    (rawArray : list (gmap string value))
  : option (gmap string (gmap string value)) :=
  match rawArray with
  | [] => Some map
  | record :: rest =>
      let name :=
        or_else (pick record ["issuerName"; "companyName"; "name";
                              "issuer_name"]) (VStr "") in
      slug ← generateSlug name;
      if String.eqb slug "" || String.eqb slug "unknown"
      then extractIssuerWiseMap_from map rest
      else
        extractIssuerWiseMap_from
          (<[slug :=
               {[ "name" := name;
                  "sector" :=
                    or_else (pick record ["sector"; "industrySector";
                                          "industry"]) VNull;
                  "issuerType" :=
                    or_else (pick record ["issuerType"; "issuer_type";
                                          "ownerType"; "category"]) VNull;
                  "totalBonds" :=
                    VNum (parseInt
                            (or_else (pick record ["totalBonds";
                                                   "total_bonds";
                                                   "bondCount"])
                                     (VNum num_zero))) ]}]> map)
          rest
  end.

Definition extractIssuerWiseMap := extractIssuerWiseMap_from ∅.

(** [mapCouponType(raw)]; the argument is never [undefined] where the
    function is called. *)
Definition mapCouponType (raw : value) : string :=
  let t := toLowerCase (ToString raw) in
  if includes t "float" || includes t "variable" then "floating"
  else if includes t "zero" then "zero"
  else if String.eqb t "" || String.eqb t "unknown" || String.eqb t "null"
  then "fixed"
  else "fixed".

(** [mapCouponFrequency(raw)]; [None] is [null]. *)
Definition mapCouponFrequency (raw : value) : option string :=
  let f := toLowerCase (ToString raw) in
  if includes f "semi" || includes f "half" then Some "semi-annual"
  else if includes f "quarter" then Some "quarterly"
  else if includes f "month" then Some "monthly"
  else if includes f "annual" || includes f "yearly" then Some "annual"
  else None.

Section Clock.
Context {W : Type}.
(** [new Date()] reads the clock of the world. *)
Variable Date_now : W -> Z * W.

(** [transformListedSecurity(raw, activeStatus)]; [None] is a
    TypeError: [generateSlug] or [toUpperCase] met a value that is
    no string. *)
Definition transformListedSecurity (raw : gmap string value)
    (activeStatus : string) (w : W) : option (bond * W) :=
  let issuerName :=
    or_else (pick raw ["Name of Issuer"; "issuerName"; "companyName";
                       "issuer_name"; "company_name"]) (VStr "") in
  issuerId ← generateSlug issuerName;
  let issuerName := ToString issuerName in
  let couponRate :=
    parseFloat
      (or_else (pick raw ["Coupon Rate (%)"; "couponRate";
                          "interestRate"; "coupon_rate";
                          "interest_rate"]) (VNum num_zero)) in
  let matDate :=
    parseDate (pick raw ["Date of Redemption/Conversion";
                         "maturityDate"; "redemptionDate";
                         "maturity_date"]) in
  let issDate :=
    parseDate (pick raw ["Date of Allotment"; "allotmentDate";
                         "issueDate"; "allotment_date";
                         "issue_date"]) in
  let rawRating :=
    pick raw ["Credit Rating"; "creditRating"; "rating";
              "credit_rating"] in
  isin ← call_toUpperCase
           (or_else (pick raw ["ISIN"; "isin"]) (VStr ""));
  let issuerType :=
    or_else (pick raw ["Type of Issuer-Ownership";
                       "Type of Issuer-Nature"; "issuerType";
                       "issuer_type"; "ownerType"]) VNull in
  let '(history, w) :=
    if truthy rawRating
    then
      let '(now, w) := Date_now w in
      ([ {| agency :=
              or_else (pick raw ["ratingAgency"; "rating_agency"])
                      (VStr "Unknown");
            rating_value := normalizeRating rawRating;
            date := now;
            outlook := "stable" |} ], w)
    else ([], w) in
  let '(now, w) := Date_now w in
  Some
    ({| isin := isin;
        issuer :=
          {| id := issuerId;
             name := issuerName;
             sector :=
               or_else (pick raw ["Business Sector"; "sector";
                                  "industrySector"]) VNull;
             ownershipType := detectOwnershipType issuerName;
             issuer_issuerType := issuerType;
             latestRating := normalizeRating rawRating;
             description := VNull |};
        couponRate := if isNaN couponRate then num_zero else couponRate;
        couponType :=
          mapCouponType
            (pick raw ["Coupon Type"; "couponType"; "interestType";
                       "coupon_type"; "interest_type"]);
        couponFrequency :=
          mapCouponFrequency
            (pick raw ["Frequency of Interest Payment";
                       "couponFrequency"; "interestFrequency";
                       "payment_frequency"]);
        maturityDate := matDate;
        issueDate := issDate;
        faceValue :=
          number_or_null
            (parseFloat
               (or_else (pick raw ["Face Value(in Rs.)"; "faceValue";
                                   "face_value"]) (VNum num_zero)));
        minInvestment :=
          number_or_null
            (parseFloat
               (or_else (pick raw ["minInvestment";
                                   "minimum_investment"])
                        (VNum num_zero)));
        issueSize :=
          parseFloat
            (or_else (pick raw ["Issue Size(in Rs.)"; "issueSize";
                                "issue_size"; "issuedAmount"])
                     (VNum num_zero));
        creditRating := normalizeRating rawRating;
        ratingAgency :=
          or_else (pick raw ["ratingAgency"; "rating_agency";
                             "ratingAgencyName"]) VNull;
        activeStatus := activeStatus;
        isRestructured := false;
        bondsType := detectBondType issuerName raw;
        issuerType := issuerType;
        listingExchange :=
          or_else (pick raw ["listingExchange"; "exchange";
                             "stockExchange"]) VNull;
        taxFree :=
          is_true (get raw "taxFree") || is_yes (get raw "taxFreeStatus");
        secured :=
          if is_true (get raw "secured")
             || is_yes (get raw "securedStatus")
          then VBool true else VNull;
        couponSchedule := [];
        ratingHistory := history;
        dataSource := "IndiaBondInfo-" ++ activeStatus;
        apiResponseRaw := raw;
        lastSyncedAt := now |}, w).

End Clock.

End Engine.

(** *** The enrichment merge *)

(** Modelled from the spec: the merge step that applies enrichment maps to
    the primary records lives in [lib/etl/bondSync], which is not among
    the sources.  Section 4.3: a later map's field only overwrites a
    prior value if the new value is itself non-empty.  Emptiness is the
    transformers' own notion, [is_empty]. *)
Definition apply_entry (entry bond : gmap string value) : gmap string value :=
  filter (fun kv => is_empty kv.2 = false) entry ∪ bond.

(** Modelled from the spec: one enrichment pass looks the record up by its
    identifier and applies the entry found, if any. *)
Definition enrich (key : string) (bond : gmap string value)
    (m : gmap string (gmap string value)) : gmap string value :=
  match m !! key with
  | Some entry => apply_entry entry bond
  | None => bond
  end.

(** Modelled from the spec: the enrichment maps are applied one after the
    other, in a fixed order. *)
Definition merge_all (key : string)
    (maps : list (gmap string (gmap string value)))
    (bond : gmap string value) : gmap string value :=
  foldl (enrich key) bond maps.

End Transformers.

(** ** Outcomes of calls that may throw *)

Inductive outcome (A E : Type) : Type :=
| Returned (a : A)
| Thrown (e : E).
Arguments Returned {A E} a.
Arguments Thrown {A E} e.

(** ** The circuit breaker

    States: CLOSED (normal), OPEN (failing, reject all), HALF_OPEN (testing
    recovery).  The breaker lives next to a world [W] (everything the
    wrapped operation can touch); [Date.now()] reads the clock of that
    world. *)

Module CircuitBreaker.
Local Open Scope Z_scope.

Inductive STATES : Type := CLOSED | OPEN | HALF_OPEN.

Definition STATES_eqb (a b : STATES) : bool :=
  match a, b with
  | CLOSED, CLOSED | OPEN, OPEN | HALF_OPEN, HALF_OPEN => true
  | _, _ => false
  end.

(** The argument of the [onStateChange] listener. *)
Record notification : Type :=
  { from : STATES; to : STATES; seen_failures : Z }.

(** Constructor options; [None] is an option left out. *)
Record options : Type :=
  { opt_failureThreshold : option Z;
    opt_resetTimeout : option Z;
    opt_monitorWindow : option Z }.

Record breaker : Type :=
  { failureThreshold : Z;
    resetTimeout : Z;
    monitorWindow : Z;
    state : STATES;
    failures : Z;
    lastFailureTime : option Z;
    nextRetryTime : option Z;
    successCount : Z;
    totalRequests : Z;
    notified : list notification }.   (* calls of the listener, oldest first *)

(** [x || d] on an optional number. *)
Definition or_default (x : option Z) (d : Z) : Z :=
  match x with
  | None | Some 0%Z => d
  | Some v => v
  end.

Definition new (o : options) : breaker :=
  {| failureThreshold := or_default (opt_failureThreshold o) 5;
     resetTimeout := or_default (opt_resetTimeout o) 60000;
     monitorWindow := or_default (opt_monitorWindow o) 300000;
     state := CLOSED;
     failures := 0;
     lastFailureTime := None;
     nextRetryTime := None;
     successCount := 0;
     totalRequests := 0;
     notified := [] |}.

Definition set_state (s : STATES) (b : breaker) : breaker :=
  {| failureThreshold := failureThreshold b; resetTimeout := resetTimeout b;
     monitorWindow := monitorWindow b; state := s; failures := failures b;
     lastFailureTime := lastFailureTime b; nextRetryTime := nextRetryTime b;
     successCount := successCount b; totalRequests := totalRequests b;
     notified := notified b |}.

Definition set_failures (n : Z) (b : breaker) : breaker :=
  {| failureThreshold := failureThreshold b; resetTimeout := resetTimeout b;
     monitorWindow := monitorWindow b; state := state b; failures := n;
     lastFailureTime := lastFailureTime b; nextRetryTime := nextRetryTime b;
     successCount := successCount b; totalRequests := totalRequests b;
     notified := notified b |}.

Definition set_lastFailureTime (t : option Z) (b : breaker) : breaker :=
  {| failureThreshold := failureThreshold b; resetTimeout := resetTimeout b;
     monitorWindow := monitorWindow b; state := state b;
     failures := failures b;
     lastFailureTime := t; nextRetryTime := nextRetryTime b;
     successCount := successCount b; totalRequests := totalRequests b;
     notified := notified b |}.

Definition set_nextRetryTime (t : option Z) (b : breaker) : breaker :=
  {| failureThreshold := failureThreshold b; resetTimeout := resetTimeout b;
     monitorWindow := monitorWindow b; state := state b;
     failures := failures b;
     lastFailureTime := lastFailureTime b; nextRetryTime := t;
     successCount := successCount b; totalRequests := totalRequests b;
     notified := notified b |}.

Definition set_successCount (n : Z) (b : breaker) : breaker :=
  {| failureThreshold := failureThreshold b; resetTimeout := resetTimeout b;
     monitorWindow := monitorWindow b; state := state b;
     failures := failures b;
     lastFailureTime := lastFailureTime b; nextRetryTime := nextRetryTime b;
     successCount := n; totalRequests := totalRequests b;
     notified := notified b |}.

Definition set_totalRequests (n : Z) (b : breaker) : breaker :=
  {| failureThreshold := failureThreshold b; resetTimeout := resetTimeout b;
     monitorWindow := monitorWindow b; state := state b;
     failures := failures b;
     lastFailureTime := lastFailureTime b; nextRetryTime := nextRetryTime b;
     successCount := successCount b; totalRequests := n;
     notified := notified b |}.

Definition notify (n : notification) (b : breaker) : breaker :=
  {| failureThreshold := failureThreshold b; resetTimeout := resetTimeout b;
     monitorWindow := monitorWindow b; state := state b;
     failures := failures b;
     lastFailureTime := lastFailureTime b; nextRetryTime := nextRetryTime b;
     successCount := successCount b; totalRequests := totalRequests b;
     notified := notified b ++ [n] |}.

(** What [execute] throws: the breaker's own error, whatever the
    wrapped operation threw, or the [TypeError] of the log line of
    [_onFailure], which reads [error.message] of the thrown value. *)
Inductive failure (E : Type) : Type :=
| CircuitBreakerError (message : string)   (* isCircuitBreakerError = true *)
| OperationError (e : E)
| TypeError.              (* Cannot read properties of undefined / null *)
Arguments CircuitBreakerError {E} message.
Arguments OperationError {E} e.
Arguments TypeError {E}.

Definition _transition (newState : STATES) (b : breaker) : breaker :=
  if negb (STATES_eqb (state b) newState) then
    let oldState := state b in
    let b := set_state newState b in
    notify {| from := oldState; to := newState;
              seen_failures := failures b |} b
  else b.

Definition _onSuccess (b : breaker) : breaker :=
  let b := set_successCount (successCount b + 1) b in
  if STATES_eqb (state b) HALF_OPEN then
    (* Successful test request: close the circuit *)
    let b := _transition CLOSED b in
    set_failures 0 b
  else b.

Definition reset (b : breaker) : breaker :=
  set_nextRetryTime None
    (set_lastFailureTime None (set_failures 0 (set_state CLOSED b))).

Section World.
Context {W A E : Type}.
Variable Date_now : W -> Z * W.
(** Whether a thrown value is [undefined] or [null]: reading a
    property of such a value throws a [TypeError]. *)
Variable is_nullish : E -> bool.

(** [_onFailure(error)]: the counter and the time are updated first;
    the log line then reads [error.message], and what it throws ends
    the method before any transition. *)
Definition _onFailure (error : E) (b : breaker) (w : W)
  : outcome unit (failure E) * (breaker * W) :=
  let b := set_failures (failures b + 1) b in
  let '(now, w) := Date_now w in
  let b := set_lastFailureTime (Some now) b in
  if is_nullish error then (Thrown TypeError, (b, w))
  else if STATES_eqb (state b) HALF_OPEN then
    (* Test request failed: re-open *)
    let b := _transition OPEN b in
    let '(now, w) := Date_now w in
    (Returned tt, (set_nextRetryTime (Some (now + resetTimeout b)) b, w))
  else if STATES_eqb (state b) CLOSED
          && (failureThreshold b <=? failures b)%Z then
    (* Threshold exceeded: trip the breaker *)
    let b := _transition OPEN b in
    let '(now, w) := Date_now w in
    (Returned tt, (set_nextRetryTime (Some (now + resetTimeout b)) b, w))
  else (Returned tt, (b, w)).

(** The check at the head of [execute]: either the call is let through,
    or it is turned away ([None]); [null] compares as 0. *)
Definition let_through (b : breaker) (w : W) : option breaker * W :=
  if STATES_eqb (state b) OPEN then
    let '(now, w) := Date_now w in
    if (default 0 (nextRetryTime b) <=? now)%Z
    then (Some (_transition HALF_OPEN b), w)
    else
      let '(_, w) := Date_now w in    (* read again for the log line *)
      (None, w)
  else (Some b, w).

Definition operation : Type := W -> outcome A E * W.

(** The fallback runs in place of the operation and may itself throw. *)
Definition run_fallback (fallback : operation) (w : W)
  : outcome A (failure E) * W :=
  match fallback w with
  | (Returned a, w) => (Returned a, w)
  | (Thrown e, w) => (Thrown (OperationError e), w)
  end.

(** [execute(fn, fallback)]. *)
Definition execute (b : breaker) (fn : operation)
    (fallback : option operation) (w : W)
  : outcome A (failure E) * (breaker * W) :=
  let b := set_totalRequests (totalRequests b + 1) b in
  match let_through b w with
  | (None, w) =>
      match fallback with
      | Some fb => let '(r, w) := run_fallback fb w in (r, (b, w))
      | None =>
          (Thrown (CircuitBreakerError
                     "Circuit breaker is OPEN — upstream API unavailable"),
           (b, w))
      end
  | (Some b, w) =>
      match fn w with
      | (Returned result, w) => (Returned result, (_onSuccess b, w))
      | (Thrown error, w) =>
          match _onFailure error b w with
          | (Thrown thrown, (b, w)) =>
              (* thrown inside the [catch] block: it leaves [execute] *)
              (Thrown thrown, (b, w))
          | (Returned _, (b, w)) =>
              match fallback with
              | Some fb =>
                  if STATES_eqb (state b) OPEN
                  then let '(r, w) := run_fallback fb w in (r, (b, w))
                  else (Thrown (OperationError error), (b, w))
              | None => (Thrown (OperationError error), (b, w))
              end
          end
      end
  end.

(** The outcome of the operation as [execute] passes it on, when it
    is given no fallback. *)
Definition passed_on (r : outcome A E) : outcome A (failure E) :=
  match r with
  | Returned a => Returned a
  | Thrown e =>
      if is_nullish e then Thrown TypeError else Thrown (OperationError e)
  end.

(** The breaker as that check sees it: the request has been counted. *)
Definition counted (b : breaker) : breaker :=
  set_totalRequests (totalRequests b + 1) b.

(** An operation that returns, whatever the world. *)
Definition succeeds (fn : operation) : Prop :=
  forall w, exists a w', fn w = (Returned a, w').

(** An operation that throws, whatever the world, and throws a value
    whose [message] can be read: anything but [undefined] and
    [null]. *)
Definition fails_with_message (fn : operation) : Prop :=
  forall w, exists e w', fn w = (Thrown e, w') /\ is_nullish e = false.

(** A script of calls: [true] for an operation that succeeds, [false]
    for one that throws a value with a message. *)
Definition behaves (fn : operation) (ok : bool) : Prop :=
  if ok then succeeds fn else fails_with_message fn.

(** A series of calls without fallback, one after the other. *)
Fixpoint execute_all (b : breaker) (fns : list operation) (w : W)
  : breaker * W :=
  match fns with
  | [] => (b, w)
  | fn :: fns' =>
      let '(_, (b, w)) := execute b fn None w in
      execute_all b fns' w
  end.

End World.

(** How many operations of a script fail. *)
Definition count_failures (oks : list bool) : Z :=
  Z.of_nat (length (List.filter negb oks)).

(** A breaker with another window: what [new] makes of another
    [monitorWindow] option, at any later time. *)
Definition set_monitorWindow (m : Z) (b : breaker) : breaker :=
  {| failureThreshold := failureThreshold b; resetTimeout := resetTimeout b;
     monitorWindow := m; state := state b; failures := failures b;
     lastFailureTime := lastFailureTime b; nextRetryTime := nextRetryTime b;
     successCount := successCount b; totalRequests := totalRequests b;
     notified := notified b |}.

(** What holds of a breaker between two calls: the counters are in
    range, no test request is pending, an open breaker knows when to
    retry, and the breaker is closed exactly while the failures are
    below the threshold. *)
Definition consistent (b : breaker) : bool :=
  (0 <? failureThreshold b)
  && (0 <=? failures b)
  && (0 <=? successCount b) && (successCount b <=? totalRequests b)
  && match state b with
     | CLOSED => failures b <? failureThreshold b
     | OPEN =>
         (failureThreshold b <=? failures b)
         && match nextRetryTime b with Some _ => true | None => false end
     | HALF_OPEN => false
     end.

(** The notifications [ns] report a path of state changes that starts
    in [s]; the result is the state the path ends in. *)
Fixpoint chained (s : STATES) (ns : list notification) : option STATES :=
  match ns with
  | [] => Some s
  | n :: ns' =>
      if STATES_eqb (from n) s && negb (STATES_eqb (from n) (to n))
      then chained (to n) ns'
      else None
  end.

End CircuitBreaker.

(** ** What the two upstream clients share

    The clients talk to the upstream through axios, read the clock, draw
    random numbers, sleep, and (the NSDL client) run the automated login.
    These are given by an [environment] of oracles, each indexed by the
    number of calls made so far; the [world] keeps those call counts
    together with the mutable state of the client and of the process. *)

Module Upstream.
Local Open Scope Z_scope.

(** A raw record as delivered by the upstream. *)
Definition row : Type := gmap string Transformers.value.

(** Body of a JSON response: [null], text, an array of records, or an
    object whose [data], [result] and [content] members may be arrays. *)
Inductive payload : Type :=
| PNull
| PText (s : string)
| PArray (rows : list row)
| PObject (data result content : option (list row)).

Record response (B : Type) : Type := { status : Z; data : B }.
Arguments status {B} r.
Arguments data {B} r.

(** A GET either resolves with a response or rejects.  With the default
    [validateStatus] axios resolves for the statuses 200-299 only; any
    other status rejects, and the rejection carries the status of the
    response ([error.response.status]); a rejection without a response
    (timeout, network failure) carries none. *)
Inductive axios_result (B : Type) : Type :=
| Resolved (r : response B)
| Rejected (response_status : option Z).
Arguments Resolved {B} r.
Arguments Rejected {B} response_status.

Inductive error : Type :=
| AxiosError (response_status : option Z)
| UnexpectedStatus (status : Z)
| HtmlSessionError                 (* carries isHtmlSessionError = true *)
| DecodeError                      (* the spreadsheet reader threw *)
| SessionExpired (message : string)
| ThrownUndefined.                 (* [throw lastError] before any error *)

(** The one thrown value that is no object: [throw lastError] where no
    attempt has set [lastError]. *)
Definition is_undefined (e : error) : bool :=
  match e with
  | ThrownUndefined => true
  | _ => false
  end.

(** [error.response?.status] *)
Definition response_status_of (e : error) : option Z :=
  match e with
  | AxiosError st => st
  | _ => None
  end.

Definition isHtmlSessionError (e : error) : bool :=
  match e with
  | HtmlSessionError => true
  | _ => false
  end.

Definition status_is (e : error) (code : Z) : bool :=
  match response_status_of e with
  | Some st => st =? code
  | None => false
  end.

(** What a client does that the upstream or the operator can observe. *)
Inductive event (B : Type) : Type :=
| EGet (attempt : nat) (cookie : string) (r : axios_result B)
| ELogin (ok : bool)
| EBackoff (ms : Z).
Arguments EGet {B} attempt cookie r.
Arguments ELogin {B} ok.
Arguments EBackoff {B} ms.

Record environment (B : Type) : Type :=
  { clock : nat -> Z;                       (* n-th reading of Date.now() *)
    random_below : nat -> Z -> Z;           (* n-th floor(random() * bound) *)
    server : nat -> string -> string -> axios_result B;
                                            (* n-th GET: endpoint, cookie *)
    login : nat -> option (string * string) (* n-th automated login *) }.
Arguments clock {B} e.
Arguments random_below {B} e.
Arguments server {B} e.
Arguments login {B} e.

Record stats : Type :=
  { requests : Z; successes : Z; failures : Z; retries : Z }.

Record world (B : Type) : Type :=
  { ticks : nat;
    draws : nat;
    gets : nat;
    logins : nat;
    NSDL_COOKIE_NL01 : string;              (* process.env *)
    NSDL_COOKIE_NL1E : string;
    lastRequestTime : Z;
    stat : stats;
    waited : list Z;                        (* rate-limit sleeps *)
    trace : list (event B) }.
Arguments ticks {B} w.
Arguments draws {B} w.
Arguments gets {B} w.
Arguments logins {B} w.
Arguments NSDL_COOKIE_NL01 {B} w.
Arguments NSDL_COOKIE_NL1E {B} w.
Arguments lastRequestTime {B} w.
Arguments stat {B} w.
Arguments waited {B} w.
Arguments trace {B} w.

(** The settings a client keeps from its constructor. *)
Record settings : Type :=
  { requestDelay : Z; jitterMax : Z; maxRetries : Z; baseBackoffMs : Z }.

Section Effects.
Context {B : Type}.
Variable env : environment B.

Definition tick (w : world B) : world B :=
  {| ticks := S (ticks w); draws := draws w; gets := gets w;
     logins := logins w; NSDL_COOKIE_NL01 := NSDL_COOKIE_NL01 w;
     NSDL_COOKIE_NL1E := NSDL_COOKIE_NL1E w;
     lastRequestTime := lastRequestTime w; stat := stat w;
     waited := waited w; trace := trace w |}.

Definition Date_now (w : world B) : Z * world B :=
  (clock env (ticks w), tick w).

(** [Math.floor(Math.random() * bound)] *)
Definition random_floor (bound : Z) (w : world B) : Z * world B :=
  (random_below env (draws w) bound,
   {| ticks := ticks w; draws := S (draws w); gets := gets w;
      logins := logins w; NSDL_COOKIE_NL01 := NSDL_COOKIE_NL01 w;
      NSDL_COOKIE_NL1E := NSDL_COOKIE_NL1E w;
      lastRequestTime := lastRequestTime w; stat := stat w;
      waited := waited w; trace := trace w |}).

Definition set_lastRequestTime (t : Z) (w : world B) : world B :=
  {| ticks := ticks w; draws := draws w; gets := gets w;
     logins := logins w; NSDL_COOKIE_NL01 := NSDL_COOKIE_NL01 w;
     NSDL_COOKIE_NL1E := NSDL_COOKIE_NL1E w;
     lastRequestTime := t; stat := stat w;
     waited := waited w; trace := trace w |}.

Definition rate_limit_sleep (ms : Z) (w : world B) : world B :=
  {| ticks := ticks w; draws := draws w; gets := gets w;
     logins := logins w; NSDL_COOKIE_NL01 := NSDL_COOKIE_NL01 w;
     NSDL_COOKIE_NL1E := NSDL_COOKIE_NL1E w;
     lastRequestTime := lastRequestTime w; stat := stat w;
     waited := waited w ++ [ms]; trace := trace w |}.

Definition set_stat (s : stats) (w : world B) : world B :=
  {| ticks := ticks w; draws := draws w; gets := gets w;
     logins := logins w; NSDL_COOKIE_NL01 := NSDL_COOKIE_NL01 w;
     NSDL_COOKIE_NL1E := NSDL_COOKIE_NL1E w;
     lastRequestTime := lastRequestTime w; stat := s;
     waited := waited w; trace := trace w |}.

Definition emit (e : event B) (w : world B) : world B :=
  {| ticks := ticks w; draws := draws w; gets := gets w;
     logins := logins w; NSDL_COOKIE_NL01 := NSDL_COOKIE_NL01 w;
     NSDL_COOKIE_NL1E := NSDL_COOKIE_NL1E w;
     lastRequestTime := lastRequestTime w; stat := stat w;
     waited := waited w; trace := trace w ++ [e] |}.

Definition count_get (w : world B) : world B :=
  {| ticks := ticks w; draws := draws w; gets := S (gets w);
     logins := logins w; NSDL_COOKIE_NL01 := NSDL_COOKIE_NL01 w;
     NSDL_COOKIE_NL1E := NSDL_COOKIE_NL1E w;
     lastRequestTime := lastRequestTime w; stat := stat w;
     waited := waited w; trace := trace w |}.

Definition count_login (w : world B) : world B :=
  {| ticks := ticks w; draws := draws w; gets := gets w;
     logins := S (logins w); NSDL_COOKIE_NL01 := NSDL_COOKIE_NL01 w;
     NSDL_COOKIE_NL1E := NSDL_COOKIE_NL1E w;
     lastRequestTime := lastRequestTime w; stat := stat w;
     waited := waited w; trace := trace w |}.

Definition set_cookies (nl01 nl1e : string) (w : world B) : world B :=
  {| ticks := ticks w; draws := draws w; gets := gets w;
     logins := logins w; NSDL_COOKIE_NL01 := nl01;
     NSDL_COOKIE_NL1E := nl1e;
     lastRequestTime := lastRequestTime w; stat := stat w;
     waited := waited w; trace := trace w |}.

Definition bump_requests (w : world B) : world B :=
  set_stat {| requests := requests (stat w) + 1;
              successes := successes (stat w);
              failures := failures (stat w);
              retries := retries (stat w) |} w.

Definition bump_successes (w : world B) : world B :=
  set_stat {| requests := requests (stat w);
              successes := successes (stat w) + 1;
              failures := failures (stat w);
              retries := retries (stat w) |} w.

Definition bump_failures (w : world B) : world B :=
  set_stat {| requests := requests (stat w);
              successes := successes (stat w);
              failures := failures (stat w) + 1;
              retries := retries (stat w) |} w.

Definition bump_retries (w : world B) : world B :=
  set_stat {| requests := requests (stat w);
              successes := successes (stat w);
              failures := failures (stat w);
              retries := retries (stat w) + 1 |} w.

(** Rate limiting with random jitter, the same in both clients. *)
Definition _waitForRateLimit (cfg : settings) (w : world B) : world B :=
  let '(now, w) := Date_now w in
  let elapsed := now - lastRequestTime w in
  let '(jitter, w) := random_floor (jitterMax cfg) w in
  let totalDelay := requestDelay cfg + jitter in
  let w := if elapsed <? totalDelay
           then rate_limit_sleep (totalDelay - elapsed) w else w in
  let '(now, w) := Date_now w in
  set_lastRequestTime now w.

(** The exponential backoff before the next attempt. *)
Definition backoff_wait (cfg : settings) (attempt : nat) (w : world B)
  : world B :=
  let backoff := baseBackoffMs cfg * 2 ^ Z.of_nat attempt in
  let '(jitter, w) := random_floor 1000 w in
  let delay := backoff + jitter in
  let w := bump_retries w in
  emit (EBackoff delay) w.

(** One GET: the request goes out with the given cookie header. *)
Definition get (endpoint cookie : string) (attempt : nat) (w : world B)
  : axios_result B * world B :=
  let r := server env (gets w) endpoint cookie in
  (r, emit (EGet attempt cookie r) (count_get w)).

End Effects.

(** [x || d] on a configuration number. *)
Definition or_default (x : option Z) (d : Z) : Z :=
  match x with
  | None | Some 0 => d
  | Some v => v
  end.

(** The events that joined the trace between two worlds. *)
Definition new_events {B} (w w' : world B) : list (event B) :=
  drop (length (trace w)) (trace w').

(** A 404 answer ends the run: the GET that received it is the last
    event, and the run returns [empty]. *)
Definition not_found_is_final {B R E} (evs : list (event B))
    (res : outcome R E) (empty : R) : Prop :=
  forall i attempt cookie,
    evs !! i = Some (EGet attempt cookie (Rejected (Some 404))) ->
    S i = length evs /\ res = Returned empty.

(** The answers to the GETs of a trace, and the attempt numbers the GETs
    went out under, oldest first. *)
Fixpoint answers {B} (evs : list (event B)) : list (axios_result B) :=
  match evs with
  | [] => []
  | EGet _ _ r :: evs' => r :: answers evs'
  | _ :: evs' => answers evs'
  end.

Fixpoint attempt_numbers {B} (evs : list (event B)) : list nat :=
  match evs with
  | [] => []
  | EGet attempt _ _ :: evs' => attempt :: attempt_numbers evs'
  | _ :: evs' => attempt_numbers evs'
  end.

(** Every pause of the trace comes right after the GET of an attempt
    that is not the last one, and lasts the base delay doubled once per
    earlier attempt, plus a jitter below one second. *)
Definition backoff_after_get {B} (cfg : settings) (evs : list (event B))
  : Prop :=
  forall i ms,
    evs !! i = Some (EBackoff ms) ->
    exists j attempt cookie r,
      i = S j /\ evs !! j = Some (EGet attempt cookie r) /\
      Z.of_nat attempt < maxRetries cfg /\
      baseBackoffMs cfg * 2 ^ Z.of_nat attempt <= ms
      < baseBackoffMs cfg * 2 ^ Z.of_nat attempt + 1000.

(** A 403 answer ends the run of a client that does not log in: the GET
    that received it is the last event, and the run throws [blocked]. *)
Definition forbidden_is_final {B R E} (evs : list (event B))
    (res : outcome R E) (blocked : E) : Prop :=
  forall i attempt cookie,
    evs !! i = Some (EGet attempt cookie (Rejected (Some 403))) ->
    S i = length evs /\ res = Thrown blocked.

End Upstream.

(** ** bond-directory/lib/indiaBondInfo/nsdlClient.js *)

Module NsdlClient.
Import Upstream.
Local Open Scope Z_scope.

(** The constructor's [config]; [None] is a member left out. *)
Record config : Type :=
  { cfg_requestDelay : option Z;
    cfg_jitterMax : option Z;
    cfg_maxRetries : option Z;
    cfg_baseBackoffMs : option Z;
    cfg_failureThreshold : option Z;
    cfg_resetTimeout : option Z }.

Definition new_settings (c : config) : settings :=
  {| requestDelay := or_default (cfg_requestDelay c) 1200;
     jitterMax := or_default (cfg_jitterMax c) 600;
     maxRetries := or_default (cfg_maxRetries c) 3;
     baseBackoffMs := or_default (cfg_baseBackoffMs c) 2500 |}.

Definition new_breaker (c : config) : CircuitBreaker.breaker :=
  CircuitBreaker.new
    {| CircuitBreaker.opt_failureThreshold :=
         Some (or_default (cfg_failureThreshold c) 4);
       CircuitBreaker.opt_resetTimeout :=
         Some (or_default (cfg_resetTimeout c) 90000);
       CircuitBreaker.opt_monitorWindow := None |}.

Section Client.
Context {B : Type}.
Variable env : environment B.

Definition cookies_missing (w : world B) : bool :=
  String.eqb (NSDL_COOKIE_NL01 w) "" || String.eqb (NSDL_COOKIE_NL1E w) "".

(** Build the Cookie header string from the environment variables. *)
Definition buildCookieHeader (w : world B) : string :=
  if cookies_missing w then ""
  else ("NL01dfc552=" ++ NSDL_COOKIE_NL01 w ++ "; NL1e619be7027="
          ++ NSDL_COOKIE_NL1E w)%string.

(** Run the automated login; on success the fresh cookies replace the
    ones in the process environment. *)
Definition refreshCookies (w : world B) : bool * world B :=
  match login env (logins w) with
  | Some (nl01, nl1e) =>
      (true, emit (ELogin true) (set_cookies nl01 nl1e (count_login w)))
  | None => (false, emit (ELogin false) (count_login w))
  end.

Section Request.
Context {R : Type}.
Variable cfg : settings.
(** What the [try] block throws before it counts a success. *)
Variable check : response B -> option error.
(** What it returns, or throws, after that. *)
Variable finish : response B -> outcome R error.
Variable empty : R.                          (* the value of [[]] *)
Variable expired_message : string -> string.

(** The [for (attempt = 0; attempt <= maxRetries; attempt++)] loop;
    [remaining] counts the iterations left.  [continue] and the end of
    the [catch] block both go through [attempt++]. *)
Fixpoint attempts (endpoint : string) (remaining attempt : nat)
    (lastError : option error) (w : world B)
  : outcome R error * world B :=
  match remaining with
  | O => (Thrown (default ThrownUndefined lastError), bump_failures w)
  | S remaining' =>
      let w := _waitForRateLimit env cfg w in
      let '(r, w) := get env endpoint (buildCookieHeader w) attempt w in
      let '(tried, w) :=
        match r with
        | Rejected st => (Thrown (AxiosError st), w)
        | Resolved response =>
            match check response with
            | Some e => (Thrown e, w)
            | None => (finish response, bump_successes w)
            end
        end in
      match tried with
      | Returned v => (Returned v, w)
      | Thrown error =>
          let lastError := Some error in
          (* Hard stop on 403, or on a hidden HTML session expiry *)
          if status_is error 403 || isHtmlSessionError error then
            let '(refreshed, w) := refreshCookies w in
            if refreshed
            then attempts endpoint remaining' (S attempt) lastError w
            else (Thrown (SessionExpired (expired_message endpoint)),
                  bump_failures w)
          else if status_is error 404 then (Returned empty, w)
          else
            let w := if Z.of_nat attempt <? maxRetries cfg
                     then backoff_wait env cfg attempt w else w in
            attempts endpoint remaining' (S attempt) lastError w
      end
  end.

(** The first half of an iteration: the rate-limit wait and the GET,
    with the success counted when the checks pass. *)
Definition after_get (endpoint : string) (attempt : nat) (w : world B)
  : axios_result B * world B :=
  let w1 := _waitForRateLimit env cfg w in
  let cookie := buildCookieHeader w1 in
  let r := server env (gets w1) endpoint cookie in
  let w2 := emit (EGet attempt cookie r) (count_get w1) in
  (r,
   match r with
   | Resolved response =>
       match check response with
       | None => bump_successes w2
       | Some _ => w2
       end
   | Rejected _ => w2
   end).

(** The closure handed to the circuit breaker. *)
Definition attempt_all (endpoint : string) (w : world B)
  : outcome R error * world B :=
  let w := if cookies_missing w then snd (refreshCookies w) else w in
  attempts endpoint (Z.to_nat (maxRetries cfg + 1)) 0 None w.

(** What the [try] block makes of an answer. *)
Definition tried (r : axios_result B) : outcome R error :=
  match r with
  | Rejected st => Thrown (AxiosError st)
  | Resolved response =>
      match check response with
      | Some e => Thrown e
      | None => finish response
      end
  end.

(** The condition of the [catch] block that starts a cookie refresh. *)
Definition asks_for_refresh (e : error) : bool :=
  status_is e 403 || isHtmlSessionError e.

(** The answer makes the loop refresh the session. *)
Definition session_expired (r : axios_result B) : Prop :=
  exists e, tried r = Thrown e /\ asks_for_refresh e = true.

(** The events one run of the loop can leave, from a given attempt
    index on, together with the outcome of the run. *)
Inductive loop_trace (endpoint : string)
  : nat -> list (event B) -> outcome R error -> Prop :=
| trace_exhausted attempt e :
    maxRetries cfg < Z.of_nat attempt ->
    loop_trace endpoint attempt [] (Thrown e)
| trace_returned attempt cookie r v :
    Z.of_nat attempt <= maxRetries cfg ->
    tried r = Returned v ->
    loop_trace endpoint attempt [EGet attempt cookie r] (Returned v)
| trace_not_found attempt cookie r e :
    Z.of_nat attempt <= maxRetries cfg ->
    tried r = Thrown e -> asks_for_refresh e = false ->
    status_is e 404 = true ->
    loop_trace endpoint attempt [EGet attempt cookie r] (Returned empty)
| trace_refresh_failed attempt cookie r e :
    Z.of_nat attempt <= maxRetries cfg ->
    tried r = Thrown e -> asks_for_refresh e = true ->
    loop_trace endpoint attempt
               [EGet attempt cookie r; ELogin false]
               (Thrown (SessionExpired (expired_message endpoint)))
| trace_refreshed attempt cookie r e evs res :
    Z.of_nat attempt <= maxRetries cfg ->
    tried r = Thrown e -> asks_for_refresh e = true ->
    loop_trace endpoint (S attempt) evs res ->
    loop_trace endpoint attempt
               (EGet attempt cookie r :: ELogin true :: evs) res
| trace_backoff attempt cookie r e ms evs res :
    Z.of_nat attempt < maxRetries cfg ->
    tried r = Thrown e -> asks_for_refresh e = false ->
    status_is e 404 = false ->
    loop_trace endpoint (S attempt) evs res ->
    loop_trace endpoint attempt
               (EGet attempt cookie r :: EBackoff ms :: evs) res
| trace_last attempt cookie r e evs res :
    Z.of_nat attempt = maxRetries cfg ->
    tried r = Thrown e -> asks_for_refresh e = false ->
    status_is e 404 = false ->
    loop_trace endpoint (S attempt) evs res ->
    loop_trace endpoint attempt (EGet attempt cookie r :: evs) res.

Definition request (b : CircuitBreaker.breaker) (endpoint : string)
    (w : world B)
  : outcome R (CircuitBreaker.failure error)
    * (CircuitBreaker.breaker * world B) :=
  let w := bump_requests w in
  CircuitBreaker.execute (Date_now env) is_undefined b
    (attempt_all endpoint) None w.

(** What follows the GET at position [i] that met an expired
    session: exactly one login; a failed login ends the run with
    [expired]; after a successful one, if attempts remain, the next
    GET goes out under the next attempt index. *)
Definition login_follows {E} (evs : list (event B))
    (res expired : outcome R E) (i attempt : nat) (ok : bool) : Prop :=
  evs !! S i = Some (ELogin ok) /\
  (forall ok', evs !! S (S i) <> Some (ELogin ok')) /\
  (ok = false -> S (S i) = length evs /\ res = expired) /\
  (ok = true -> Z.of_nat attempt < maxRetries cfg ->
   exists cookie' r',
     evs !! S (S i) = Some (EGet (S attempt) cookie' r')).

Definition one_refresh_per_expiry {E} (evs : list (event B))
    (res expired : outcome R E) : Prop :=
  forall i attempt cookie r,
    evs !! i = Some (EGet attempt cookie r) ->
    session_expired r ->
    exists ok, login_follows evs res expired i attempt ok.

(** The reading under which a refresh costs no attempt: after a
    successful login the same attempt index is tried again. *)
Definition retries_same_attempt (evs : list (event B)) : Prop :=
  forall i attempt cookie r,
    evs !! i = Some (EGet attempt cookie r) ->
    session_expired r ->
    evs !! S i = Some (ELogin true) ->
    exists cookie' r',
      evs !! S (S i) = Some (EGet attempt cookie' r').

End Request.
End Client.

(** *** [_request]: JSON endpoints *)

Definition check_json (response : response payload) : option error :=
  if negb (status response =? 200)
  then Some (UnexpectedStatus (status response))
  else
    match data response with
    | PText s =>
        if JsString.includes s "<html" then Some HtmlSessionError else None
    | _ => None
    end.

(** NSDL can return data as array or wrapped object. *)
Definition finish_json (response : response payload)
  : outcome payload error :=
  Returned
    match data response with
    | PArray rows => PArray rows
    | PObject (Some rows) _ _ => PArray rows
    | PObject None (Some rows) _ => PArray rows
    | PObject None None (Some rows) => PArray rows
    | PObject None None None => data response
    | PText s => if String.eqb s "" then PArray [] else PText s
    | PNull => PArray []
    end.

Definition _request (env : environment payload) (cfg : settings) :=
  request env cfg check_json finish_json (PArray [])
          (fun endpoint => ("NSDL_SESSION_EXPIRED: " ++ endpoint)%string).

(** A 403, or a 200 whose body is a string that includes [<html], as
    the [try] block tests it. *)
Definition forbidden_or_html_json (r : axios_result payload) : Prop :=
  r = Rejected (Some 403) \/
  exists s, r = Resolved {| status := 200; data := PText s |} /\
            JsString.includes s "<html" = true.

(** *** [_requestExcel]: spreadsheet endpoints; the body is a buffer *)

Definition forbidden_or_html_excel (r : axios_result string) : Prop :=
  r = Rejected (Some 403) \/
  exists s, r = Resolved {| status := 200; data := s |} /\
            JsString.includes s "<html" = true.

Definition check_excel (response : response string) : option error :=
  if negb (status response =? 200)
  then Some (UnexpectedStatus (status response))
  else if JsString.includes (data response) "<html"
  then Some HtmlSessionError else None.

Section Excel.
(** The spreadsheet reader: the rows of the first sheet, or [None] when
    it throws. *)
Variable xlsx_rows : string -> option (list row).

Definition finish_excel (response : response string)
  : outcome (list row) error :=
  match xlsx_rows (data response) with
  | Some json => Returned json
  | None => Thrown DecodeError
  end.

Definition _requestExcel (env : environment string) (cfg : settings) :=
  request env cfg check_excel finish_excel []
          (fun endpoint =>
             ("NSDL_SESSION_EXPIRED (Excel): " ++ endpoint)%string).
End Excel.

End NsdlClient.

(** ** bond-directory/lib/indiaBondInfo/client.js *)

Module IndiaBondInfoClient.
Import Upstream.
Local Open Scope Z_scope.

Record config : Type :=
  { cfg_requestDelay : option Z;
    cfg_jitterMax : option Z;
    cfg_maxRetries : option Z;
    cfg_baseBackoffMs : option Z;
    cfg_failureThreshold : option Z;
    cfg_resetTimeout : option Z }.

Definition new_settings (c : config) : settings :=
  {| requestDelay := or_default (cfg_requestDelay c) 1000;
     jitterMax := or_default (cfg_jitterMax c) 500;
     maxRetries := or_default (cfg_maxRetries c) 3;
     baseBackoffMs := or_default (cfg_baseBackoffMs c) 2000 |}.

Definition new_breaker (c : config) : CircuitBreaker.breaker :=
  CircuitBreaker.new
    {| CircuitBreaker.opt_failureThreshold :=
         Some (or_default (cfg_failureThreshold c) 5);
       CircuitBreaker.opt_resetTimeout :=
         Some (or_default (cfg_resetTimeout c) 60000);
       CircuitBreaker.opt_monitorWindow := None |}.

Section Client.
Variable env : environment payload.
Variable cfg : settings.

(** The attempt loop of [_requestWithRetry]; the client sends no
    cookie. *)
Fixpoint attempts (endpoint : string) (remaining attempt : nat)
    (lastError : option error) (w : world payload)
  : outcome payload error * world payload :=
  match remaining with
  | O => (Thrown (default ThrownUndefined lastError), bump_failures w)
  | S remaining' =>
      let w := _waitForRateLimit env cfg w in
      let '(r, w) := get env endpoint "" attempt w in
      let '(tried, w) :=
        match r with
        | Rejected st => (Thrown (AxiosError st), w)
        | Resolved response =>
            if negb (status response =? 200)
            then (Thrown (UnexpectedStatus (status response)), w)
            else (Returned (data response), bump_successes w)
        end in
      match tried with
      | Returned v => (Returned v, w)
      | Thrown error =>
          let lastError := Some error in
          (* Don't retry on 404: it is a valid "not found" *)
          if status_is error 404 then (Returned PNull, w)
          (* Stop immediately on 403 (blocked) *)
          else if status_is error 403
          then (Thrown error, bump_failures w)
          else
            let w := if Z.of_nat attempt <? maxRetries cfg
                     then backoff_wait env cfg attempt w else w in
            attempts endpoint remaining' (S attempt) lastError w
      end
  end.

Definition attempt_all (endpoint : string) (w : world payload)
  : outcome payload error * world payload :=
  attempts endpoint (Z.to_nat (maxRetries cfg + 1)) 0 None w.

Definition _requestWithRetry (b : CircuitBreaker.breaker)
    (endpoint : string) (w : world payload)
  : outcome payload (CircuitBreaker.failure error)
    * (CircuitBreaker.breaker * world payload) :=
  let w := bump_requests w in
  CircuitBreaker.execute (Date_now env) is_undefined b
      (attempt_all endpoint) None w.

(** [data || []] *)
Definition or_empty_array (data : payload) : payload :=
  match data with
  | PNull => PArray []
  | PText s => if String.eqb s "" then PArray [] else data
  | _ => data
  end.

(** [getListedSecurities(pageNo, pageSize, status)], on a client that
    is its breaker and its world.  The query parameters do not reach
    the oracle, which answers the n-th GET whatever it asks for. *)
Definition getListedSecurities (pageNo pageSize : Z) (status : string)
    (client : CircuitBreaker.breaker * world payload)
  : outcome payload (CircuitBreaker.failure error)
    * (CircuitBreaker.breaker * world payload) :=
  match _requestWithRetry (fst client) "/listedsecurities" (snd client)
  with
  | (Returned data, client) => (Returned (or_empty_array data), client)
  | (Thrown e, client) => (Thrown e, client)
  end.

End Client.

Section Pages.
Context {S E : Type}.
(** The page reader [this.getListedSecurities]. *)
Variable getListedSecurities :
  Z -> Z -> string -> S -> outcome payload E * S.

(** The [while (hasMore)] loop of [getAllListedSecurities]; [fuel]
    bounds the number of pages read, [None] is a loop still running
    when the fuel is spent. *)
Fixpoint getAllListedSecurities_from (fuel : nat)
    (allRecords : list row) (page : Z) (status : string) (pageSize : Z)
    (s : S) : option (outcome (list row) E * S) :=
  match fuel with
  | O => None
  | Datatypes.S fuel' =>
      match getListedSecurities page pageSize status s with
      | (Thrown e, s) => Some (Thrown e, s)
      | (Returned (PArray batch), s) =>
          if (length batch =? 0)%nat then Some (Returned allRecords, s)
          else
            let allRecords := (allRecords ++ batch)%list in
            if Z.of_nat (length batch) <? pageSize
            then Some (Returned allRecords, s)      (* last page *)
            else getAllListedSecurities_from fuel' allRecords (page + 1)
                                             status pageSize s
      | (Returned _, s) => Some (Returned allRecords, s)
      end
  end.

(** [getAllListedSecurities(status, pageSize)] *)
Definition getAllListedSecurities (fuel : nat) (status : string)
    (pageSize : Z) (s : S) : option (outcome (list row) E * S) :=
  getAllListedSecurities_from fuel [] 1 status pageSize s.

End Pages.

(** A well-behaved upstream for the pager: it holds the records [all]
    and serves page [pageNo] of [pageSize] records, counting from 1. *)
Definition page_of (all : list row) (pageNo pageSize : Z) : list row :=
  take (Z.to_nat pageSize) (drop (Z.to_nat ((pageNo - 1) * pageSize)) all).

Definition paged_upstream {E} (all : list row)
    (pageNo pageSize : Z) (status : string) (requested : list Z)
  : outcome payload E * list Z :=
  (Returned (PArray (page_of all pageNo pageSize)),
   (requested ++ [pageNo])%list).

End IndiaBondInfoClient.

(** ** bond-directory/routes/mockLocalRoutes.js: the in-memory fallback *)

Module Routes.
Local Open Scope Z_scope.

(** [parseInt(x) || d], where [parsed] is what [parseInt] made of the
    query parameter: an integer, taken exact, or [None] for NaN. *)
Definition or_number (parsed : option Z) (d : Z) : Z :=
  match parsed with
  | None | Some 0 => d
  | Some n => n
  end.

Record paginated (A : Type) : Type :=
  { data : list A; total : Z; page : Z; limit : Z; pages : Z }.
Arguments data {A} p.
Arguments total {A} p.
Arguments page {A} p.
Arguments limit {A} p.
Arguments pages {A} p.

(** [array.slice(start, end)] for [0 <= start <= end]. *)
Definition slice {A} (array : list A) (start end_ : Z) : list A :=
  take (Z.to_nat (end_ - start)) (drop (Z.to_nat start) array).

(** [Math.ceil(n / l)] for [0 <= n] and [0 < l]; the quotient of an
    array length by a limit of at most 200 is exact in a double. *)
Definition ceil_div (n l : Z) : Z := (n + l - 1) / l.

Definition paginateArray {A} (array : list A) (page limit : option Z)
  : paginated A :=
  let p := Z.max 1 (or_number page 1) in
  let l := Z.min 200 (Z.max 1 (or_number limit 50)) in
  let start := (p - 1) * l in
  {| data := slice array start (start + l);
     total := Z.of_nat (length array);
     page := p;
     limit := l;
     pages := ceil_div (Z.of_nat (length array)) l |}.

(** A member of the object [ratingAgg]: a count, or the text that
    [+ 1] makes of a member inherited from [Object.prototype]. *)
Inductive tally : Type :=
| Count (n : Z)
| Text.

(** [ratingAgg[grade] = (ratingAgg[grade] || 0) + 1].  The read goes
    up the prototype chain; the write makes an own member, except under
    the key [__proto__], where a value that is no object is dropped. *)
Definition bump (ratingAgg : gmap string tally) (grade : string)
  : gmap string tally :=
  let current :=
    match ratingAgg !! grade with
    | Some v => Some v
    | None =>
        if existsb (String.eqb grade) RatingNormalizer.Object_prototype_keys
        then Some Text else None
    end in
  let next :=
    match current with
    | Some (Count 0) | None => Count 1
    | Some (Count n) => Count (n + 1)
    | Some Text => Text
    end in
  if String.eqb grade "__proto__" then ratingAgg
  else <[grade := next]> ratingAgg.

(** [normalizeRating(b.creditRating) || 'Unrated'] *)
Definition grade_of (creditRating : option string) : string :=
  match RatingNormalizer.normalizeRating creditRating with
  | None => "Unrated"
  | Some g => if String.eqb g "" then "Unrated" else g
  end.

(** The [forEach] over the bonds of the fallback data, each bond given
    by its [creditRating]: a string, or [None] for [null]. *)
Definition rating_aggregate (bonds : list (option string))
  : gmap string tally :=
  foldl (fun ratingAgg creditRating => bump ratingAgg (grade_of creditRating))
        ∅ bonds.

Definition count_of (v : tally) : Z :=
  match v with
  | Count n => n
  | Text => 0
  end.

(** The sum of the counts of a distribution. *)
Definition counted_bonds (ratingAgg : gmap string tally) : Z :=
  map_fold (fun _ v acc => count_of v + acc) 0 ratingAgg.

End Routes.

(** ** Sample data *)

Module Samples.
Local Open Scope Z_scope.

(** A world that is nothing but a clock: the n-th reading is n seconds. *)
Definition clock_now (n : nat) : Z * nat := (Z.of_nat n * 1000, S n).

Definition always_fails : @CircuitBreaker.operation nat Z unit :=
  fun w => (Thrown tt, w).
Definition always_succeeds : @CircuitBreaker.operation nat Z unit :=
  fun w => (Returned 7, w).

Definition breaker_of_threshold (n : Z) : CircuitBreaker.breaker :=
  CircuitBreaker.new
    {| CircuitBreaker.opt_failureThreshold := Some n;
       CircuitBreaker.opt_resetTimeout := None;
       CircuitBreaker.opt_monitorWindow := None |}.

(** The one value that [always_fails] throws is an object. *)
Definition no_message (e : unit) : bool := false.

(** A breaker tripped by one failure at second 0: OPEN until 61 s. *)
Definition tripped : CircuitBreaker.breaker :=
  fst (CircuitBreaker.execute_all clock_now no_message
         (breaker_of_threshold 1) [always_fails] 0%nat).

(** [() => Promise.reject(undefined)] *)
Definition rejects_undefined
  : @CircuitBreaker.operation nat Z Upstream.error :=
  fun w => (Thrown Upstream.ThrownUndefined, w).

(** An operation that rejects with an error object: a request that
    timed out. *)
Definition rejects_timeout
  : @CircuitBreaker.operation nat Z Upstream.error :=
  fun w => (Thrown (Upstream.AxiosError None), w).

(** [new CircuitBreaker({ failureThreshold: 1 })
      .execute(() => Promise.reject(undefined))] at second 0. *)
Definition run_rejects_undefined
  : outcome Z (CircuitBreaker.failure Upstream.error)
    * (CircuitBreaker.breaker * nat) :=
  CircuitBreaker.execute clock_now Upstream.is_undefined
    (breaker_of_threshold 1) rejects_undefined None 0%nat.

(** An upstream that answers the first GET with 403 and every later one
    with 500; the login always succeeds. *)
Definition env_403_then_500 : Upstream.environment Upstream.payload :=
  {| Upstream.clock := fun n => Z.of_nat n * 1000;
     Upstream.random_below := fun _ _ => 0;
     Upstream.server :=
       fun n _ _ =>
         match n with
         | O => Upstream.Rejected (Some 403)
         | _ => Upstream.Rejected (Some 500)
         end;
     Upstream.login := fun _ => Some ("fresh1", "fresh2") |}.

(** An upstream that answers every GET with 403, while every login
    succeeds. *)
Definition env_403_login_ok : Upstream.environment Upstream.payload :=
  {| Upstream.clock := fun n => Z.of_nat n * 1000;
     Upstream.random_below := fun _ _ => 0;
     Upstream.server := fun _ _ _ => Upstream.Rejected (Some 403);
     Upstream.login := fun _ => Some ("fresh1", "fresh2") |}.

(** An upstream that answers every GET with 404. *)
Definition env_404 {B} : Upstream.environment B :=
  {| Upstream.clock := fun n => Z.of_nat n * 1000;
     Upstream.random_below := fun _ _ => 0;
     Upstream.server := fun _ _ _ => Upstream.Rejected (Some 404);
     Upstream.login := fun _ => None |}.

(** An upstream whose session is gone for good: 403, and no login. *)
Definition env_403_no_login : Upstream.environment Upstream.payload :=
  {| Upstream.clock := fun n => Z.of_nat n * 1000;
     Upstream.random_below := fun _ _ => 0;
     Upstream.server := fun _ _ _ => Upstream.Rejected (Some 403);
     Upstream.login := fun _ => None |}.

Definition world0 {B} : Upstream.world B :=
  {| Upstream.ticks := 0; Upstream.draws := 0; Upstream.gets := 0;
     Upstream.logins := 0;
     Upstream.NSDL_COOKIE_NL01 := "old1";
     Upstream.NSDL_COOKIE_NL1E := "old2";
     Upstream.lastRequestTime := 0;
     Upstream.stat := {| Upstream.requests := 0; Upstream.successes := 0;
                         Upstream.failures := 0; Upstream.retries := 0 |};
     Upstream.waited := [];
     Upstream.trace := [] |}.

Definition nsdl_config (maxRetries : Z) : NsdlClient.config :=
  {| NsdlClient.cfg_requestDelay := None;
     NsdlClient.cfg_jitterMax := None;
     NsdlClient.cfg_maxRetries := Some maxRetries;
     NsdlClient.cfg_baseBackoffMs := None;
     NsdlClient.cfg_failureThreshold := None;
     NsdlClient.cfg_resetTimeout := None |}.

Definition india_config : IndiaBondInfoClient.config :=
  {| IndiaBondInfoClient.cfg_requestDelay := None;
     IndiaBondInfoClient.cfg_jitterMax := None;
     IndiaBondInfoClient.cfg_maxRetries := None;
     IndiaBondInfoClient.cfg_baseBackoffMs := None;
     IndiaBondInfoClient.cfg_failureThreshold := None;
     IndiaBondInfoClient.cfg_resetTimeout := None |}.

(** One request of the NSDL client against [env_403_then_500], with one
    retry configured. *)
Definition run_403_then_500 :=
  NsdlClient._request env_403_then_500
    (NsdlClient.new_settings (nsdl_config 1))
    (NsdlClient.new_breaker (nsdl_config 1))
    "/creditratingwise" world0.

Definition run_403_no_login :=
  NsdlClient._request env_403_no_login
    (NsdlClient.new_settings (nsdl_config 1))
    (NsdlClient.new_breaker (nsdl_config 1))
    "/creditratingwise" world0.

Definition run_403_login_ok :=
  NsdlClient._request env_403_login_ok
    (NsdlClient.new_settings (nsdl_config 1))
    (NsdlClient.new_breaker (nsdl_config 1))
    "/creditratingwise" world0.

Definition run_404 :=
  NsdlClient._request env_404
    (NsdlClient.new_settings (nsdl_config 3))
    (NsdlClient.new_breaker (nsdl_config 3))
    "/issuerwise" world0.

(** [new NSDLBondClient({ maxRetries: -1, failureThreshold: 1 })]: the
    attempt loop does not run, and [throw lastError] throws
    [undefined]. *)
Definition nsdl_config_no_attempt : NsdlClient.config :=
  {| NsdlClient.cfg_requestDelay := None;
     NsdlClient.cfg_jitterMax := None;
     NsdlClient.cfg_maxRetries := Some (-1);
     NsdlClient.cfg_baseBackoffMs := None;
     NsdlClient.cfg_failureThreshold := Some 1;
     NsdlClient.cfg_resetTimeout := None |}.

Definition run_no_attempt :=
  NsdlClient._request env_404
    (NsdlClient.new_settings nsdl_config_no_attempt)
    (NsdlClient.new_breaker nsdl_config_no_attempt)
    "/issuerwise" world0.

(** An upstream that answers every GET with status 200 and a page whose
    tags are written in upper case. *)
Definition upper_case_page : string :=
  "<HTML><BODY>Session expired</BODY></HTML>".

Definition env_upper_case_page : Upstream.environment Upstream.payload :=
  {| Upstream.clock := fun n => Z.of_nat n * 1000;
     Upstream.random_below := fun _ _ => 0;
     Upstream.server :=
       fun _ _ _ =>
         Upstream.Resolved
           {| Upstream.status := 200;
              Upstream.data := Upstream.PText upper_case_page |};
     Upstream.login := fun _ => Some ("fresh1", "fresh2") |}.

Definition run_upper_case_page :=
  NsdlClient._request env_upper_case_page
    (NsdlClient.new_settings (nsdl_config 1))
    (NsdlClient.new_breaker (nsdl_config 1))
    "/creditratingwise" world0.

(** A primary record, and an interest-rate record that carries the
    identifier only. *)
Definition bond0 : gmap string Transformers.value :=
  {[ "isin" := Transformers.VStr "INE002A07809";
     "interestRateCategory" := Transformers.VStr "8-9%" ]}.

Definition rate_rows : list (gmap string Transformers.value) :=
  [ {[ "ISIN" := Transformers.VStr "ine002a07809" ]} ].

Definition rate_map : gmap string (gmap string Transformers.value) :=
  default ∅
    (Transformers.extractInterestRateMap
       (fun _ => "0") (fun _ => "") (fun _ => Transformers.num_zero)
       rate_rows).

(** A credit rating-wise response: a rated bond, a bond without a rating
    and a record without an ISIN. *)
Definition rating_rows : list (gmap string Transformers.value) :=
  [ {[ "isin" := Transformers.VStr "ine002a07809";
       "creditRating" := Transformers.VStr "crisil aaa (stable)";
       "ratingAgency" := Transformers.VStr "CRISIL" ]};
    {[ "ISIN" := Transformers.VStr "INE001A07TT1" ]};
    {[ "rating" := Transformers.VStr "AA+" ]} ].

(** An issuer-wise response. *)
Definition issuer_rows : list (gmap string Transformers.value) :=
  [ {[ "issuerName" := Transformers.VStr "Tata Capital Limited";
       "sector" := Transformers.VStr "NBFC" ]};
    {[ "companyName" := Transformers.VStr "--" ]};
    {[ "sector" := Transformers.VStr "Power" ]} ].

(** A record of the list of securities. *)
Definition listed_row : gmap string Transformers.value :=
  {[ "ISIN" := Transformers.VStr "ine002a07809";
     "Name of Issuer" := Transformers.VStr "Tata Capital Limited";
     "Credit Rating" := Transformers.VStr "crisil aaa (stable)";
     "Coupon Rate (%)" := Transformers.VStr "8.5" ]}.

(** An issuer type-wise response. *)
Definition issuer_type_rows : list (gmap string Transformers.value) :=
  [ {[ "issuerName" := Transformers.VStr "Tata Capital Limited";
       "issuerType" := Transformers.VStr "NBFC" ]};
    {[ "isin" := Transformers.VStr "ine002a07809" ]} ].

End Samples.

(** * Properties *)

(** ** The rating grade normalizer *)

Module RatingFacts.
Import RatingNormalizer.

(** The ladder is the key sequence of the rank table, sentinels PP-MLD and
    Unrated left out. *)
Lemma ladder_from_GRADE_RANK :
  ladder =
  List.filter
    (fun k => negb (String.eqb k "PP-MLD" || String.eqb k "Unrated"))
    (List.map fst GRADE_RANK).
Proof. reflexivity. Qed.

(** The ranks of the whole table increase in the order of the source. *)
Lemma GRADE_RANK_increasing : chain Z.lt (List.map snd GRADE_RANK).
Proof. cbn. repeat split. Qed.

(** C4: the rank is strictly monotonic along the ladder
    AAA, AA+, AA, AA-, A+, A, A-, BBB+, ..., D, WITHDRAWN: every ladder
    grade has a numeric rank, and each is smaller than the next one's. *)
Theorem rank_strictly_monotonic_along_ladder : chain rank_lt ladder.
Proof. cbv [chain ladder]. repeat split. Qed.

(** C5: [normalizeRating] returns every grade of [KNOWN_GRADES]
    unchanged. *)
Theorem normalizeRating_idempotent_on_grades (g : string) :
  In g KNOWN_GRADES -> normalizeRating (Some g) = Some g.
Proof.
  intros Hg. unfold KNOWN_GRADES in Hg. cbn [In] in Hg.
  repeat (destruct Hg as [<- | Hg]; [vm_compute; reflexivity |]).
  destruct Hg.
Qed.

Lemma normalizeRating_idempotent_on_grades_witness :
  In "BBB+" KNOWN_GRADES /\ normalizeRating (Some "BBB+") = Some "BBB+".
Proof.
  assert (H : In "BBB+" KNOWN_GRADES).
  { unfold KNOWN_GRADES. cbn [In]. do 7 right. left. reflexivity. }
  split; [exact H | exact (normalizeRating_idempotent_on_grades "BBB+" H)].
Defined.

(** Keys that are neither in the table nor inherited get the rank of
    Unrated, and so does [null]. *)
Lemma getRatingRank_unmapped (key : string) :
  own_property GRADE_RANK key = None ->
  existsb (String.eqb key) Object_prototype_keys = false ->
  getRatingRank (Some key) = Number 99.
Proof.
  intros Hown Hproto. unfold getRatingRank, get_property. cbn [to_property_key].
  rewrite Hown, Hproto. reflexivity.
Qed.

Lemma getRatingRank_unmapped_witness :
  getRatingRank (Some "AAAA") = Number 99.
Proof. apply getRatingRank_unmapped; reflexivity. Defined.

Lemma getRatingRank_null : getRatingRank None = Number 99.
Proof. reflexivity. Qed.

Lemma getRatingRank_Unrated : getRatingRank (Some "Unrated") = Number 99.
Proof. reflexivity. Qed.

(** The lookup never yields [undefined]. *)
Lemma getRatingRank_defined (grade : option string) :
  getRatingRank grade <> Undefined.
Proof.
  unfold getRatingRank.
  destruct (get_property GRADE_RANK (to_property_key grade)); discriminate.
Qed.

(** C7: the lookup does not give every unmapped grade the rank of
    Unrated: for the string "constructor", which the table does not map,
    it returns the member inherited from [Object.prototype], not the
    number 99. *)
Theorem getRatingRank_inherited_key :
  own_property GRADE_RANK "constructor" = None /\
  getRatingRank (Some "constructor") = Inherited "constructor" /\
  getRatingRank (Some "constructor") <> Number 99.
Proof. repeat split. discriminate. Qed.

(** C8: the four sample normalizations of the specification. *)
Theorem normalizeRating_samples :
  normalizeRating (Some "CRISILAAA/STABLE") = Some "AAA" /\
  normalizeRating (Some "INDAA+CE") = Some "AA+" /\
  normalizeRating (Some "BWR BBB+") = Some "BBB+" /\
  normalizeRating (Some "") = None.
Proof. repeat split; vm_compute; reflexivity. Qed.

(** The end-to-end rating of the specification's scenario. *)
Example normalizeRating_multi_agency :
  normalizeRating (Some "ICRAAAA/STABLE;CRISILAAA/STABLE") = Some "AAA".
Proof. vm_compute. reflexivity. Qed.

End RatingFacts.

(** ** String and matcher lemmas *)

Module StringFacts.
Import JsString Regex.

Lemma upper_char_idem (c : ascii) : upper_char (upper_char c) = upper_char c.
Proof. destruct c as [[] [] [] [] [] [] [] []]; reflexivity. Qed.

Lemma upper_char_not_lower (c : ascii) : is_lower (upper_char c) = false.
Proof. destruct c as [[] [] [] [] [] [] [] []]; reflexivity. Qed.

Lemma upper_char_ws (c : ascii) : is_ws (upper_char c) = is_ws c.
Proof. destruct c as [[] [] [] [] [] [] [] []]; reflexivity. Qed.

Lemma upper_char_semicolon (c : ascii) :
  Ascii.eqb (upper_char c) ";" = Ascii.eqb c ";".
Proof. destruct c as [[] [] [] [] [] [] [] []]; reflexivity. Qed.

Lemma toUpperCase_idem (s : string) :
  toUpperCase (toUpperCase s) = toUpperCase s.
Proof.
  induction s as [| c s IH]; [reflexivity |].
  cbn. rewrite upper_char_idem. f_equal. exact IH.
Qed.

Lemma toUpperCase_empty (s : string) : toUpperCase s = "" <-> s = "".
Proof. destruct s; cbn; split; congruence. Qed.

Lemma toUpperCase_not_lower (s : string) :
  all_chars (fun c => negb (is_lower c)) (toUpperCase s) = true.
Proof.
  induction s as [| c s IH]; [reflexivity |].
  cbn. rewrite upper_char_not_lower. exact IH.
Qed.

(** *** [all_chars] *)

Lemma all_chars_andb (p q : ascii -> bool) (s : string) :
  all_chars (fun c => p c && q c) s = all_chars p s && all_chars q s.
Proof.
  induction s as [| c s IH]; [reflexivity |].
  cbn. rewrite IH. destruct (p c), (q c), (all_chars p s); reflexivity.
Qed.

Lemma all_chars_map (p : ascii -> bool) (f : ascii -> ascii) (s : string) :
  (forall c, p (f c) = p c) ->
  all_chars p (map_chars f s) = all_chars p s.
Proof.
  intros H. induction s as [| c s IH]; [reflexivity |].
  cbn. rewrite H, IH. reflexivity.
Qed.

Lemma all_chars_slice_to (p : ascii -> bool) (n : nat) (s : string) :
  all_chars p s = true -> all_chars p (slice_to n s) = true.
Proof.
  revert s. induction n as [| n IH]; intros [| c s] H; try reflexivity.
  cbn in *. apply andb_true_iff in H as [Hc Hs]. rewrite Hc. cbn. auto.
Qed.

Lemma all_chars_slice_from (p : ascii -> bool) (n : nat) (s : string) :
  all_chars p s = true -> all_chars p (slice_from n s) = true.
Proof.
  revert s. induction n as [| n IH]; intros [| c s] H; try assumption.
  cbn in *. apply andb_true_iff in H as [Hc Hs]. auto.
Qed.

Lemma all_chars_drop_while (p q : ascii -> bool) (s : string) :
  all_chars p s = true -> all_chars p (drop_while q s) = true.
Proof.
  induction s as [| c s IH]; intros H; [reflexivity |].
  cbn. destruct (q c); [| exact H].
  cbn in H. apply andb_true_iff in H as [_ Hs]. auto.
Qed.

Lemma all_chars_drop_while_end (p q : ascii -> bool) (s : string) :
  all_chars p s = true -> all_chars p (drop_while_end q s) = true.
Proof.
  induction s as [| c s IH]; intros H; [reflexivity |].
  cbn in *. apply andb_true_iff in H as [Hc Hs]. specialize (IH Hs).
  destruct (drop_while_end q s) as [| d r].
  - destruct (q c); cbn; [reflexivity | rewrite Hc; reflexivity].
  - cbn in *. rewrite Hc. exact IH.
Qed.

Lemma all_chars_trim (p : ascii -> bool) (s : string) :
  all_chars p s = true -> all_chars p (trim s) = true.
Proof.
  intros H. unfold trim.
  apply all_chars_drop_while_end, all_chars_drop_while, H.
Qed.

Lemma all_chars_filter (p keep : ascii -> bool) (s : string) :
  all_chars p s = true -> all_chars p (filter_chars keep s) = true.
Proof.
  induction s as [| c s IH]; intros H; [reflexivity |].
  cbn in *. apply andb_true_iff in H as [Hc Hs].
  destruct (keep c); cbn; [rewrite Hc |]; auto.
Qed.

Lemma all_chars_filter_self (keep : ascii -> bool) (s : string) :
  all_chars keep (filter_chars keep s) = true.
Proof.
  induction s as [| c s IH]; [reflexivity |].
  cbn. destruct (keep c) eqn:Hc; cbn; [rewrite Hc |]; exact IH.
Qed.

(** A string all of whose characters are kept is left alone. *)
Lemma filter_chars_id (keep : ascii -> bool) (s : string) :
  all_chars keep s = true -> filter_chars keep s = s.
Proof.
  induction s as [| c s IH]; intros H; [reflexivity |].
  cbn in *. apply andb_true_iff in H as [Hc Hs].
  rewrite Hc, (IH Hs). reflexivity.
Qed.

Lemma drop_while_id (q : ascii -> bool) (s : string) :
  all_chars (fun c => negb (q c)) s = true -> drop_while q s = s.
Proof.
  destruct s as [| c s]; intros H; [reflexivity |].
  cbn in *. apply andb_true_iff in H as [Hc _].
  destruct (q c); [discriminate | reflexivity].
Qed.

Lemma drop_while_end_id (q : ascii -> bool) (s : string) :
  all_chars (fun c => negb (q c)) s = true -> drop_while_end q s = s.
Proof.
  induction s as [| c s IH]; intros H; [reflexivity |].
  cbn in *. apply andb_true_iff in H as [Hc Hs].
  rewrite (IH Hs). destruct s; [| reflexivity].
  destruct (q c); [discriminate | reflexivity].
Qed.

Lemma trim_id (s : string) :
  all_chars (fun c => negb (is_ws c)) s = true -> trim s = s.
Proof.
  intros H. unfold trim. rewrite (drop_while_id _ _ H).
  apply drop_while_end_id, H.
Qed.

Lemma map_chars_id (f : ascii -> ascii) (p : ascii -> bool) (s : string) :
  (forall c, p c = true -> f c = c) ->
  all_chars p s = true -> map_chars f s = s.
Proof.
  intros Hf. induction s as [| c s IH]; intros H; [reflexivity |].
  cbn in *. apply andb_true_iff in H as [Hc Hs].
  rewrite (Hf c Hc), (IH Hs). reflexivity.
Qed.

(** *** Trimming and white space *)

Lemma drop_while_end_empty (q : ascii -> bool) (s : string) :
  drop_while_end q s = "" -> all_chars q s = true.
Proof.
  induction s as [| c s IH]; intros H; [reflexivity |].
  cbn in *. destruct (drop_while_end q s) as [| d r]; [| discriminate].
  destruct (q c); [| discriminate]. cbn. apply IH. reflexivity.
Qed.

Lemma drop_while_all (q : ascii -> bool) (s : string) :
  all_chars q (drop_while q s) = true -> all_chars q s = true.
Proof.
  induction s as [| c s IH]; intros H; [reflexivity |].
  cbn in *. destruct (q c) eqn:Hc; cbn.
  - auto.
  - cbn in H. rewrite Hc in H. discriminate.
Qed.

Lemma trim_empty_all_ws (s : string) :
  trim s = "" -> all_chars is_ws s = true.
Proof.
  unfold trim. intros H. apply drop_while_all, drop_while_end_empty, H.
Qed.

Lemma all_ws_trim_empty (s : string) :
  all_chars is_ws s = true -> trim s = "".
Proof.
  unfold trim. induction s as [| c s IH]; intros H; [reflexivity |].
  cbn in *. apply andb_true_iff in H as [Hc Hs]. rewrite Hc. auto.
Qed.

Lemma drop_while_upper (s : string) :
  drop_while is_ws (toUpperCase s) = toUpperCase (drop_while is_ws s).
Proof.
  induction s as [| c s IH]; [reflexivity |].
  cbn. rewrite upper_char_ws. destruct (is_ws c); [exact IH | reflexivity].
Qed.

Lemma drop_while_end_upper (s : string) :
  drop_while_end is_ws (toUpperCase s)
  = toUpperCase (drop_while_end is_ws s).
Proof.
  induction s as [| c s IH]; [reflexivity |].
  cbn. fold (toUpperCase s). rewrite IH, upper_char_ws.
  destruct (drop_while_end is_ws s); cbn; [| reflexivity].
  destruct (is_ws c); reflexivity.
Qed.

Lemma trim_upper (s : string) :
  trim (toUpperCase s) = toUpperCase (trim s).
Proof.
  unfold trim. rewrite drop_while_upper. apply drop_while_end_upper.
Qed.

(** *** Searching and slicing *)

Lemma indexOf_upper_semicolon (s : string) :
  indexOf (toUpperCase s) ";" = indexOf s ";".
Proof.
  induction s as [| c s IH]; [reflexivity |].
  cbn. fold (toUpperCase s). rewrite upper_char_semicolon, IH. reflexivity.
Qed.

Lemma slice_to_map (f : ascii -> ascii) (n : nat) (s : string) :
  slice_to n (map_chars f s) = map_chars f (slice_to n s).
Proof.
  revert s. induction n as [| n IH]; intros [| c s]; try reflexivity.
  cbn. rewrite IH. reflexivity.
Qed.

Lemma split_first_upper (s : string) :
  split_first (toUpperCase s) ";" = toUpperCase (split_first s ";").
Proof.
  unfold split_first. rewrite indexOf_upper_semicolon.
  destruct (indexOf s ";"); [apply slice_to_map | reflexivity].
Qed.

Lemma indexOf_none (s : string) (c : ascii) :
  indexOf s c = None ->
  all_chars (fun d => negb (Ascii.eqb d c)) s = true.
Proof.
  induction s as [| d s IH]; intros H; [reflexivity |].
  cbn in *. destruct (Ascii.eqb d c); [discriminate |].
  destruct (indexOf s c); [discriminate |]. cbn. auto.
Qed.

Lemma indexOf_slice_to (s : string) (c : ascii) (i : nat) :
  indexOf s c = Some i ->
  all_chars (fun d => negb (Ascii.eqb d c)) (slice_to i s) = true.
Proof.
  revert i. induction s as [| d s IH]; intros i H; [discriminate |].
  cbn in H. destruct (Ascii.eqb d c) eqn:Hd.
  - injection H as <-. reflexivity.
  - destruct (indexOf s c) as [j |]; [| discriminate].
    injection H as <-. cbn. rewrite Hd. cbn. auto.
Qed.

Lemma split_first_free (s : string) (c : ascii) :
  all_chars (fun d => negb (Ascii.eqb d c)) (split_first s c) = true.
Proof.
  unfold split_first. destruct (indexOf s c) as [i |] eqn:H.
  - apply indexOf_slice_to, H.
  - apply indexOf_none, H.
Qed.

Lemma append_nil (s : string) : String.append "" s = s.
Proof. reflexivity. Qed.

Lemma append_cons (c : ascii) (s t : string) :
  String.append (String c s) t = String c (String.append s t).
Proof. reflexivity. Qed.

Lemma split_first_app (s t : string) (c : ascii) :
  indexOf s c = None ->
  split_first (s ++ String c t) c = s.
Proof.
  unfold split_first. intros H.
  assert (Hi : indexOf (s ++ String c t) c = Some (String.length s)
               /\ slice_to (String.length s) (s ++ String c t) = s).
  { induction s as [| d s IH].
    - rewrite append_nil. cbn [indexOf String.length slice_to].
      rewrite Ascii.eqb_refl. split; reflexivity.
    - rewrite append_cons. cbn [indexOf String.length slice_to] in *.
      destruct (Ascii.eqb d c); [discriminate |].
      destruct (indexOf s c); [discriminate |].
      destruct (IH eq_refl) as [-> ->]. split; reflexivity. }
  destruct Hi as [-> Hs]. exact Hs.
Qed.

Lemma slice_from_slice_from (a b : nat) (s : string) :
  slice_from b (slice_from a s) = slice_from (a + b) s.
Proof.
  revert s. induction a as [| a IH]; intros s.
  - destruct s; reflexivity.
  - destruct s as [| c s]; cbn.
    + destruct b; reflexivity.
    + apply IH.
Qed.

(** *** The matcher *)

(** Whatever way a pattern matches, the rest is a tail of the subject. *)
Lemma matches_tail (r : regex) :
  forall (s : string) (caps : list string) (m : string * list string),
    In m (matches r s caps) -> exists k, fst m = slice_from k s.
Proof.
  induction r as [l | p lo hi | r1 IH1 r2 IH2 | r1 IH1 r2 IH2 | r1 IH1 | r1 IH1];
    intros s caps m Hin; cbn [matches] in Hin.
  - destruct (lit_match l s); [| destruct Hin].
    destruct Hin as [<- | []]. eexists. reflexivity.
  - apply in_map_iff in Hin as (k & <- & _). eexists. reflexivity.
  - apply in_flat_map in Hin as (m1 & Hm1 & Hm).
    destruct (IH1 _ _ _ Hm1) as [k1 H1]. destruct (IH2 _ _ _ Hm) as [k2 H2].
    exists (k1 + k2)%nat. rewrite H2, H1. apply slice_from_slice_from.
  - apply in_app_iff in Hin as [Hin | Hin]; eauto.
  - apply in_app_iff in Hin as [Hin | [<- | []]]; eauto.
    exists 0%nat. destruct s; reflexivity.
  - apply in_map_iff in Hin as (m1 & <- & Hm1). cbn [fst]. eauto.
Qed.

Lemma all_chars_replace_prefix (p : ascii -> bool) (r : regex) (s : string) :
  all_chars p s = true -> all_chars p (replace_prefix r s) = true.
Proof.
  intros H. unfold replace_prefix, exec_prefix.
  destruct (matches r s []) as [| m ms] eqn:Hm; [exact H |].
  cbn. destruct (matches_tail r s [] m) as [k ->].
  - rewrite Hm. left. reflexivity.
  - apply all_chars_slice_from, H.
Qed.

Lemma all_chars_replace_suffix (p : ascii -> bool) (r : regex) (s : string) :
  all_chars p s = true -> all_chars p (replace_suffix r s) = true.
Proof.
  induction s as [| c s IH]; intros H; cbn [replace_suffix].
  - destruct (exec_whole r ""); reflexivity.
  - destruct (exec_whole r (String c s)); [reflexivity |].
    cbn in *. apply andb_true_iff in H as [Hc Hs]. rewrite Hc. cbn. auto.
Qed.

(** If [a] and [b] both start [s], the shorter one starts the longer. *)
Lemma prefix_of_prefix (a b s : string) :
  String.prefix a s = true -> String.prefix b s = true ->
  (String.length a <= String.length b)%nat ->
  String.prefix a b = true.
Proof.
  revert b s. induction a as [| c a IH]; intros b s Ha Hb Hlen;
    [destruct b; reflexivity |].
  destruct s as [| d s]; [discriminate |].
  destruct b as [| e b]; [cbn in Hlen; lia |].
  cbn in *.
  destruct (Ascii.ascii_dec c d) as [-> | ]; [| discriminate].
  destruct (Ascii.ascii_dec e d) as [-> | ]; [| discriminate].
  destruct (Ascii.ascii_dec d d) as [_ | Hn]; [| contradiction].
  apply (IH b s); [assumption | assumption | lia].
Qed.

End StringFacts.

(** ** Laws of the rating grade normalizer *)

Module RatingLaws.
Import JsString Regex RatingNormalizer StringFacts.

Lemma normalizeRating_by_stages (raw : string) :
  normalizeRating (Some raw) =
  if String.eqb raw "" || String.eqb (trim raw) "" then None
  else grade_of_segment (toUpperCase (trim (split_first raw ";"))).
Proof. reflexivity. Qed.

Lemma known_grade_nonempty (g : string) : In g KNOWN_GRADES -> g <> "".
Proof.
  unfold KNOWN_GRADES. cbn [In]. intros H.
  repeat (destruct H as [<- | H]; [discriminate |]). destruct H.
Qed.

Lemma known_grade_clean (g : string) :
  In g KNOWN_GRADES -> all_chars clean_char g = true.
Proof.
  unfold KNOWN_GRADES. cbn [In]. intros H.
  repeat (destruct H as [<- | H]; [reflexivity |]). destruct H.
Qed.

(** What [match_grade] yields is a known grade or the text it was
    given. *)
Lemma match_grade_cases (s g : string) :
  match_grade s = Some g -> In g KNOWN_GRADES \/ (g = s /\ s <> "").
Proof.
  unfold match_grade. intros H.
  destruct (List.find (String.eqb s) KNOWN_GRADES) as [g1 |] eqn:H1.
  - injection H as <-. left. apply (List.find_some _ _ H1).
  - destruct (List.find (startsWith s) KNOWN_GRADES) as [g2 |] eqn:H2.
    + injection H as <-. left. apply (List.find_some _ _ H2).
    + destruct (String.eqb_spec s ""); [discriminate |].
      injection H as <-. right. split; [reflexivity | assumption].
Qed.

(** [normalizeRating] never returns the empty string: an input that
    cleans down to nothing gives [null]. *)
Theorem normalizeRating_never_empty (raw : option string) :
  normalizeRating raw <> Some "".
Proof.
  destruct raw as [raw |]; [| discriminate].
  rewrite normalizeRating_by_stages.
  destruct (String.eqb raw "" || String.eqb (trim raw) ""); [discriminate |].
  unfold grade_of_segment.
  destruct (existsb _ NOISE_RESULTS); [discriminate |].
  destruct (includes _ "PP-MLD"); [discriminate |].
  intros H. apply match_grade_cases in H as [H | [E Hne]].
  - apply known_grade_nonempty in H. contradiction.
  - apply Hne. symmetry. exact E.
Qed.

(** *** Longest grade first *)

Lemma find_split {A} (p : A -> bool) (l : list A) (x : A) :
  List.find p l = Some x ->
  exists l1 l2, l = (l1 ++ x :: l2)%list /\
                forall y, In y l1 -> p y = false.
Proof.
  induction l as [| a l IH]; intros H; [discriminate |].
  cbn in H. destruct (p a) eqn:Hp.
  - injection H as <-. exists [], l. split; [reflexivity |]. intros y [].
  - destruct (IH H) as (l1 & l2 & -> & Hl1).
    exists (a :: l1), l2. split; [reflexivity |].
    intros y [<- | Hy]; auto.
Qed.

Lemma longest_first_tail (l1 l2 : list string) :
  longest_first (l1 ++ l2)%list = true -> longest_first l2 = true.
Proof.
  induction l1 as [| a l1 IH]; intros H; [exact H |].
  cbn in H. apply andb_true_iff in H as [_ H]. auto.
Qed.

Lemma longest_first_head (g g' : string) (l : list string) :
  longest_first (g :: l) = true -> In g' (g :: l) ->
  String.prefix g g' = true ->
  (String.length g' <= String.length g)%nat.
Proof.
  intros H [<- | Hin] Hpre; [lia |].
  cbn in H. apply andb_true_iff in H as [H _].
  rewrite forallb_forall in H. specialize (H g' Hin).
  rewrite Hpre in H. cbn in H. apply negb_true_iff in H.
  apply Nat.ltb_ge in H. exact H.
Qed.

Lemma prefix_length (a s : string) :
  String.prefix a s = true -> (String.length a <= String.length s)%nat.
Proof.
  revert s. induction a as [| c a IH]; intros s H; [cbn; lia |].
  destruct s as [| d s]; [discriminate |].
  cbn in *. destruct (Ascii.ascii_dec c d); [| discriminate].
  apply IH in H. lia.
Qed.

Lemma prefix_refl (s : string) : String.prefix s s = true.
Proof.
  induction s as [| c s IH]; [reflexivity |].
  cbn. destruct (Ascii.ascii_dec c c); [exact IH | contradiction].
Qed.

(** When a known grade starts the text, [match_grade] returns the
    longest known grade that starts it: AA+ wins over AA and A. *)
Theorem match_grade_longest (s g' : string) :
  In g' KNOWN_GRADES -> startsWith s g' = true ->
  exists g, match_grade s = Some g /\ In g KNOWN_GRADES /\
            startsWith s g = true /\
            (String.length g' <= String.length g)%nat.
Proof.
  unfold startsWith. intros Hin Hpre. unfold match_grade.
  destruct (List.find (String.eqb s) KNOWN_GRADES) as [g |] eqn:H1.
  - apply List.find_some in H1 as [Hg Heq]. apply String.eqb_eq in Heq.
    subst g. exists s.
    split; [reflexivity | split; [exact Hg | split]].
    + apply prefix_refl.
    + apply prefix_length, Hpre.
  - destruct (List.find (fun g => String.prefix g s) KNOWN_GRADES)
      as [g |] eqn:H2.
    + pose proof (List.find_some _ _ H2) as [Hg Hgs].
      exists g. split; [| split; [exact Hg | split; [exact Hgs |]]].
      { change (List.find (startsWith s) KNOWN_GRADES)
          with (List.find (fun g => String.prefix g s) KNOWN_GRADES).
        rewrite H2. reflexivity. }
      destruct (find_split _ _ _ H2) as (l1 & l2 & Hl & Hl1).
      assert (Hlf : longest_first (g :: l2) = true).
      { apply (longest_first_tail l1). rewrite <- Hl. reflexivity. }
      assert (Hin' : In g' (g :: l2)).
      { rewrite Hl in Hin. apply in_app_iff in Hin as [Hin | Hin];
          [| exact Hin].
        rewrite (Hl1 g' Hin) in Hpre. discriminate. }
      destruct (Nat.le_gt_cases (String.length g') (String.length g))
        as [Hle | Hgt]; [exact Hle |].
      apply (longest_first_head g g' l2 Hlf Hin').
      apply (prefix_of_prefix g g' s); [assumption | assumption | lia].
    + pose proof (List.find_none _ _ H2 g' Hin) as Hno. cbn in Hno.
      rewrite Hpre in Hno. discriminate.
Qed.

Lemma match_grade_longest_witness :
  exists g, match_grade "AA+XYZ" = Some g /\ In g KNOWN_GRADES /\
            startsWith "AA+XYZ" g = true /\
            (String.length "A" <= String.length g)%nat.
Proof.
  apply match_grade_longest; [| reflexivity].
  unfold KNOWN_GRADES. cbn [In]. do 6 right. left. reflexivity.
Defined.

(** *** The alphabet of the result *)

Lemma all_chars_clean (s : string) :
  all_chars clean_char s = true <->
  all_chars (fun c => negb (is_ws c)) s = true /\
  all_chars (fun c => negb (is_lower c)) s = true /\
  all_chars (fun c => negb (Ascii.eqb c "(" || Ascii.eqb c ")")) s = true /\
  all_chars (fun c => negb (Ascii.eqb c "/")) s = true /\
  all_chars (fun c => negb (Ascii.eqb c ";")) s = true.
Proof.
  induction s as [| c s IH]; [cbn; tauto |].
  cbn [all_chars]. rewrite !andb_true_iff, IH. unfold clean_char.
  rewrite !andb_true_iff. tauto.
Qed.

Lemma strip_suffixes_keeps (p : ascii -> bool) (n : nat) (s : string) :
  all_chars p s = true -> all_chars p (strip_suffixes n s) = true.
Proof.
  revert s. induction n as [| n IH]; intros s H; [exact H |].
  cbn [strip_suffixes].
  assert (all_chars p (trim (replace_suffix SUFFIXES_RE s)) = true)
    by (apply all_chars_trim, all_chars_replace_suffix, H).
  destruct (String.eqb _ s); auto.
Qed.

Lemma before_noise_keeps (p : ascii -> bool) (s : string) :
  all_chars p s = true -> all_chars p (before_noise s) = true.
Proof.
  intros H. unfold before_noise.
  apply all_chars_trim, all_chars_filter, all_chars_filter,
    all_chars_replace_suffix.
  destruct (indexOf s "/"); [apply all_chars_slice_to |]; exact H.
Qed.

Lemma after_agency_keeps (p : ascii -> bool) (s : string) :
  all_chars p s = true -> all_chars p (after_agency s) = true.
Proof.
  intros H. unfold after_agency.
  assert (H1 : all_chars p (trim (replace_prefix AGENCY_PREFIXES_RE s)) = true)
    by (apply all_chars_trim, all_chars_replace_prefix, H).
  destruct (startsWith _ "PROVISIONAL"); [| exact H1].
  apply all_chars_trim, all_chars_slice_from, H1.
Qed.

Lemma remainder_keeps (p : ascii -> bool) (s : string) :
  all_chars p s = true -> all_chars p (remainder s) = true.
Proof.
  intros H. unfold remainder.
  apply strip_suffixes_keeps, all_chars_trim, all_chars_replace_prefix, H.
Qed.

Lemma before_noise_clean (s : string) :
  all_chars (fun c => negb (is_lower c)) s = true ->
  all_chars (fun c => negb (Ascii.eqb c ";")) s = true ->
  all_chars clean_char (before_noise s) = true.
Proof.
  intros Hlow Hsemi. apply all_chars_clean.
  split; [| split; [| split; [| split]]];
    try (apply before_noise_keeps; assumption).
  - unfold before_noise.
    apply all_chars_trim, all_chars_filter, all_chars_filter_self.
  - unfold before_noise. apply all_chars_trim, all_chars_filter_self.
  - unfold before_noise.
    apply all_chars_trim, all_chars_filter, all_chars_filter,
      all_chars_replace_suffix.
    destruct (indexOf s "/") as [i |] eqn:Hi.
    + apply indexOf_slice_to, Hi.
    + apply indexOf_none, Hi.
Qed.

Lemma segment_upper_clean (raw : string) :
  all_chars (fun c => negb (is_lower c))
            (toUpperCase (trim (split_first raw ";"))) = true /\
  all_chars (fun c => negb (Ascii.eqb c ";"))
            (toUpperCase (trim (split_first raw ";"))) = true.
Proof.
  split; [apply toUpperCase_not_lower |].
  unfold toUpperCase. rewrite all_chars_map.
  - apply all_chars_trim, split_first_free.
  - intros c. rewrite upper_char_semicolon. reflexivity.
Qed.

Lemma normalizeRating_clean_of (raw : option string) (g : string) :
  normalizeRating raw = Some g -> all_chars clean_char g = true.
Proof.
  destruct raw as [raw |]; [| discriminate].
  rewrite normalizeRating_by_stages.
  destruct (String.eqb raw "" || String.eqb (trim raw) ""); [discriminate |].
  destruct (segment_upper_clean raw) as [Hlow Hsemi].
  set (s := toUpperCase (trim (split_first raw ";"))) in *.
  unfold grade_of_segment.
  destruct (existsb _ NOISE_RESULTS).
  { intros H. injection H as <-. reflexivity. }
  destruct (includes _ "PP-MLD").
  { intros H. injection H as <-. reflexivity. }
  intros H. apply match_grade_cases in H as [H | [-> _]].
  - apply known_grade_clean, H.
  - apply remainder_keeps, after_agency_keeps, before_noise_clean;
      assumption.
Qed.

(** Whatever [normalizeRating] returns contains no white space, no
    lower-case letter, no parenthesis, no slash and no semicolon. *)
Theorem normalizeRating_clean (raw : option string) (g : string) :
  normalizeRating raw = Some g -> all_chars clean_char g = true.
Proof. apply normalizeRating_clean_of. Qed.

Lemma normalizeRating_clean_witness :
  all_chars clean_char "XYZ" = true.
Proof.
  apply (normalizeRating_clean (Some " crisil (xyz) / Stable ; icra aa")).
  vm_compute. reflexivity.
Defined.

(** *** Rank of a normalized grade *)

Lemma own_property_bounds (key : string) (v : Z) :
  own_property GRADE_RANK key = Some v -> (1 <= v <= 99)%Z.
Proof.
  unfold GRADE_RANK. cbn [own_property]. intros H.
  repeat (destruct (String.eqb _ key); [injection H as <-; lia |]).
  discriminate.
Qed.

Lemma inherited_key_not_clean (g : string) :
  existsb (String.eqb g) Object_prototype_keys = true ->
  all_chars clean_char g = false.
Proof.
  intros H. apply existsb_exists in H as (k & Hin & Heq).
  apply String.eqb_eq in Heq. subst k.
  unfold Object_prototype_keys in Hin. cbn [In] in Hin.
  repeat (destruct Hin as [<- | Hin]; [reflexivity |]). destruct Hin.
Qed.

(** The rank of a normalized rating is always a number between 1 and 99:
    what [normalizeRating] returns never reaches a member inherited from
    [Object.prototype], so the sort comparator of the routes never works
    on anything but numbers. *)
Theorem rank_of_normalized_is_number (raw : option string) :
  exists n, getRatingRank (normalizeRating raw) = Number n /\
            (1 <= n <= 99)%Z.
Proof.
  destruct (normalizeRating raw) as [g |] eqn:Hg.
  - pose proof (normalizeRating_clean_of raw g Hg) as Hclean.
    unfold getRatingRank, get_property. cbn [to_property_key].
    destruct (own_property GRADE_RANK g) as [v |] eqn:Hown.
    + exists v. split; [reflexivity |]. apply (own_property_bounds g v Hown).
    + destruct (existsb (String.eqb g) Object_prototype_keys) eqn:Hk.
      * apply inherited_key_not_clean in Hk. congruence.
      * exists 99%Z. split; [reflexivity | lia].
  - exists 99%Z. split; [reflexivity | lia].
Qed.

(** *** Case and further segments *)

Lemma normalizeRating_upper (raw : string) :
  normalizeRating (Some (toUpperCase raw)) = normalizeRating (Some raw).
Proof.
  rewrite !normalizeRating_by_stages.
  rewrite trim_upper, split_first_upper, trim_upper, toUpperCase_idem.
  assert (H1 : String.eqb (toUpperCase raw) "" = String.eqb raw "")
    by (destruct raw; reflexivity).
  assert (H2 : String.eqb (toUpperCase (trim raw)) ""
               = String.eqb (trim raw) "")
    by (destruct (trim raw); reflexivity).
  rewrite H1, H2. reflexivity.
Qed.

(** [normalizeRating] does not look at the case of letters: two inputs
    that agree up to case get the same grade. *)
Theorem normalizeRating_case_insensitive (a b : string) :
  toUpperCase a = toUpperCase b ->
  normalizeRating (Some a) = normalizeRating (Some b).
Proof.
  intros H. rewrite <- (normalizeRating_upper a), <- (normalizeRating_upper b).
  rewrite H. reflexivity.
Qed.

Lemma normalizeRating_case_insensitive_witness :
  normalizeRating (Some "Crisil aa+/Stable")
  = normalizeRating (Some "CRISIL AA+/STABLE").
Proof.
  apply normalizeRating_case_insensitive. reflexivity.
Defined.

Lemma all_chars_append (p : ascii -> bool) (s t : string) :
  all_chars p (String.append s t) = all_chars p s && all_chars p t.
Proof.
  induction s as [| c s IH]; [reflexivity |].
  rewrite append_cons. cbn [all_chars]. rewrite IH.
  destruct (p c); reflexivity.
Qed.

(** Only the first agency's rating is read: what follows the first
    semicolon never changes the result. *)
Theorem normalizeRating_first_segment (s t : string) :
  indexOf s ";" = None ->
  normalizeRating (Some (String.append s (String ";" t)))
  = normalizeRating (Some s).
Proof.
  intros Hs. rewrite !normalizeRating_by_stages.
  rewrite (split_first_app s t ";" Hs).
  assert (Hsplit : split_first s ";" = s)
    by (unfold split_first; rewrite Hs; reflexivity).
  rewrite Hsplit.
  assert (H1 : String.eqb (String.append s (String ";" t)) "" = false)
    by (destruct s; reflexivity).
  assert (H2 : String.eqb (trim (String.append s (String ";" t))) "" = false).
  { destruct (String.eqb_spec (trim (String.append s (String ";" t))) "")
      as [He | ]; [| reflexivity].
    apply trim_empty_all_ws in He. rewrite all_chars_append in He.
    cbn in He. rewrite andb_false_r in He. discriminate. }
  rewrite H1, H2. cbn [orb].
  destruct (String.eqb_spec (trim s) "") as [He | Hne].
  - rewrite orb_true_r, He. vm_compute. reflexivity.
  - destruct (String.eqb_spec s "") as [-> | _]; [| reflexivity].
    exfalso. apply Hne. reflexivity.
Qed.

Lemma normalizeRating_first_segment_witness :
  normalizeRating (Some (String.append "ICRAAAA/STABLE"
                                       (String ";" "CRISILAA+/STABLE")))
  = normalizeRating (Some "ICRAAAA/STABLE").
Proof. apply normalizeRating_first_segment. reflexivity. Defined.

End RatingLaws.

(** ** Laws of the transformers' helpers and extractors *)

Module TransformerLaws.
Import JsString Regex Transformers StringFacts.

(** *** [pick] *)

Lemma pick_null_or_filled (raw : gmap string value) (keys : list string) :
  pick raw keys = VNull \/ is_empty (pick raw keys) = false.
Proof.
  induction keys as [| key keys IH]; [left; reflexivity |].
  cbn [pick]. destruct (is_empty (get raw key)) eqn:He; cbn [negb].
  - exact IH.
  - right. exact He.
Qed.

(** What [(pick(record, ...) || '').toUpperCase()] yields: a non-empty
    result is the upper-cased text of the field picked. *)
Lemma upper_of_pick (raw : gmap string value) (keys : list string)
    (isin : string) :
  (call_toUpperCase (or_else (pick raw keys) (VStr "")) = Some isin
   /\ isin <> "")
  <-> exists s, pick raw keys = VStr s /\ s <> "" /\ isin = toUpperCase s.
Proof.
  unfold or_else. split.
  - intros [H Hne]. destruct (pick raw keys) as [| | b | x | s | t] eqn:Hp;
      cbn in H; try discriminate.
    + injection H as <-. contradiction.
    + injection H as <-. contradiction.
    + destruct b; cbn in H; [discriminate |].
      injection H as <-. contradiction.
    + destruct x; cbn in H; try discriminate;
        injection H as <-; contradiction.
    + destruct (String.eqb_spec s "") as [-> | Hs]; cbn in H.
      * injection H as <-. contradiction.
      * injection H as <-. exists s. auto.
  - intros (s & -> & Hs & ->). cbn.
    destruct (String.eqb_spec s ""); [contradiction |]. cbn.
    split; [reflexivity |]. rewrite toUpperCase_empty. exact Hs.
Qed.

(** *** The transformers' [normalizeRating] *)

Section Rating.
Variable Number_toString : number -> string.
Variable Date_toString : option Z -> string.

Local Abbreviation normalizeRating :=
  (Transformers.normalizeRating Number_toString Date_toString).

Lemma normalizeRating_cases (raw : value) :
  normalizeRating raw = VNull \/
  exists s, normalizeRating raw = VStr s /\ s <> "" /\
            all_chars (fun c => negb (is_ws c)) s = true /\
            all_chars (fun c => negb (Ascii.eqb c "(" || Ascii.eqb c ")"))
                      s = true /\
            all_chars (fun c => negb (is_lower c)) s = true.
Proof.
  unfold Transformers.normalizeRating.
  set (s0 := ToString _ _ _).
  set (s1 := trim (toUpperCase _)).
  unfold or_else. cbn [truthy].
  destruct (String.eqb_spec s1 "") as [| Hne]; cbn [negb];
    [left; reflexivity | right].
  exists s1. split; [reflexivity |]. split; [exact Hne |]. subst s1.
  split; [| split].
  - apply all_chars_trim. unfold toUpperCase. rewrite all_chars_map.
    + apply all_chars_filter, all_chars_filter_self.
    + intros c. rewrite upper_char_ws. reflexivity.
  - apply all_chars_trim. unfold toUpperCase. rewrite all_chars_map.
    + apply all_chars_filter_self.
    + intros c. destruct c as [[] [] [] [] [] [] [] []]; reflexivity.
  - apply all_chars_trim, toUpperCase_not_lower.
Qed.

Lemma normalizeRating_twice (raw : value) :
  normalizeRating (normalizeRating raw) = normalizeRating raw.
Proof.
  destruct (normalizeRating_cases raw)
    as [-> | (s & -> & Hne & Hws & Hpar & Hlow)]; [reflexivity |].
  unfold Transformers.normalizeRating, or_else. cbn [truthy ToString].
  destruct (String.eqb_spec s "") as [| _]; [contradiction |].
  cbn [negb ToString].
  rewrite (filter_chars_id _ s Hws), (filter_chars_id _ s Hpar).
  assert (Hup : toUpperCase s = s).
  { apply (map_chars_id _ (fun c => negb (is_lower c))); [| exact Hlow].
    intros c Hc. unfold upper_char, is_lower in *.
    apply negb_true_iff in Hc. rewrite Hc. reflexivity. }
  rewrite Hup, (trim_id s Hws).
  destruct (String.eqb_spec s ""); [contradiction | reflexivity].
Qed.

(** The transformers' [normalizeRating] is idempotent on every value:
    what it returns is [null] or a text without white space,
    parentheses and lower-case letters, which it leaves as it is. *)
Theorem transformers_normalizeRating_idempotent (raw : value) :
  normalizeRating (normalizeRating raw) = normalizeRating raw /\
  (normalizeRating raw = VNull \/
   exists s, normalizeRating raw = VStr s /\ s <> "" /\
             all_chars (fun c => negb (is_ws c)) s = true /\
             all_chars (fun c => negb (Ascii.eqb c "(" || Ascii.eqb c ")"))
                       s = true /\
             all_chars (fun c => negb (is_lower c)) s = true).
Proof.
  split; [apply normalizeRating_twice | apply normalizeRating_cases].
Qed.

(** *** The credit rating map *)

Local Abbreviation extractCreditRatingMap_from :=
  (Transformers.extractCreditRatingMap_from Number_toString Date_toString).
Local Abbreviation extractCreditRatingMap :=
  (Transformers.extractCreditRatingMap Number_toString Date_toString).

Lemma or_else_null (v : value) :
  or_else v VNull = VNull \/ truthy (or_else v VNull) = true.
Proof.
  unfold or_else. destruct (truthy v) eqn:H; [right; exact H | left].
  reflexivity.
Qed.

Lemma credit_rating_map_from
    (rawArray : list (gmap string value))
    (P : string -> gmap string value -> Prop) :
  (forall record isin s rating,
      In record rawArray ->
      pick record ["isin"; "ISIN"] = VStr s -> s <> "" ->
      isin = toUpperCase s ->
      normalizeRating
        (pick record ["creditRating"; "rating"; "credit_rating"])
      = rating ->
      truthy rating = true ->
      P isin {[ "creditRating" := rating;
                "ratingAgency" :=
                  or_else (pick record ["ratingAgency"; "rating_agency";
                                        "agencyName"]) VNull ]}) ->
  forall map0 map,
    (forall isin e, map0 !! isin = Some e -> P isin e) ->
    extractCreditRatingMap_from map0 rawArray = Some map ->
    forall isin e, map !! isin = Some e -> P isin e.
Proof.
  induction rawArray as [| record rest IH]; intros HP map0 map H0 H.
  - cbn in H. injection H as <-. exact H0.
  - cbn [Transformers.extractCreditRatingMap_from] in H.
    destruct (call_toUpperCase _) as [isin |] eqn:Hisin;
      [| discriminate].
    cbn [mbind option_bind] in H.
    assert (HP' : forall record isin s rating,
               In record rest ->
               pick record ["isin"; "ISIN"] = VStr s -> s <> "" ->
               isin = toUpperCase s ->
               normalizeRating
                 (pick record ["creditRating"; "rating"; "credit_rating"])
               = rating ->
               truthy rating = true ->
               P isin {[ "creditRating" := rating;
                         "ratingAgency" :=
                           or_else (pick record ["ratingAgency";
                                                 "rating_agency";
                                                 "agencyName"]) VNull ]}).
    { intros r i s rt Hin. apply HP. right. exact Hin. }
    destruct (String.eqb_spec isin "") as [| Hne].
    { apply (IH HP' map0 map H0 H). }
    cbn [negb andb] in H.
    destruct (truthy (normalizeRating _)) eqn:Ht.
    + refine (IH HP' _ map _ H).
      intros i e Hi. apply lookup_insert_Some in Hi as [[<- <-] | [_ Hi]].
      * destruct (proj1 (upper_of_pick record ["isin"; "ISIN"] isin)
                    (conj Hisin Hne)) as (s & Hs & Hsne & Heq).
        apply (HP record isin s _ (or_introl eq_refl) Hs Hsne Heq eq_refl Ht).
      * apply H0, Hi.
    + apply (IH HP' map0 map H0 H).
Qed.

(** Every entry of the credit rating map sits under a non-empty
    upper-case ISIN and carries a non-empty, normalized rating; its
    agency is [null] or a non-empty value.  A record without a rating
    leaves no entry. *)
Theorem credit_rating_map_entries
    (rawArray : list (gmap string value))
    (map : gmap string (gmap string value))
    (isin : string) (entry : gmap string value) :
  extractCreditRatingMap rawArray = Some map ->
  map !! isin = Some entry ->
  isin <> "" /\
  all_chars (fun c => negb (is_lower c)) isin = true /\
  (exists rating,
      entry !! "creditRating" = Some (VStr rating) /\ rating <> "" /\
      normalizeRating (VStr rating) = VStr rating) /\
  (exists agency,
      entry !! "ratingAgency" = Some agency /\
      (agency = VNull \/ truthy agency = true)).
Proof.
  intros H Hl. revert isin entry Hl.
  apply (credit_rating_map_from rawArray
           (fun isin entry =>
              isin <> "" /\
              all_chars (fun c => negb (is_lower c)) isin = true /\
              (exists rating,
                  entry !! "creditRating" = Some (VStr rating) /\
                  rating <> "" /\
                  normalizeRating (VStr rating) = VStr rating) /\
              (exists agency,
                  entry !! "ratingAgency" = Some agency /\
                  (agency = VNull \/ truthy agency = true)))
           ) with (map0 := ∅); [| | exact H].
  - intros record isin s rating _ Hs Hne -> Hr Ht.
    split; [rewrite toUpperCase_empty; exact Hne |].
    split; [apply toUpperCase_not_lower |]. split.
    + destruct (normalizeRating_cases
                  (pick record ["creditRating"; "rating"; "credit_rating"]))
        as [Hn | (r & Hn & Hrne & _)]; subst rating.
      { rewrite Hn in Ht. discriminate Ht. }
      exists r. rewrite Hn. split; [reflexivity |].
      split; [exact Hrne |].
      rewrite <- Hn. apply normalizeRating_twice.
    + eexists. split; [reflexivity |]. apply or_else_null.
  - intros i e Hi. rewrite lookup_empty in Hi. discriminate.
Qed.

End Rating.

(** *** Slugs *)

Lemma slug_char_not_dash (c : ascii) :
  is_slug_char c = true -> is_dash c = false.
Proof.
  destruct c as [[] [] [] [] [] [] [] []]; vm_compute; intros H;
    (reflexivity || discriminate H).
Qed.

Lemma dash_runs_chars (in_run : bool) (s : string) :
  all_chars (fun c => is_slug_char c || is_dash c) (dash_runs in_run s)
  = true.
Proof.
  revert in_run. induction s as [| c s IH]; intros in_run; [reflexivity |].
  cbn [dash_runs]. destruct (is_slug_char c) eqn:Hc.
  - cbn [all_chars]. rewrite Hc, IH. reflexivity.
  - destruct in_run; [apply IH |]. cbn [all_chars]. rewrite IH. reflexivity.
Qed.

Lemma dash_runs_first (s : string) :
  first_is is_dash (dash_runs true s) = false.
Proof.
  induction s as [| c s IH]; [reflexivity |].
  cbn [dash_runs]. destruct (is_slug_char c) eqn:Hc; [| exact IH].
  cbn. apply slug_char_not_dash, Hc.
Qed.

Lemma dash_runs_single (in_run : bool) (s : string) :
  adjacent_dashes (dash_runs in_run s) = false.
Proof.
  revert in_run. induction s as [| c s IH]; intros in_run; [reflexivity |].
  cbn [dash_runs]. destruct (is_slug_char c) eqn:Hc.
  - cbn [adjacent_dashes]. rewrite (slug_char_not_dash c Hc), IH.
    reflexivity.
  - destruct in_run; [apply IH |].
    cbn [adjacent_dashes]. rewrite dash_runs_first, IH. reflexivity.
Qed.

Lemma adjacent_dashes_tail (c : ascii) (s : string) :
  adjacent_dashes (String c s) = false -> adjacent_dashes s = false.
Proof. cbn. intros H. apply orb_false_iff in H as [_ H]. exact H. Qed.

Lemma adjacent_dashes_drop_while (q : ascii -> bool) (s : string) :
  adjacent_dashes s = false -> adjacent_dashes (drop_while q s) = false.
Proof.
  induction s as [| c s IH]; intros H; [reflexivity |].
  cbn [drop_while]. destruct (q c); [| exact H].
  apply IH, (adjacent_dashes_tail c), H.
Qed.

Lemma first_is_drop_while_end (p q : ascii -> bool) (s : string) :
  first_is p (drop_while_end q s) = true -> first_is p s = true.
Proof.
  destruct s as [| c s]; [intros H; exact H |].
  cbn [drop_while_end]. destruct (drop_while_end q s).
  - destruct (q c); [discriminate | intros H; exact H].
  - intros H; exact H.
Qed.

Lemma first_is_slice_to (p : ascii -> bool) (n : nat) (s : string) :
  first_is p (slice_to n s) = true -> first_is p s = true.
Proof. destruct n, s; cbn; congruence. Qed.

Lemma first_is_drop_while (p : ascii -> bool) (s : string) :
  first_is p (drop_while p s) = false.
Proof.
  induction s as [| c s IH]; [reflexivity |].
  cbn [drop_while]. destruct (p c) eqn:Hc; [exact IH | exact Hc].
Qed.

Lemma not_first_is (p : ascii -> bool) (a b : string) :
  (first_is p a = true -> first_is p b = true) ->
  first_is p b = false -> first_is p a = false.
Proof. destruct (first_is p a); intros H Hb; [rewrite H in Hb |]; auto. Qed.

Lemma adjacent_dashes_drop_while_end (q : ascii -> bool) (s : string) :
  adjacent_dashes s = false -> adjacent_dashes (drop_while_end q s) = false.
Proof.
  induction s as [| c s IH]; intros H; [reflexivity |].
  cbn [adjacent_dashes] in H. apply orb_false_iff in H as [Hc Hs].
  specialize (IH Hs). cbn [drop_while_end].
  pose proof (first_is_drop_while_end is_dash q s) as Hf.
  destruct (drop_while_end q s) as [| d r] eqn:Hr.
  - destruct (q c); cbn; [reflexivity |].
    rewrite andb_false_r. reflexivity.
  - cbn [adjacent_dashes] in *. rewrite IH, orb_false_r.
    destruct (is_dash c); [| reflexivity]. cbn [andb] in *.
    apply (not_first_is is_dash (String d r) s Hf Hc).
Qed.

Lemma adjacent_dashes_slice_to (n : nat) (s : string) :
  adjacent_dashes s = false -> adjacent_dashes (slice_to n s) = false.
Proof.
  revert s. induction n as [| n IH]; intros [| c s] H; try reflexivity.
  cbn [adjacent_dashes] in H. apply orb_false_iff in H as [Hc Hs].
  cbn [slice_to adjacent_dashes]. rewrite (IH s Hs), orb_false_r.
  destruct (is_dash c); [| reflexivity]. cbn [andb] in *.
  apply (not_first_is is_dash _ s (first_is_slice_to is_dash n s) Hc).
Qed.

Lemma length_slice_to (n : nat) (s : string) :
  (String.length (slice_to n s) <= n)%nat.
Proof.
  revert s. induction n as [| n IH]; intros [| c s]; cbn; try lia.
  specialize (IH s). lia.
Qed.

Lemma startsWith_dash (s : string) :
  startsWith s "-" = first_is is_dash s.
Proof.
  destruct s as [| c s]; [reflexivity |].
  unfold startsWith, is_dash. cbn [String.prefix first_is].
  destruct (Ascii.ascii_dec "-" c) as [<- | Hne].
  - destruct s; reflexivity.
  - symmetry. apply Ascii.eqb_neq. congruence.
Qed.

Lemma includes_two_dashes (s : string) :
  includes s "--" = adjacent_dashes s.
Proof.
  induction s as [| c s IH]; [reflexivity |].
  cbn [includes adjacent_dashes]. rewrite IH. f_equal.
  cbn [String.prefix]. unfold is_dash at 1.
  destruct (Ascii.ascii_dec "-" c) as [<- | Hne].
  - rewrite Ascii.eqb_refl. cbn [andb]. apply (startsWith_dash s).
  - symmetry. apply andb_false_iff. left. apply Ascii.eqb_neq. congruence.
Qed.

Lemma slug_of_text_shape (s : string) :
  let g := slice_to 80 (strip_dashes (dash_runs false s)) in
  all_chars (fun c => is_slug_char c || is_dash c) g = true /\
  (String.length g <= 80)%nat /\
  startsWith g "-" = false /\
  includes g "--" = false.
Proof.
  cbn zeta. unfold strip_dashes. split; [| split; [| split]].
  - apply all_chars_slice_to, all_chars_drop_while_end,
      all_chars_drop_while, dash_runs_chars.
  - apply length_slice_to.
  - rewrite startsWith_dash.
    apply (not_first_is is_dash _ _ (first_is_slice_to is_dash 80 _)).
    apply (not_first_is is_dash _ _
             (first_is_drop_while_end is_dash is_dash _)).
    apply first_is_drop_while.
  - rewrite includes_two_dashes.
    apply adjacent_dashes_slice_to, adjacent_dashes_drop_while_end,
      adjacent_dashes_drop_while, dash_runs_single.
Qed.

Lemma generateSlug_cases (name : value) (g : string) :
  generateSlug name = Some g ->
  g = "unknown" \/
  exists s, g = slice_to 80 (strip_dashes (dash_runs false s)).
Proof.
  unfold generateSlug. destruct (truthy name); cbn [negb].
  - destruct name; try discriminate. intros H. injection H as <-.
    right. eexists. reflexivity.
  - intros H. injection H as <-. left. reflexivity.
Qed.

Lemma generateSlug_shape_of (name : value) (g : string) :
  generateSlug name = Some g ->
  all_chars (fun c => is_slug_char c || is_dash c) g = true /\
  (String.length g <= 80)%nat /\
  startsWith g "-" = false /\
  includes g "--" = false.
Proof.
  intros H. apply generateSlug_cases in H as [-> | [s ->]].
  - vm_compute. repeat split; try reflexivity. lia.
  - apply slug_of_text_shape.
Qed.

(** A slug is made of [a-z], [0-9] and dashes only, is at most 80
    characters long, does not begin with a dash and has no two dashes in
    a row. *)
Theorem generateSlug_shape (name : value) (g : string) :
  generateSlug name = Some g ->
  all_chars (fun c => is_slug_char c || is_dash c) g = true /\
  (String.length g <= 80)%nat /\
  startsWith g "-" = false /\
  includes g "--" = false.
Proof. apply generateSlug_shape_of. Qed.

Lemma generateSlug_shape_witness :
  all_chars (fun c => is_slug_char c || is_dash c) "tata-capital-ltd" = true /\
  (String.length "tata-capital-ltd" <= 80)%nat /\
  startsWith "tata-capital-ltd" "-" = false /\
  includes "tata-capital-ltd" "--" = false.
Proof.
  apply (generateSlug_shape (VStr "Tata Capital Limited")).
  vm_compute. reflexivity.
Defined.

(** [generateSlug] throws exactly on the truthy values that are not
    strings: numbers other than 0 and NaN, [true] and dates. *)
Lemma generateSlug_throws (name : value) :
  generateSlug name = None <->
  truthy name = true /\ forall s, name <> VStr s.
Proof.
  unfold generateSlug. split.
  - destruct (truthy name) eqn:Ht; cbn [negb]; [| discriminate].
    destruct name; try discriminate; intros _; split; congruence.
  - intros [-> Hs]. cbn [negb].
    destruct name; try reflexivity. exfalso. apply (Hs s). reflexivity.
Qed.

(** *** Company suffixes *)

Lemma prefix_nil (s : string) : String.prefix "" s = true.
Proof. destruct s; reflexivity. Qed.

Lemma prefix_before_space (w x t : string) :
  all_chars (fun c => negb (Ascii.eqb c " ")) w = true ->
  String.prefix w (toLowerCase (x ++ String " " t))
  = String.prefix w (toLowerCase x).
Proof.
  revert x. induction w as [| d w IH]; intros x Hw.
  - rewrite !prefix_nil. reflexivity.
  - cbn [all_chars] in Hw. apply andb_true_iff in Hw as [Hd Hw].
    destruct x as [| e x].
    + rewrite append_nil. cbn [toLowerCase map_chars String.prefix].
      destruct (Ascii.ascii_dec d (lower_char " ")) as [-> | _];
        [discriminate Hd | reflexivity].
    + rewrite append_cons. cbn [toLowerCase map_chars String.prefix].
      destruct (Ascii.ascii_dec d (lower_char e)); [| reflexivity].
      apply (IH x Hw).
Qed.

Lemma length_map_chars (f : ascii -> ascii) (s : string) :
  String.length (map_chars f s) = String.length s.
Proof. induction s as [| c s IH]; cbn; congruence. Qed.

Lemma prefix_shorter (a s : string) :
  String.prefix a s = true -> (String.length a <= String.length s)%nat.
Proof.
  revert s. induction a as [| c a IH]; intros s H; [cbn; lia |].
  destruct s as [| d s]; [discriminate |].
  cbn in *. destruct (Ascii.ascii_dec c d); [| discriminate].
  apply IH in H. lia.
Qed.

Lemma word_at_before_space (n : nat) (x t : string) :
  (n <= String.length x)%nat ->
  word_at n (x ++ String " " t) = word_at n x.
Proof.
  unfold word_at. revert n.
  induction x as [| e x IH]; intros n Hn.
  - cbn in Hn. assert (n = 0%nat) as -> by lia. reflexivity.
  - rewrite append_cons. destruct n as [| n]; [reflexivity |].
    cbn [String.get]. apply IH. cbn in Hn. lia.
Qed.

Lemma append_assoc (a b c : string) : (a ++ b) ++ c = a ++ (b ++ c).
Proof.
  induction a as [| x a IH]; [rewrite !append_nil; reflexivity |].
  rewrite !append_cons, IH. reflexivity.
Qed.

(** A space ends whatever [replace_word] is doing: the text before it is
    rewritten as if it stood alone. *)
Lemma replace_word_before_space (w r t : string) :
  all_chars (fun c => negb (Ascii.eqb c " ")) w = true ->
  forall (a : string) (skip : nat) (prev : bool),
    (skip <= String.length a)%nat ->
    exists p,
      replace_word_from w r skip prev (a ++ String " " t)
      = replace_word_from w r skip prev a
          ++ replace_word_from w r 0 p (String " " t).
Proof.
  intros Hw. induction a as [| c a IH]; intros skip prev Hskip.
  - cbn in Hskip. assert (skip = 0%nat) as -> by lia.
    exists prev. rewrite !append_nil. reflexivity.
  - rewrite append_cons. destruct skip as [| k].
    + cbn [replace_word_from]. rewrite <- (append_cons c a (String " " t)).
      rewrite (prefix_before_space w (String c a) t Hw).
      destruct (String.prefix w (toLowerCase (String c a))) eqn:Hpre.
      * assert (Hlen : (String.length w <= String.length (String c a))%nat).
        { apply prefix_shorter in Hpre. unfold toLowerCase in Hpre.
          rewrite length_map_chars in Hpre. exact Hpre. }
        rewrite (word_at_before_space _ (String c a) t Hlen).
        destruct (negb prev && true && negb (word_at _ (String c a))).
        -- destruct (IH (String.length w - 1)%nat (is_word c)) as [p Hp].
           { cbn in Hlen. lia. }
           exists p. rewrite Hp, append_assoc. reflexivity.
        -- destruct (IH 0%nat (is_word c)) as [p Hp]; [lia |].
           exists p. rewrite Hp, append_cons. reflexivity.
      * rewrite andb_false_r. cbn [andb].
        destruct (IH 0%nat (is_word c)) as [p Hp]; [lia |].
        exists p. rewrite Hp, append_cons. reflexivity.
    + cbn [replace_word_from].
      apply IH. cbn in Hskip. lia.
Qed.

Lemma toLowerCase_app (a b : string) :
  toLowerCase (a ++ b) = toLowerCase a ++ toLowerCase b.
Proof.
  induction a as [| c a IH]; [rewrite !append_nil; reflexivity |].
  rewrite append_cons. cbn [toLowerCase map_chars].
  fold (toLowerCase (a ++ b)). rewrite IH, append_cons. reflexivity.
Qed.

(** The two spellings of a company's legal form give the same slug:
    an issuer named "... Private Limited" and the same issuer named
    "... Pvt Ltd" get one identifier. *)
Theorem generateSlug_company_suffix (s : string) :
  generateSlug (VStr (s ++ " Private Limited"))
  = generateSlug (VStr (s ++ " Pvt Ltd")).
Proof.
  unfold generateSlug.
  assert (Ht : forall t, truthy (VStr (s ++ String " " t)) = true)
    by (intros t; destruct s; reflexivity).
  rewrite !Ht. cbn [negb]. do 4 f_equal.
  rewrite !toLowerCase_app.
  change (toLowerCase " Private Limited") with " private limited".
  change (toLowerCase " Pvt Ltd") with " pvt ltd".
  unfold replace_word.
  destruct (replace_word_before_space "limited" "ltd" "private limited"
              eq_refl (toLowerCase s) 0 false) as [p1 H1]; [lia |].
  destruct (replace_word_before_space "limited" "ltd" "pvt ltd"
              eq_refl (toLowerCase s) 0 false) as [p2 H2]; [lia |].
  rewrite H1, H2.
  set (a := replace_word_from "limited" "ltd" 0 false (toLowerCase s)).
  assert (E1 : replace_word_from "limited" "ltd" 0 p1 " private limited"
               = " private ltd") by (destruct p1; reflexivity).
  assert (E2 : replace_word_from "limited" "ltd" 0 p2 " pvt ltd"
               = " pvt ltd") by (destruct p2; reflexivity).
  rewrite E1, E2.
  destruct (replace_word_before_space "private" "pvt" "private ltd"
              eq_refl a 0 false) as [q1 G1]; [lia |].
  destruct (replace_word_before_space "private" "pvt" "pvt ltd"
              eq_refl a 0 false) as [q2 G2]; [lia |].
  rewrite G1, G2.
  assert (F1 : replace_word_from "private" "pvt" 0 q1 " private ltd"
               = " pvt ltd") by (destruct q1; reflexivity).
  assert (F2 : replace_word_from "private" "pvt" 0 q2 " pvt ltd"
               = " pvt ltd") by (destruct q2; reflexivity).
  rewrite F1, F2. reflexivity.
Qed.

(** *** The set of restructured ISINs *)

Lemma upper_of_pick_throws (raw : gmap string value) (keys : list string) :
  call_toUpperCase (or_else (pick raw keys) (VStr "")) = None <->
  truthy (pick raw keys) = true /\ forall s, pick raw keys <> VStr s.
Proof.
  unfold or_else. split.
  - destruct (truthy (pick raw keys)) eqn:Ht; [| discriminate].
    destruct (pick raw keys); try discriminate; intros _; split; congruence.
  - intros [-> Hs]. destruct (pick raw keys); try reflexivity.
    exfalso. apply (Hs s). reflexivity.
Qed.

Lemma restructured_set_from (rawArray : list (gmap string value)) :
  forall (set0 set : gset string),
    extractRestructuredSet_from set0 rawArray = Some set ->
    forall isin,
      isin ∈ set <->
      isin ∈ set0 \/
      exists record s,
        In record rawArray /\ pick record ["isin"; "ISIN"] = VStr s /\
        s <> "" /\ isin = toUpperCase s.
Proof.
  induction rawArray as [| record rest IH]; intros set0 set H isin.
  - cbn in H. injection H as <-. split; [auto |].
    intros [H | (r & s & [] & _)]. exact H.
  - cbn [extractRestructuredSet_from] in H.
    destruct (call_toUpperCase _) as [i |] eqn:Hi; [| discriminate].
    cbn [mbind option_bind] in H.
    pose proof (upper_of_pick record ["isin"; "ISIN"] i) as Hup.
    destruct (String.eqb_spec i "") as [-> | Hne]; cbn [negb] in H.
    + rewrite (IH _ _ H isin). split.
      * intros [Hin | (r & s & Hr & Hrest)]; [left; exact Hin |].
        right. exists r, s. split; [right; exact Hr | exact Hrest].
      * intros [Hin | (r & s & [<- | Hr] & Hp & Hs & Heq)];
          [left; exact Hin | | right; exists r, s; auto].
        exfalso.
        destruct (proj2 (upper_of_pick record ["isin"; "ISIN"]
                           (toUpperCase s))) as [Hi' Hne'];
          [exists s; auto |].
        rewrite Hi in Hi'. injection Hi' as Hi'. apply Hne'.
        symmetry. exact Hi'.
    + rewrite (IH _ _ H isin). rewrite elem_of_union, elem_of_singleton.
      split.
      * intros [[-> | Hin] | (r & s & Hr & Hrest)].
        -- right. destruct (proj1 Hup (conj Hi Hne)) as (s & Hs & Hsne & Heq).
           exists record, s. split; [left; reflexivity | auto].
        -- left. exact Hin.
        -- right. exists r, s. split; [right; exact Hr | exact Hrest].
      * intros [Hin | (r & s & [<- | Hr] & Hp & Hs & Heq)].
        -- left. right. exact Hin.
        -- left. left.
           destruct (proj2 (upper_of_pick record ["isin"; "ISIN"] isin))
             as [Hi' _]; [exists s; auto |].
           rewrite Hi in Hi'. injection Hi' as ->. reflexivity.
        -- right. exists r, s. auto.
Qed.

(** The restructured set holds exactly the upper-cased ISIN texts of the
    records that have one; it never holds the empty string. *)
Theorem restructured_set_members
    (rawArray : list (gmap string value)) (set : gset string)
    (isin : string) :
  extractRestructuredSet rawArray = Some set ->
  (isin ∈ set <->
   exists record s,
     In record rawArray /\ pick record ["isin"; "ISIN"] = VStr s /\
     s <> "" /\ isin = toUpperCase s) /\
  "" ∉ set.
Proof.
  intros H. pose proof (restructured_set_from rawArray ∅ set H) as Hm.
  split.
  - rewrite Hm. split; [intros [Hin | Hex] | intros Hex; right; exact Hex].
    + apply elem_of_empty in Hin. destruct Hin.
    + exact Hex.
  - intros Hin. apply Hm in Hin as [Hin | (r & s & _ & _ & Hs & Heq)].
    + apply elem_of_empty in Hin. destruct Hin.
    + apply Hs, (proj1 (toUpperCase_empty s)). symmetry. exact Heq.
Qed.

Lemma restructured_set_members_witness :
  ("INE002A07809" ∈ ({[ "INE002A07809" ]} : gset string) <->
   exists record s,
     In record Samples.rate_rows /\ pick record ["isin"; "ISIN"] = VStr s /\
     s <> "" /\ "INE002A07809" = toUpperCase s) /\
  "" ∉ ({[ "INE002A07809" ]} : gset string).
Proof.
  apply (restructured_set_members Samples.rate_rows).
  vm_compute. reflexivity.
Defined.

Lemma restructured_set_from_none (rawArray : list (gmap string value)) :
  forall set0,
    extractRestructuredSet_from set0 rawArray = None <->
    exists record,
      In record rawArray /\
      call_toUpperCase (or_else (pick record ["isin"; "ISIN"]) (VStr ""))
      = None.
Proof.
  induction rawArray as [| record rest IH]; intros set0.
  - cbn. split; [discriminate | intros (r & [] & _)].
  - cbn [extractRestructuredSet_from].
    destruct (call_toUpperCase _) as [i |] eqn:Hi; cbn [mbind option_bind].
    + assert (Hrest : forall set1,
                 extractRestructuredSet_from set1 rest = None <->
                 exists r,
                   In r (record :: rest) /\
                   call_toUpperCase
                     (or_else (pick r ["isin"; "ISIN"]) (VStr "")) = None).
      { intros set1. rewrite IH. split.
        - intros (r & Hr & Hn). exists r. split; [right; exact Hr | exact Hn].
        - intros (r & [<- | Hr] & Hn); [congruence |]. exists r. auto. }
      destruct (negb (String.eqb i "")); apply Hrest.
    + split; [| reflexivity]. intros _. exists record.
      split; [left; reflexivity | exact Hi].
Qed.

(** One record whose ISIN field is a truthy value that is not a string (a
    number, [true], a date) makes [extractRestructuredSet] throw, and
    nothing else does: the whole response is lost to one bad record. *)
Theorem restructured_set_throws (rawArray : list (gmap string value)) :
  extractRestructuredSet rawArray = None <->
  exists record,
    In record rawArray /\
    truthy (pick record ["isin"; "ISIN"]) = true /\
    forall s, pick record ["isin"; "ISIN"] <> VStr s.
Proof.
  unfold extractRestructuredSet. rewrite restructured_set_from_none.
  split; intros (r & Hr & H); exists r; (split; [exact Hr |]);
    apply upper_of_pick_throws; exact H.
Qed.

(** [extractRestructuredSet] in full: the set it returns holds exactly
    the upper-cased ISIN texts of the records that have one, and never
    the empty string; it throws, losing the whole response, exactly when
    some record's ISIN is a truthy value that is not a string. *)
Theorem extractRestructuredSet_spec (rawArray : list (gmap string value)) :
  match extractRestructuredSet rawArray with
  | Some set =>
      ("" ∉ set) /\
      forall isin,
        isin ∈ set <->
        exists record s,
          In record rawArray /\ pick record ["isin"; "ISIN"] = VStr s /\
          s <> "" /\ isin = toUpperCase s
  | None =>
      exists record,
        In record rawArray /\
        truthy (pick record ["isin"; "ISIN"]) = true /\
        forall s, pick record ["isin"; "ISIN"] <> VStr s
  end.
Proof.
  destruct (extractRestructuredSet rawArray) as [set |] eqn:H.
  - split.
    + apply (restructured_set_members rawArray set "" H).
    + intros isin. apply (restructured_set_members rawArray set isin H).
  - apply restructured_set_throws, H.
Qed.

(** *** The interest rate map *)

Section Rates.
Variable Number_toString : number -> string.
Variable Date_toString : option Z -> string.
Variable parseFloat_text : string -> number.

Local Abbreviation parseFloat :=
  (Transformers.parseFloat Number_toString Date_toString parseFloat_text).
Local Abbreviation extractInterestRateMap_from :=
  (Transformers.extractInterestRateMap_from
     Number_toString Date_toString parseFloat_text).
Local Abbreviation extractInterestRateMap :=
  (Transformers.extractInterestRateMap
     Number_toString Date_toString parseFloat_text).

Lemma interest_rate_map_from (rawArray : list (gmap string value)) :
  forall map0 map isin entry,
    extractInterestRateMap_from map0 rawArray = Some map ->
    map !! isin = Some entry ->
    map0 !! isin = Some entry \/
    exists record s,
      In record rawArray /\
      pick record ["isin"; "ISIN"] = VStr s /\ s <> "" /\
      isin = toUpperCase s /\
      entry =
      {[ "interestRateCategory" :=
           or_else (pick record ["interestRateRange"; "rateRange";
                                 "bucket"; "rate_range"; "category"])
                   VNull;
         "couponRate" :=
           let rate :=
             parseFloat
               (or_else (pick record ["interestRate"; "couponRate";
                                      "rate"]) (VNum num_zero)) in
           if isNaN rate then VUndefined else VNum rate ]}.
Proof.
  induction rawArray as [| record rest IH]; intros map0 map isin entry H Hl.
  - cbn in H. injection H as <-. left. exact Hl.
  - cbn [Transformers.extractInterestRateMap_from] in H.
    destruct (call_toUpperCase _) as [i |] eqn:Hi; [| discriminate].
    cbn [mbind option_bind] in H.
    destruct (String.eqb_spec i "") as [-> | Hne].
    + destruct (IH _ _ _ _ H Hl) as [H0 | (r & s & Hr & Hrest)];
        [left; exact H0 |].
      right. exists r, s. split; [right; exact Hr | exact Hrest].
    + destruct (IH _ _ _ _ H Hl) as [H0 | (r & s & Hr & Hrest)].
      * apply lookup_insert_Some in H0 as [[<- <-] | [_ H0]];
          [| left; exact H0].
        right.
        destruct (proj1 (upper_of_pick record ["isin"; "ISIN"] i)
                    (conj Hi Hne)) as (s & Hs & Hsne & Heq).
        exists record, s.
        split; [left; reflexivity |]. auto.
      * right. exists r, s. split; [right; exact Hr | exact Hrest].
Qed.

(** Every entry of the interest rate map sits under a non-empty
    upper-case ISIN and is taken whole from one record with that ISIN;
    its coupon rate is a number that is not NaN, or undefined. *)
Theorem interest_rate_map_entries
    (rawArray : list (gmap string value))
    (map : gmap string (gmap string value))
    (isin : string) (entry : gmap string value) :
  extractInterestRateMap rawArray = Some map ->
  map !! isin = Some entry ->
  isin <> "" /\
  all_chars (fun c => negb (is_lower c)) isin = true /\
  (exists record s,
      In record rawArray /\
      pick record ["isin"; "ISIN"] = VStr s /\ isin = toUpperCase s /\
      entry !! "interestRateCategory"
      = Some (or_else (pick record ["interestRateRange"; "rateRange";
                                    "bucket"; "rate_range"; "category"])
                      VNull)) /\
  (entry !! "couponRate" = Some VUndefined \/
   exists x, entry !! "couponRate" = Some (VNum x) /\ isNaN x = false).
Proof.
  intros H Hl.
  destruct (interest_rate_map_from rawArray ∅ map isin entry H Hl)
    as [H0 | (r & s & Hr & Hs & Hne & -> & ->)].
  { rewrite lookup_empty in H0. discriminate. }
  split; [rewrite toUpperCase_empty; exact Hne |].
  split; [apply toUpperCase_not_lower |]. split.
  - exists r, s. split; [exact Hr |]. split; [exact Hs |].
    split; [reflexivity |]. apply lookup_insert_eq.
  - rewrite lookup_insert_ne by discriminate.
    rewrite lookup_singleton_eq.
    cbn zeta. destruct (isNaN _) eqn:Hn; [left; reflexivity |].
    right. eexists. split; [reflexivity | exact Hn].
Qed.

End Rates.

Lemma interest_rate_map_entries_witness :
  "INE002A07809" <> "" /\
  all_chars (fun c => negb (is_lower c)) "INE002A07809" = true /\
  (exists record s,
      In record Samples.rate_rows /\
      pick record ["isin"; "ISIN"] = VStr s /\
      "INE002A07809" = toUpperCase s /\
      ({[ "interestRateCategory" := VNull;
          "couponRate" := VNum num_zero ]} : gmap string value)
        !! "interestRateCategory"
      = Some (or_else (pick record ["interestRateRange"; "rateRange";
                                    "bucket"; "rate_range"; "category"])
                      VNull)) /\
  (({[ "interestRateCategory" := VNull;
       "couponRate" := VNum num_zero ]} : gmap string value)
     !! "couponRate" = Some VUndefined \/
   exists x,
     ({[ "interestRateCategory" := VNull;
         "couponRate" := VNum num_zero ]} : gmap string value)
       !! "couponRate" = Some (VNum x) /\ isNaN x = false).
Proof.
  apply (interest_rate_map_entries
           (fun _ => "0") (fun _ => "") (fun _ => num_zero)
           Samples.rate_rows Samples.rate_map).
  - vm_compute. reflexivity.
  - vm_compute. reflexivity.
Defined.

Lemma credit_rating_map_entries_witness :
  "INE002A07809" <> "" /\
  all_chars (fun c => negb (is_lower c)) "INE002A07809" = true /\
  (exists rating,
      ({[ "creditRating" := VStr "CRISILAAASTABLE";
          "ratingAgency" := VStr "CRISIL" ]} : gmap string value)
        !! "creditRating" = Some (VStr rating) /\ rating <> "" /\
      Transformers.normalizeRating (fun _ => "0") (fun _ => "")
                                   (VStr rating) = VStr rating) /\
  (exists agency,
      ({[ "creditRating" := VStr "CRISILAAASTABLE";
          "ratingAgency" := VStr "CRISIL" ]} : gmap string value)
        !! "ratingAgency" = Some agency /\
      (agency = VNull \/ truthy agency = true)).
Proof.
  apply (credit_rating_map_entries
           (fun _ => "0") (fun _ => "") Samples.rating_rows
           {[ "INE002A07809" :=
                {[ "creditRating" := VStr "CRISILAAASTABLE";
                   "ratingAgency" := VStr "CRISIL" ]} ]}).
  - vm_compute. reflexivity.
  - vm_compute. reflexivity.
Defined.

(** *** The issuer maps *)

Lemma or_else_null_truthy (v : value) :
  truthy (or_else v VNull) = true ->
  or_else v VNull = v /\ is_empty v = false /\ truthy v = true.
Proof.
  unfold or_else. destruct (truthy v) eqn:Ht; [| discriminate].
  intros _. split; [reflexivity |]. split; [| reflexivity].
  destruct v as [| | | | s |]; try reflexivity; try discriminate.
  cbn in *. destruct (String.eqb s ""); [discriminate | reflexivity].
Qed.

Lemma or_else_text_truthy (v : value) :
  truthy (or_else v (VStr "")) = true ->
  or_else v (VStr "") = v /\ truthy v = true.
Proof.
  unfold or_else. destruct (truthy v) eqn:Ht; [auto | discriminate].
Qed.

Lemma issuer_type_map_from (rawArray : list (gmap string value)) :
  forall map0 map key entry,
    extractIssuerTypeMap_from map0 rawArray = Some map ->
    map !! key = Some entry ->
    map0 !! key = Some entry \/
    exists record type,
      In record rawArray /\
      pick record ["issuerType"; "issuer_type"; "ownerType"; "category"]
      = type /\
      is_empty type = false /\ truthy type = true /\
      entry = {[ "issuerType" := type ]} /\
      ((exists s, pick record ["isin"; "ISIN"] = VStr s /\ s <> "" /\
                  key = toUpperCase s) \/
       (exists name,
           pick record ["issuerName"; "companyName"; "name"; "issuer_name"]
           = name /\ truthy name = true /\ generateSlug name = Some key)).
Proof.
  induction rawArray as [| record rest IH]; intros map0 map key entry H Hl.
  - cbn in H. injection H as <-. left. exact Hl.
  - cbn [extractIssuerTypeMap_from] in H.
    destruct (call_toUpperCase _) as [i |] eqn:Hi; [| discriminate].
    cbn [mbind option_bind] in H.
    set (type := pick record ["issuerType"; "issuer_type"; "ownerType";
                              "category"]) in *.
    set (name := pick record ["issuerName"; "companyName"; "name";
                              "issuer_name"]) in *.
    assert (Hfirst :
              forall e,
                (if negb (String.eqb i "") && truthy (or_else type VNull)
                 then <[i := {[ "issuerType" := or_else type VNull ]}]> map0
                 else map0) !! key = Some e ->
                map0 !! key = Some e \/
                exists record0 type0,
                  In record0 (record :: rest) /\
                  pick record0 ["issuerType"; "issuer_type"; "ownerType";
                                "category"] = type0 /\
                  is_empty type0 = false /\ truthy type0 = true /\
                  e = {[ "issuerType" := type0 ]} /\
                  ((exists s, pick record0 ["isin"; "ISIN"] = VStr s /\
                              s <> "" /\ key = toUpperCase s) \/
                   (exists name0,
                       pick record0 ["issuerName"; "companyName"; "name";
                                     "issuer_name"] = name0 /\
                       truthy name0 = true /\
                       generateSlug name0 = Some key))).
    { intros e He.
      destruct (String.eqb_spec i "") as [| Hne]; cbn [negb andb] in He;
        [left; exact He |].
      destruct (truthy (or_else type VNull)) eqn:Ht; [| left; exact He].
      apply lookup_insert_Some in He as [[<- <-] | [_ He]];
        [| left; exact He].
      right. destruct (or_else_null_truthy type Ht) as (-> & Hemp & Htr).
      exists record, type. split; [left; reflexivity |].
      split; [reflexivity |]. split; [exact Hemp |]. split; [exact Htr |].
      split; [reflexivity |]. left.
      destruct (proj1 (upper_of_pick record ["isin"; "ISIN"] i)
                  (conj Hi Hne)) as (s & Hs & Hsne & Heq).
      exists s. auto. }
    assert (Hrest :
              forall m1,
                extractIssuerTypeMap_from m1 rest = Some map ->
                m1 !! key = Some entry \/
                exists record0 type0,
                  In record0 (record :: rest) /\
                  pick record0 ["issuerType"; "issuer_type"; "ownerType";
                                "category"] = type0 /\
                  is_empty type0 = false /\ truthy type0 = true /\
                  entry = {[ "issuerType" := type0 ]} /\
                  ((exists s, pick record0 ["isin"; "ISIN"] = VStr s /\
                              s <> "" /\ key = toUpperCase s) \/
                   (exists name0,
                       pick record0 ["issuerName"; "companyName"; "name";
                                     "issuer_name"] = name0 /\
                       truthy name0 = true /\
                       generateSlug name0 = Some key))).
    { intros m1 H1.
      destruct (IH _ _ _ _ H1 Hl) as [H0 | (r & t & Hr & Hrest)];
        [left; exact H0 |].
      right. exists r, t. split; [right; exact Hr | exact Hrest]. }
    destruct (truthy (or_else name (VStr ""))) eqn:Hn; cbn [andb] in H.
    + destruct (truthy (or_else type VNull)) eqn:Ht.
      * destruct (generateSlug _) as [slug |] eqn:Hslug; [| discriminate].
        cbn [mbind option_bind] in H.
        destruct (Hrest _ H) as [H1 | Hex]; [| right; exact Hex].
        apply lookup_insert_Some in H1 as [[<- <-] | [_ H1]].
        -- right. destruct (or_else_null_truthy type Ht) as (-> & Hemp & Htr).
           destruct (or_else_text_truthy name Hn) as (Hnm & Hnt).
           rewrite Hnm in Hslug.
           exists record, type. split; [left; reflexivity |].
           split; [reflexivity |]. split; [exact Hemp |].
           split; [exact Htr |]. split; [reflexivity |]. right.
           exists name. auto.
        -- apply Hfirst. exact H1.
      * destruct (Hrest _ H) as [H1 | Hex]; [| right; exact Hex].
        apply Hfirst. exact H1.
    + destruct (Hrest _ H) as [H1 | Hex]; [| right; exact Hex].
      apply Hfirst. exact H1.
Qed.

(** Every entry of the issuer type map holds a non-empty issuer type and
    nothing else, and sits under the upper-cased ISIN or the slug of the
    record it comes from: a record without a type leaves no entry. *)
Theorem issuer_type_map_entries
    (rawArray : list (gmap string value))
    (map : gmap string (gmap string value))
    (key : string) (entry : gmap string value) :
  extractIssuerTypeMap rawArray = Some map ->
  map !! key = Some entry ->
  exists record type,
    In record rawArray /\
    pick record ["issuerType"; "issuer_type"; "ownerType"; "category"]
    = type /\
    is_empty type = false /\ truthy type = true /\
    entry = {[ "issuerType" := type ]} /\
    ((exists s, pick record ["isin"; "ISIN"] = VStr s /\ s <> "" /\
                key = toUpperCase s) \/
     (exists name,
         pick record ["issuerName"; "companyName"; "name"; "issuer_name"]
         = name /\ truthy name = true /\ generateSlug name = Some key)).
Proof.
  intros H Hl.
  destruct (issuer_type_map_from rawArray ∅ map key entry H Hl)
    as [H0 | Hex]; [| exact Hex].
  rewrite lookup_empty in H0. discriminate.
Qed.

Lemma issuer_type_map_entries_witness :
  exists record type,
    In record Samples.issuer_type_rows /\
    pick record ["issuerType"; "issuer_type"; "ownerType"; "category"]
    = type /\
    is_empty type = false /\ truthy type = true /\
    ({[ "issuerType" := VStr "NBFC" ]} : gmap string value)
    = {[ "issuerType" := type ]} /\
    ((exists s, pick record ["isin"; "ISIN"] = VStr s /\ s <> "" /\
                "tata-capital-ltd" = toUpperCase s) \/
     (exists name,
         pick record ["issuerName"; "companyName"; "name"; "issuer_name"]
         = name /\ truthy name = true /\
         generateSlug name = Some "tata-capital-ltd")).
Proof.
  apply (issuer_type_map_entries
           Samples.issuer_type_rows
           {[ "tata-capital-ltd" := {[ "issuerType" := VStr "NBFC" ]} ]}).
  - vm_compute. reflexivity.
  - vm_compute. reflexivity.
Defined.

Section Issuers.
Variable Number_toString : number -> string.
Variable Date_toString : option Z -> string.
Variable parseInt_text : string -> number.

Local Abbreviation extractIssuerWiseMap_from :=
  (Transformers.extractIssuerWiseMap_from
     Number_toString Date_toString parseInt_text).
Local Abbreviation extractIssuerWiseMap :=
  (Transformers.extractIssuerWiseMap
     Number_toString Date_toString parseInt_text).

Lemma issuer_wise_map_from (rawArray : list (gmap string value)) :
  forall map0 map slug entry,
    extractIssuerWiseMap_from map0 rawArray = Some map ->
    map !! slug = Some entry ->
    map0 !! slug = Some entry \/
    slug <> "" /\ slug <> "unknown" /\
    exists record name,
      In record rawArray /\
      pick record ["issuerName"; "companyName"; "name"; "issuer_name"]
      = VStr name /\
      generateSlug (VStr name) = Some slug /\
      entry !! "name" = Some (VStr name).
Proof.
  induction rawArray as [| record rest IH]; intros map0 map slug entry H Hl.
  - cbn in H. injection H as <-. left. exact Hl.
  - cbn [Transformers.extractIssuerWiseMap_from] in H.
    destruct (generateSlug _) as [g |] eqn:Hg; [| discriminate].
    cbn [mbind option_bind] in H.
    assert (Hrest :
              forall m1,
                extractIssuerWiseMap_from m1 rest = Some map ->
                m1 !! slug = Some entry \/
                slug <> "" /\ slug <> "unknown" /\
                exists record0 name,
                  In record0 (record :: rest) /\
                  pick record0 ["issuerName"; "companyName"; "name";
                                "issuer_name"] = VStr name /\
                  generateSlug (VStr name) = Some slug /\
                  entry !! "name" = Some (VStr name)).
    { intros m1 H1.
      destruct (IH _ _ _ _ H1 Hl) as [H0 | (Hs1 & Hs2 & r & n & Hr & Hrest)];
        [left; exact H0 |].
      right. split; [exact Hs1 |]. split; [exact Hs2 |].
      exists r, n. split; [right; exact Hr | exact Hrest]. }
    destruct (String.eqb_spec g "") as [| Hne]; cbn [orb] in H;
      [apply Hrest, H |].
    destruct (String.eqb_spec g "unknown") as [| Hunk];
      [apply Hrest, H |].
    destruct (Hrest _ H) as [H1 | Hex]; [| right; exact Hex].
    apply lookup_insert_Some in H1 as [[<- <-] | [_ H1]];
      [| left; exact H1].
    right. split; [exact Hne |]. split; [exact Hunk |].
    remember (pick record ["issuerName"; "companyName"; "name";
                           "issuer_name"]) as picked eqn:Hp.
    unfold or_else in *. destruct (truthy picked) eqn:Ht.
    + pose proof Hg as Hg'. unfold generateSlug in Hg'.
      rewrite Ht in Hg'. cbn [negb] in Hg'.
      destruct picked as [| | | | name |]; try discriminate Hg'.
      exists record, name. split; [left; reflexivity |].
      split; [symmetry; exact Hp |]. split; [exact Hg |].
      apply lookup_insert_eq.
    + cbn in Hg. injection Hg as <-. contradiction.
Qed.

(** Every entry of the issuer-wise map sits under the slug of the name
    it records; that slug is neither empty nor [unknown], so a record
    without a usable name leaves no entry. *)
Theorem issuer_wise_map_entries
    (rawArray : list (gmap string value))
    (map : gmap string (gmap string value))
    (slug : string) (entry : gmap string value) :
  extractIssuerWiseMap rawArray = Some map ->
  map !! slug = Some entry ->
  slug <> "" /\ slug <> "unknown" /\
  exists record name,
    In record rawArray /\
    pick record ["issuerName"; "companyName"; "name"; "issuer_name"]
    = VStr name /\
    generateSlug (VStr name) = Some slug /\
    entry !! "name" = Some (VStr name).
Proof.
  intros H Hl.
  destruct (issuer_wise_map_from rawArray ∅ map slug entry H Hl)
    as [H0 | Hex]; [| exact Hex].
  rewrite lookup_empty in H0. discriminate.
Qed.

End Issuers.

Lemma issuer_wise_map_entries_witness :
  "tata-capital-ltd" <> "" /\ "tata-capital-ltd" <> "unknown" /\
  exists record name,
    In record Samples.issuer_rows /\
    pick record ["issuerName"; "companyName"; "name"; "issuer_name"]
    = VStr name /\
    generateSlug (VStr name) = Some "tata-capital-ltd" /\
    ({[ "name" := VStr "Tata Capital Limited";
        "sector" := VStr "NBFC";
        "issuerType" := VNull;
        "totalBonds" := VNum num_zero ]} : gmap string value) !! "name"
    = Some (VStr name).
Proof.
  apply (issuer_wise_map_entries
           (fun _ => "0") (fun _ => "") (fun _ => num_zero)
           Samples.issuer_rows
           {[ "tata-capital-ltd" :=
                {[ "name" := VStr "Tata Capital Limited";
                   "sector" := VStr "NBFC";
                   "issuerType" := VNull;
                   "totalBonds" := VNum num_zero ]} ]}).
  - vm_compute. reflexivity.
  - vm_compute. reflexivity.
Defined.

(** *** The primary transformer *)

Section Primary.
Variable Number_toString : number -> string.
Variable Date_toString : option Z -> string.
Variable parseFloat_text : string -> number.
Variable Date_parse_other : string -> option Z.
Context {W : Type}.
Variable Date_now : W -> Z * W.

Local Abbreviation transformListedSecurity :=
  (Transformers.transformListedSecurity
     Number_toString Date_toString parseFloat_text Date_parse_other
     Date_now).
Local Abbreviation normalizeRating :=
  (Transformers.normalizeRating Number_toString Date_toString).

Lemma generateSlug_of_name (v : value) (g : string) :
  generateSlug (or_else v (VStr "")) = Some g ->
  generateSlug
    (VStr (ToString Number_toString Date_toString (or_else v (VStr ""))))
  = Some g.
Proof.
  unfold or_else. destruct (truthy v) eqn:Ht; [| intros H; exact H].
  unfold generateSlug. rewrite Ht. cbn [negb].
  destruct v; try discriminate. cbn [ToString]. rewrite Ht.
  intros H; exact H.
Qed.

Lemma number_or_null_cases (x : number) :
  number_or_null x = VNull \/ truthy (number_or_null x) = true.
Proof.
  unfold number_or_null. destruct (truthy (VNum x)) eqn:Ht;
    [right; exact Ht | left; reflexivity].
Qed.

(** What [transformListedSecurity] promises of every bond it returns,
    whatever the raw record: the ISIN is in upper case, the issuer's
    id is the slug of the issuer's name, the coupon rate is a number
    (never NaN), the rating is normalized and the same in its three
    places, and the rating history has one entry at most. *)
Theorem transformListedSecurity_output (raw : gmap string value)
    (activeStatus : string) (w w' : W) (b : bond) :
  transformListedSecurity raw activeStatus w = Some (b, w') ->
  all_chars (fun c => negb (is_lower c)) (isin b) = true /\
  generateSlug (VStr (name (issuer b))) = Some (id (issuer b)) /\
  isNaN (couponRate b) = false /\
  latestRating (issuer b) = creditRating b /\
  normalizeRating (creditRating b) = creditRating b /\
  (ratingHistory b = [] \/
   exists entry, ratingHistory b = [entry] /\
                 rating_value entry = creditRating b) /\
  (faceValue b = VNull \/ truthy (faceValue b) = true) /\
  isRestructured b = false /\
  apiResponseRaw b = raw.
Proof.
  unfold Transformers.transformListedSecurity.
  destruct (generateSlug _) as [issuerId |] eqn:Hslug; [| discriminate].
  cbn [mbind option_bind].
  destruct (call_toUpperCase _) as [i |] eqn:Hisin; [| discriminate].
  cbn [mbind option_bind].
  assert (Hup : all_chars (fun c => negb (is_lower c)) i = true).
  { destruct (or_else (pick raw ["ISIN"; "isin"]) (VStr ""));
      try discriminate Hisin.
    cbn in Hisin. injection Hisin as <-. apply toUpperCase_not_lower. }
  destruct (truthy (pick raw ["Credit Rating"; "creditRating"; "rating";
                              "credit_rating"])).
  - destruct (Date_now w) as [t1 w1]. destruct (Date_now w1) as [t2 w2].
    cbv beta iota zeta. intros H. injection H as <- <-.
    cbn [isin issuer name id couponRate latestRating creditRating
         ratingHistory faceValue isRestructured apiResponseRaw].
    split; [exact Hup |].
    split; [apply generateSlug_of_name, Hslug |].
    split; [destruct (parseFloat _ _ _ _); reflexivity |].
    split; [reflexivity |].
    split; [apply normalizeRating_twice |].
    split; [right; eexists; split; reflexivity |].
    split; [apply number_or_null_cases |].
    split; reflexivity.
  - destruct (Date_now w) as [t2 w2].
    cbv beta iota zeta. intros H. injection H as <- <-.
    cbn [isin issuer name id couponRate latestRating creditRating
         ratingHistory faceValue isRestructured apiResponseRaw].
    split; [exact Hup |].
    split; [apply generateSlug_of_name, Hslug |].
    split; [destruct (parseFloat _ _ _ _); reflexivity |].
    split; [reflexivity |].
    split; [apply normalizeRating_twice |].
    split; [left; reflexivity |].
    split; [apply number_or_null_cases |].
    split; reflexivity.
Qed.

(** [transformListedSecurity] throws on a record whose issuer name or
    ISIN is a truthy value that is not a string, and on no other. *)
Theorem transformListedSecurity_throws (raw : gmap string value)
    (activeStatus : string) (w : W) :
  transformListedSecurity raw activeStatus w = None <->
  (truthy (pick raw ["Name of Issuer"; "issuerName"; "companyName";
                     "issuer_name"; "company_name"]) = true /\
   forall s, pick raw ["Name of Issuer"; "issuerName"; "companyName";
                       "issuer_name"; "company_name"] <> VStr s) \/
  (truthy (pick raw ["ISIN"; "isin"]) = true /\
   forall s, pick raw ["ISIN"; "isin"] <> VStr s).
Proof.
  unfold Transformers.transformListedSecurity.
  pose proof (upper_of_pick_throws raw ["ISIN"; "isin"]) as Hisin.
  assert (Hname :
            generateSlug
              (or_else (pick raw ["Name of Issuer"; "issuerName";
                                  "companyName"; "issuer_name";
                                  "company_name"]) (VStr "")) = None <->
            truthy (pick raw ["Name of Issuer"; "issuerName";
                              "companyName"; "issuer_name";
                              "company_name"]) = true /\
            forall s, pick raw ["Name of Issuer"; "issuerName";
                                "companyName"; "issuer_name";
                                "company_name"] <> VStr s).
  { generalize (pick raw ["Name of Issuer"; "issuerName"; "companyName";
                          "issuer_name"; "company_name"]).
    intros v. rewrite generateSlug_throws. unfold or_else.
    destruct (truthy v) eqn:Ht.
    - rewrite Ht. reflexivity.
    - cbn. split; intros [H _]; discriminate H. }
  destruct (generateSlug _) as [issuerId |]; cbn [mbind option_bind].
  - destruct (call_toUpperCase _) as [i |]; cbn [mbind option_bind].
    + split.
      * destruct (truthy (pick raw ["Credit Rating"; _; _; _]));
          repeat destruct (Date_now _); discriminate.
      * intros [H | H]; [apply Hname in H | apply Hisin in H];
          discriminate H.
    + split; [intros _; right; apply Hisin; reflexivity | reflexivity].
  - split; [intros _; left; apply Hname; reflexivity | reflexivity].
Qed.

(** [transformListedSecurity] in full.  Of every bond it returns,
    whatever the raw record: the ISIN is in upper case, the issuer's
    id is the slug of the issuer's name, the coupon rate is a number
    (never NaN), the rating is normalized and the same in its three
    places, the rating history has one entry at most, and the raw
    record is kept.  It throws exactly on a record whose issuer name or
    ISIN is a truthy value that is not a string. *)
Theorem transformListedSecurity_spec (raw : gmap string value)
    (activeStatus : string) (w : W) :
  match transformListedSecurity raw activeStatus w with
  | Some (b, _) =>
      all_chars (fun c => negb (is_lower c)) (isin b) = true /\
      generateSlug (VStr (name (issuer b))) = Some (id (issuer b)) /\
      isNaN (couponRate b) = false /\
      latestRating (issuer b) = creditRating b /\
      normalizeRating (creditRating b) = creditRating b /\
      (ratingHistory b = [] \/
       exists entry, ratingHistory b = [entry] /\
                     rating_value entry = creditRating b) /\
      (faceValue b = VNull \/ truthy (faceValue b) = true) /\
      isRestructured b = false /\
      apiResponseRaw b = raw
  | None =>
      (truthy (pick raw ["Name of Issuer"; "issuerName"; "companyName";
                         "issuer_name"; "company_name"]) = true /\
       forall s, pick raw ["Name of Issuer"; "issuerName"; "companyName";
                           "issuer_name"; "company_name"] <> VStr s) \/
      (truthy (pick raw ["ISIN"; "isin"]) = true /\
       forall s, pick raw ["ISIN"; "isin"] <> VStr s)
  end.
Proof.
  destruct (transformListedSecurity raw activeStatus w) as [[b w'] |]
    eqn:H.
  - apply (transformListedSecurity_output raw activeStatus w w' b H).
  - apply (transformListedSecurity_throws raw activeStatus w), H.
Qed.

End Primary.

Lemma transformListedSecurity_output_witness :
  let b :=
    fst (default (Build_bond "" (Build_issuer_part "" "" VNull "" VNull
                                                   VNull VNull)
                             num_zero "" None VNull VNull VNull VNull
                             num_zero VNull VNull "" false "" VNull VNull
                             false VNull [] [] "" ∅ 0%Z, 0%nat)
           (Transformers.transformListedSecurity
              (fun _ => "0") (fun _ => "") (fun _ => num_zero)
              (fun _ => None) Samples.clock_now
              Samples.listed_row "Active" 0%nat)) in
  all_chars (fun c => negb (is_lower c)) (isin b) = true /\
  generateSlug (VStr (name (issuer b))) = Some (id (issuer b)) /\
  isNaN (couponRate b) = false /\
  latestRating (issuer b) = creditRating b /\
  Transformers.normalizeRating (fun _ => "0") (fun _ => "") (creditRating b)
  = creditRating b /\
  (ratingHistory b = [] \/
   exists entry, ratingHistory b = [entry] /\
                 rating_value entry = creditRating b) /\
  (faceValue b = VNull \/ truthy (faceValue b) = true) /\
  isRestructured b = false /\
  apiResponseRaw b = Samples.listed_row.
Proof.
  cbn zeta.
  refine (transformListedSecurity_output
            (fun _ => "0") (fun _ => "") (fun _ => num_zero)
            (fun _ => None) Samples.clock_now
            Samples.listed_row "Active" 0%nat _ _ _).
  vm_compute. reflexivity.
Defined.

End TransformerLaws.

(** ** The transformers *)

Module TransformerFacts.
Import JsString Regex Transformers.

Section Engine.
Variable Number_toString : number -> string.
Variable Date_toString : option Z -> string.
Variable parseFloat_text : string -> number.
Variable Date_parse_other : string -> option Z.

Local Abbreviation parseDate :=
  (parseDate Number_toString Date_toString Date_parse_other).
Local Abbreviation ToString := (ToString Number_toString Date_toString).

(** Day-first input with either separator, and ISO input, are told
    apart by their pattern and denote the same day, at midnight UTC. *)
Theorem parseDate_accepts_day_first_and_iso :
  parseDate (VStr "05-03-2024") = VDate (Some 1709596800000%Z) /\
  parseDate (VStr "5/3/2024") = VDate (Some 1709596800000%Z) /\
  parseDate (VStr "2024-03-05") = VDate (Some 1709596800000%Z).
Proof. repeat split; vm_compute; reflexivity. Qed.

Example parseDate_empty : parseDate (VStr "   ") = VNull.
Proof. vm_compute. reflexivity. Qed.

(** Outside the day-first pattern, text the engine cannot parse gives
    [null]: the result is [null] or a valid date. *)
Lemma parseDate_other_text (v : value) :
  (forall t, v <> VDate t) ->
  exec_whole DMY_RE (trim (ToString v)) = None ->
  parseDate v = VNull \/ exists t, parseDate v = VDate (Some t).
Proof.
  intros Hdate Hdmy. unfold Transformers.parseDate.
  destruct (negb (truthy v)); [left; reflexivity |].
  destruct v; try (exfalso; eapply Hdate; reflexivity);
    (destruct (String.eqb _ ""); [left; reflexivity |];
     rewrite Hdmy;
     destruct (Date_parse Date_parse_other _) as [t |];
     [right; exists t; reflexivity | left; reflexivity]).
Qed.

(** Inside the day-first pattern the result is never [null], whatever
    the day and month are. *)
Lemma parseDate_day_first_never_null (s : string) (d m y : string)
    (more : list string) :
  trim s <> "" ->
  exec_whole DMY_RE (trim s) = Some (d :: m :: y :: more) ->
  exists t, parseDate (VStr s) = VDate t.
Proof.
  intros Hne Hdmy. unfold Transformers.parseDate. cbn [truthy ToString].
  destruct (String.eqb_spec s "") as [-> | Hs].
  { exfalso. apply Hne. reflexivity. }
  cbn [negb Transformers.ToString].
  destruct (String.eqb_spec (trim s) "") as [He | _]; [contradiction |].
  rewrite Hdmy. eexists. reflexivity.
Qed.

(** C6: date parsing does not return [null] for every unparseable
    input: the text 99-99-2024 has the day-first shape, names no
    calendar day, and comes back as an Invalid Date object. *)
Theorem parseDate_invalid_day_first :
  parseDate (VStr "99-99-2024") = VDate None /\
  parseDate (VStr "99-99-2024") <> VNull.
Proof. split; [vm_compute; reflexivity | discriminate]. Qed.

End Engine.

Lemma parseDate_other_text_witness :
  parseDate (fun _ => "") (fun _ => "") (fun _ => None) (VStr "soon") = VNull
  \/ exists t,
      parseDate (fun _ => "") (fun _ => "") (fun _ => None) (VStr "soon")
      = VDate (Some t).
Proof.
  apply parseDate_other_text; [intros t; discriminate | vm_compute; reflexivity].
Defined.

Lemma parseDate_day_first_never_null_witness :
  exists t,
    parseDate (fun _ => "") (fun _ => "") (fun _ => None) (VStr "31/12/2030")
    = VDate t.
Proof.
  apply (parseDate_day_first_never_null _ _ _ "31/12/2030" "31" "12" "2030" []);
    [vm_compute; discriminate | vm_compute; reflexivity].
Defined.

(** *** The enrichment merge *)

Lemma apply_entry_lookup (entry bond : gmap string value) (f : string) :
  apply_entry entry bond !! f =
  match entry !! f with
  | Some w => if is_empty w then bond !! f else Some w
  | None => bond !! f
  end.
Proof.
  unfold apply_entry. rewrite lookup_union.
  destruct (entry !! f) as [w |] eqn:Hf.
  - destruct (is_empty w) eqn:Hw.
    + rewrite (proj2 (map_lookup_filter_None _ entry f)).
      * destruct (bond !! f); reflexivity.
      * right. intros x Hx. rewrite Hf in Hx. injection Hx as <-.
        cbn. rewrite Hw. discriminate.
    + rewrite (proj2 (map_lookup_filter_Some _ entry f w)).
      * destruct (bond !! f); reflexivity.
      * split; [exact Hf | exact Hw].
  - rewrite (proj2 (map_lookup_filter_None _ entry f)).
    + destruct (bond !! f); reflexivity.
    + left. exact Hf.
Qed.

(** A field the entry leaves empty or does not have keeps its value. *)
Lemma enrich_keeps (key f : string) (bond : gmap string value)
    (m : gmap string (gmap string value)) :
  (forall entry w, m !! key = Some entry -> entry !! f = Some w ->
                   is_empty w = true) ->
  enrich key bond m !! f = bond !! f.
Proof.
  intros Hm. unfold enrich.
  destruct (m !! key) as [entry |] eqn:Hk; [| reflexivity].
  rewrite apply_entry_lookup.
  destruct (entry !! f) as [w |] eqn:Hf; [| reflexivity].
  rewrite (Hm entry w eq_refl Hf). reflexivity.
Qed.

(** A non-empty value of the entry does overwrite. *)
Lemma enrich_overwrites (key f : string) (bond entry : gmap string value)
    (m : gmap string (gmap string value)) (w : value) :
  m !! key = Some entry -> entry !! f = Some w -> is_empty w = false ->
  enrich key bond m !! f = Some w.
Proof.
  intros Hk Hf Hw. unfold enrich. rewrite Hk, apply_entry_lookup, Hf, Hw.
  reflexivity.
Qed.

(** C3: the enrichment merge is non-destructive.  When a record holds a
    non-empty value for a field, and in every enrichment pass the entry
    for that record (if there is one) has no value or an empty value for
    the field, the merged record still holds the original value. *)
Theorem merge_non_destructive (key f : string) (v : value)
    (maps : list (gmap string (gmap string value)))
    (bond : gmap string value) :
  bond !! f = Some v ->
  is_empty v = false ->
  (forall m entry w, In m maps -> m !! key = Some entry ->
                     entry !! f = Some w -> is_empty w = true) ->
  merge_all key maps bond !! f = Some v.
Proof.
  unfold merge_all. revert bond.
  induction maps as [| m maps IH]; intros bond Hv Hne Hmaps; cbn [foldl].
  - exact Hv.
  - apply IH; [| exact Hne |].
    + rewrite enrich_keeps; [exact Hv |].
      intros entry w. apply (Hmaps m entry w). left. reflexivity.
    + intros m' entry w Hin. apply (Hmaps m' entry w). right. exact Hin.
Qed.

Lemma rate_map_entry :
  Samples.rate_map !! "INE002A07809" =
  Some {[ "interestRateCategory" := VNull; "couponRate" := VNum num_zero ]}.
Proof. vm_compute. reflexivity. Qed.

Lemma merge_non_destructive_witness :
  merge_all "INE002A07809" [Samples.rate_map] Samples.bond0
    !! "interestRateCategory" = Some (VStr "8-9%").
Proof.
  apply merge_non_destructive.
  - vm_compute. reflexivity.
  - reflexivity.
  - intros m entry w [<- | []] Hentry Hfield.
    rewrite rate_map_entry in Hentry. injection Hentry as <-.
    vm_compute in Hfield. injection Hfield as <-. reflexivity.
Defined.

End TransformerFacts.

(** ** The circuit breaker *)

Module BreakerFacts.
Import CircuitBreaker.
Local Open Scope Z_scope.

Section World.
Context {W A E : Type}.
Variable Date_now : W -> Z * W.
Variable is_nullish : E -> bool.

Local Abbreviation operation := (@operation W A E).
Local Abbreviation execute := (@execute W A E Date_now is_nullish).
Local Abbreviation execute_all := (@execute_all W A E Date_now is_nullish).
Local Abbreviation _onFailure := (@_onFailure W E Date_now is_nullish).
Local Abbreviation passed_on := (@passed_on A E is_nullish).
Local Abbreviation fails_with_message :=
  (@fails_with_message W A E is_nullish).
Local Abbreviation behaves := (@behaves W A E is_nullish).

Lemma STATES_eqb_eq (a b : STATES) : STATES_eqb a b = true <-> a = b.
Proof. destruct a, b; cbn; split; congruence. Qed.

Lemma transition_state (s : STATES) (b : breaker) :
  state (_transition s b) = s.
Proof.
  unfold _transition. destruct (STATES_eqb (state b) s) eqn:Heq; cbn.
  - apply STATES_eqb_eq. exact Heq.
  - reflexivity.
Qed.

Lemma transition_keeps (s : STATES) (b : breaker) :
  failures (_transition s b) = failures b /\
  failureThreshold (_transition s b) = failureThreshold b /\
  resetTimeout (_transition s b) = resetTimeout b /\
  nextRetryTime (_transition s b) = nextRetryTime b.
Proof.
  unfold _transition. destruct (negb (STATES_eqb (state b) s)); cbn; auto.
Qed.

(** *** Letting a call through *)

Lemma let_through_not_open (b : breaker) (w : W) :
  state b <> OPEN -> let_through Date_now b w = (Some b, w).
Proof.
  intros Hs. unfold let_through.
  destruct (STATES_eqb (state b) OPEN) eqn:Heq; [| reflexivity].
  apply STATES_eqb_eq in Heq. contradiction.
Qed.

Lemma turned_away_early (b : breaker) (w w1 : W) (now : Z) :
  state b = OPEN -> Date_now w = (now, w1) ->
  now < default 0 (nextRetryTime b) ->
  let_through Date_now b w = (None, snd (Date_now w1)).
Proof.
  intros Hs Hnow Hlt. unfold let_through. rewrite Hs. cbn. rewrite Hnow.
  destruct (Z.leb_spec (default 0 (nextRetryTime b)) now) as [Hle | _].
  - lia.
  - destruct (Date_now w1). reflexivity.
Qed.

Lemma let_through_when_due (b : breaker) (w w1 : W) (now : Z) :
  state b = OPEN -> Date_now w = (now, w1) ->
  default 0 (nextRetryTime b) <= now ->
  let_through Date_now b w = (Some (_transition HALF_OPEN b), w1).
Proof.
  intros Hs Hnow Hle. unfold let_through. rewrite Hs. cbn. rewrite Hnow.
  destruct (Z.leb_spec (default 0 (nextRetryTime b)) now) as [_ | Hlt].
  - reflexivity.
  - lia.
Qed.

(** *** After the operation *)

Lemma onSuccess_half_open (b : breaker) :
  state b = HALF_OPEN ->
  state (_onSuccess b) = CLOSED /\ failures (_onSuccess b) = 0.
Proof.
  intros Hs. destruct b; cbn in Hs; subst. split; reflexivity.
Qed.

Lemma onSuccess_other (b : breaker) :
  state b <> HALF_OPEN ->
  state (_onSuccess b) = state b /\ failures (_onSuccess b) = failures b.
Proof.
  intros Hs. destruct b as [? ? ? [] ? ? ? ? ? ?]; cbn in Hs;
    try contradiction; split; reflexivity.
Qed.

Lemma onSuccess_config (b : breaker) :
  failureThreshold (_onSuccess b) = failureThreshold b /\
  resetTimeout (_onSuccess b) = resetTimeout b.
Proof.
  destruct b as [? ? ? [] ? ? ? ? ? ?]; split; reflexivity.
Qed.

(** The log line: a thrown value without a [message] to read ends
    [_onFailure] after the counter and the time are updated, before
    any transition. *)
Lemma onFailure_nullish (e : E) (b : breaker) (w w1 : W) (t1 : Z) :
  is_nullish e = true -> Date_now w = (t1, w1) ->
  _onFailure e b w
  = (Thrown TypeError,
     (set_lastFailureTime (Some t1) (set_failures (failures b + 1) b),
      w1)).
Proof.
  intros He H1. unfold CircuitBreaker._onFailure. rewrite H1, He.
  reflexivity.
Qed.

Lemma onFailure_outcome (e : E) (b : breaker) (w : W) :
  fst (_onFailure e b w)
  = if is_nullish e then Thrown TypeError else Returned tt.
Proof.
  unfold CircuitBreaker._onFailure. destruct (Date_now w) as [t1 w1].
  destruct (is_nullish e); [reflexivity |].
  destruct (STATES_eqb _ HALF_OPEN).
  - destruct (Date_now w1). reflexivity.
  - destruct (_ && _); [destruct (Date_now w1) |]; reflexivity.
Qed.

Lemma onFailure_half_open (e : E) (b : breaker) (w w1 w2 : W)
    (t1 t2 : Z) :
  is_nullish e = false ->
  state b = HALF_OPEN ->
  Date_now w = (t1, w1) -> Date_now w1 = (t2, w2) ->
  exists b', _onFailure e b w = (Returned tt, (b', w2)) /\
             state b' = OPEN /\
             nextRetryTime b' = Some (t2 + resetTimeout b) /\
             lastFailureTime b' = Some t1 /\
             failures b' = failures b + 1 /\
             failureThreshold b' = failureThreshold b /\
             resetTimeout b' = resetTimeout b.
Proof.
  intros He Hs H1 H2. destruct b; cbn in Hs; subst.
  unfold CircuitBreaker._onFailure. rewrite H1, He. cbn. rewrite H2.
  eexists. split; [reflexivity |]. cbn. repeat split.
Qed.

Lemma onFailure_closed (e : E) (b : breaker) (w : W) :
  is_nullish e = false ->
  state b = CLOSED ->
  exists b' w', _onFailure e b w = (Returned tt, (b', w')) /\
                state b' = (if failureThreshold b <=? failures b + 1
                            then OPEN else CLOSED) /\
                failures b' = failures b + 1 /\
                failureThreshold b' = failureThreshold b /\
                resetTimeout b' = resetTimeout b.
Proof.
  intros He Hs. destruct b; cbn in Hs; subst.
  unfold CircuitBreaker._onFailure. destruct (Date_now w) as [t1 w1].
  rewrite He. cbn.
  destruct (_ <=? _).
  - destruct (Date_now w1) as [t2 w2]. do 2 eexists.
    split; [reflexivity |]. cbn. repeat split.
  - do 2 eexists. split; [reflexivity |]. cbn. repeat split.
Qed.

(** Whatever is thrown, [_onFailure] counts it. *)
Lemma onFailure_counts (e : E) (b : breaker) (w : W) :
  failures (fst (snd (_onFailure e b w))) = failures b + 1.
Proof.
  unfold CircuitBreaker._onFailure. destruct (Date_now w) as [t1 w1].
  destruct (is_nullish e); [reflexivity |].
  destruct b as [ft rt mw [] f lf nr sc tr ns]; cbn.
  - destruct (_ <=? _); [destruct (Date_now w1) |]; reflexivity.
  - reflexivity.
  - destruct (Date_now w1). reflexivity.
Qed.

(** *** One call *)

Lemma execute_rejected (b : breaker) (fn : operation) (w w1 : W) (now : Z) :
  state b = OPEN -> Date_now w = (now, w1) ->
  now < default 0 (nextRetryTime b) ->
  execute b fn None w =
  (Thrown (CircuitBreakerError
             "Circuit breaker is OPEN — upstream API unavailable"),
   (counted b, snd (Date_now w1))).
Proof.
  intros Hs Hnow Hlt. unfold CircuitBreaker.execute. fold (counted b).
  rewrite (turned_away_early (counted b) w w1 now); auto.
Qed.


Lemma execute_admitted_success (b b1 : breaker) (fn : operation)
    (fb : option operation) (w w1 w2 : W) (a : A) :
  let_through Date_now (counted b) w = (Some b1, w1) ->
  fn w1 = (Returned a, w2) ->
  execute b fn fb w = (Returned a, (_onSuccess b1, w2)).
Proof.
  intros Hthrough Hfn. unfold CircuitBreaker.execute. fold (counted b).
  rewrite Hthrough, Hfn. reflexivity.
Qed.

Lemma execute_admitted_failure (b b1 : breaker) (fn : operation)
    (w w1 w2 : W) (e : E) :
  let_through Date_now (counted b) w = (Some b1, w1) ->
  fn w1 = (Thrown e, w2) ->
  is_nullish e = false ->
  execute b fn None w =
  (Thrown (OperationError e), snd (_onFailure e b1 w2)).
Proof.
  intros Hthrough Hfn He. unfold CircuitBreaker.execute. fold (counted b).
  rewrite Hthrough, Hfn. pose proof (onFailure_outcome e b1 w2) as Hout.
  rewrite He in Hout.
  destruct (_onFailure e b1 w2) as [[[] | thrown] [b2 w3]];
    [reflexivity | discriminate Hout].
Qed.

(** An operation that rejects with [undefined] or [null]: the failure
    is counted, and the [TypeError] of the log line leaves [execute]
    in place of the rejection, fallback or not. *)
Lemma execute_admitted_nullish (b b1 : breaker) (fn : operation)
    (fb : option operation) (w w1 w2 w3 : W) (e : E) (t1 : Z) :
  let_through Date_now (counted b) w = (Some b1, w1) ->
  fn w1 = (Thrown e, w2) ->
  is_nullish e = true ->
  Date_now w2 = (t1, w3) ->
  execute b fn fb w =
  (Thrown TypeError,
   (set_lastFailureTime (Some t1) (set_failures (failures b1 + 1) b1),
    w3)).
Proof.
  intros Hthrough Hfn He H1. unfold CircuitBreaker.execute. fold (counted b).
  rewrite Hthrough, Hfn, (onFailure_nullish e b1 w2 w3 t1 He H1).
  reflexivity.
Qed.


(** The breaker after one call of an operation that fails with a
    message. *)
Lemma execute_failing (b : breaker) (fn : operation) (w : W) :
  fails_with_message fn ->
  let b' := fst (snd (execute b fn None w)) in
  failureThreshold b' = failureThreshold b /\
  (state b = CLOSED ->
   state b' = (if failureThreshold b <=? failures b + 1
               then OPEN else CLOSED) /\
   failures b' = failures b + 1) /\
  (state b = OPEN -> state b' = OPEN).
Proof.
  intros Hfn b'. subst b'.
  destruct (state b) eqn:Hs.
  - (* CLOSED *)
    assert (Hthrough : let_through Date_now (counted b) w = (Some (counted b), w)).
    { apply let_through_not_open. cbn. rewrite Hs. discriminate. }
    destruct (Hfn w) as (e & w2 & Hrun & He).
    rewrite (execute_admitted_failure b _ fn w w w2 e Hthrough Hrun He).
    destruct (onFailure_closed e (counted b) w2 He)
      as (b' & w' & Hf & H1 & H2 & H3 & _).
    { cbn. exact Hs. }
    rewrite Hf. cbn [fst snd]. cbn in H1, H2, H3.
    repeat split; auto; discriminate.
  - (* OPEN *)
    destruct (Date_now w) as [now w1] eqn:Hnow.
    destruct (Z.lt_ge_cases now (default 0 (nextRetryTime b))) as [Hlt | Hge].
    + rewrite (execute_rejected b fn w w1 now Hs Hnow Hlt). cbn.
      repeat split; auto; discriminate.
    + assert (Hthrough : let_through Date_now (counted b) w
                     = (Some (_transition HALF_OPEN (counted b)), w1)).
      { apply (let_through_when_due (counted b) w w1 now); auto. }
      destruct (Hfn w1) as (e & w2 & Hrun & He).
      rewrite (execute_admitted_failure b _ fn w w1 w2 e Hthrough Hrun He).
      destruct (Date_now w2) as [t1 w3] eqn:H1.
      destruct (Date_now w3) as [t2 w4] eqn:H2.
      destruct (onFailure_half_open e (_transition HALF_OPEN (counted b))
                  w2 w3 w4 t1 t2 He (transition_state _ _) H1 H2)
        as (b' & Hf & Hst & _ & _ & _ & Hth & _).
      rewrite Hf. cbn [fst snd].
      destruct (transition_keeps HALF_OPEN (counted b)) as (_ & Hk & _).
      rewrite Hth, Hk. repeat split; auto; discriminate.
  - (* HALF_OPEN *)
    assert (Hthrough : let_through Date_now (counted b) w = (Some (counted b), w)).
    { apply let_through_not_open. cbn. rewrite Hs. discriminate. }
    destruct (Hfn w) as (e & w2 & Hrun & He).
    rewrite (execute_admitted_failure b _ fn w w w2 e Hthrough Hrun He).
    destruct (Date_now w2) as [t1 w3] eqn:H1.
    destruct (Date_now w3) as [t2 w4] eqn:H2.
    destruct (onFailure_half_open e (counted b) w2 w3 w4 t1 t2) as
      (b' & Hf & _ & _ & _ & _ & Hth & _); auto.
    rewrite Hf. cbn [fst snd]. rewrite Hth.
    repeat split; auto; discriminate.
Qed.

(** The breaker after a successful call made while CLOSED. *)
Lemma execute_succeeding_closed (b : breaker) (fn : operation)
    (fb : option operation) (w : W) :
  succeeds fn -> state b = CLOSED ->
  let b' := fst (snd (execute b fn fb w)) in
  state b' = CLOSED /\ failures b' = failures b /\
  failureThreshold b' = failureThreshold b.
Proof.
  intros Hfn Hs b'. subst b'.
  assert (Hthrough : let_through Date_now (counted b) w = (Some (counted b), w)).
  { apply let_through_not_open. cbn. rewrite Hs. discriminate. }
  destruct (Hfn w) as (a & w2 & Hrun).
  rewrite (execute_admitted_success b _ fn fb w w w2 a Hthrough Hrun).
  cbn [fst snd].
  destruct (onSuccess_other (counted b)) as [H1 H2].
  { cbn. rewrite Hs. discriminate. }
  destruct (onSuccess_config (counted b)) as [H3 _].
  rewrite H1, H2, H3. cbn. auto.
Qed.

(** Whatever of the world the clock does not touch, [execute] changes
    only through the operation; a call turned away leaves it alone. *)
Lemma execute_frame {X : Type} (proj : W -> X) (b : breaker)
    (fn : operation) (w : W) :
  (forall w0, proj (snd (Date_now w0)) = proj w0) ->
  (proj (snd (snd (execute b fn None w))) = proj w /\
   exists msg, fst (execute b fn None w) = Thrown (CircuitBreakerError msg))
  \/
  (exists w1, proj w1 = proj w /\
              proj (snd (snd (execute b fn None w))) = proj (snd (fn w1)) /\
              fst (execute b fn None w) = passed_on (fst (fn w1))).
Proof.
  intros Hproj. unfold CircuitBreaker.execute. fold (counted b).
  assert (Hthrough : proj (snd (let_through Date_now (counted b) w)) = proj w).
  { unfold let_through. destruct (STATES_eqb _ OPEN); [| reflexivity].
    pose proof (Hproj w) as H1. destruct (Date_now w) as [now w1].
    cbn [snd] in H1. destruct (_ <=? now); [exact H1 |].
    pose proof (Hproj w1) as H2. destruct (Date_now w1) as [? w2].
    cbn [snd] in *. congruence. }
  destruct (let_through Date_now (counted b) w) as [[b1 |] w1]; cbn [snd] in Hthrough.
  - right. exists w1. split; [exact Hthrough |].
    destruct (fn w1) as [[a | e] w2]; cbn [fst snd passed_on].
    + split; reflexivity.
    + assert (Hf : proj (snd (snd (_onFailure e b1 w2))) = proj w2).
      { unfold CircuitBreaker._onFailure.
        pose proof (Hproj w2) as H1. destruct (Date_now w2) as [t1 w3].
        cbn [snd] in H1.
        repeat match goal with
               | |- context [if ?c then _ else _] => destruct c
               end;
          try (pose proof (Hproj w3) as H2; destruct (Date_now w3);
               cbn [snd] in *; congruence);
          cbn [snd]; congruence. }
      pose proof (onFailure_outcome e b1 w2) as Hout.
      destruct (_onFailure e b1 w2) as [[[] | thrown] [b2 w3]];
        cbn [fst snd] in Hf, Hout; destruct (is_nullish e);
        try discriminate Hout.
      * split; [exact Hf | reflexivity].
      * split; [exact Hf | cbn; congruence].
  - left. split; [exact Hthrough | eexists; reflexivity].
Qed.

(** *** Series of calls *)

Lemma execute_all_cons (b : breaker) (fn : operation)
    (fns : list operation) (w : W) :
  execute_all b (fn :: fns) w =
  execute_all (fst (snd (execute b fn None w))) fns
              (snd (snd (execute b fn None w))).
Proof.
  cbn [CircuitBreaker.execute_all].
  destruct (execute b fn None w) as [r [b' w']]. reflexivity.
Qed.

Lemma execute_all_app (b : breaker) (fns fns' : list operation) (w : W) :
  execute_all b (fns ++ fns') w =
  execute_all (fst (execute_all b fns w)) fns' (snd (execute_all b fns w)).
Proof.
  revert b w. induction fns as [| fn fns IH]; intros b w.
  - reflexivity.
  - rewrite <- app_comm_cons. rewrite !execute_all_cons. apply IH.
Qed.


(** Below the threshold the breaker stays CLOSED and the counter holds
    the number of failures so far, however many successes lie between
    them. *)
Lemma closed_below_threshold (fns : list operation) (oks : list bool)
    (b : breaker) (w : W) :
  Forall2 behaves fns oks ->
  state b = CLOSED ->
  failures b + count_failures oks < failureThreshold b ->
  let b' := fst (execute_all b fns w) in
  state b' = CLOSED /\
  failures b' = failures b + count_failures oks /\
  failureThreshold b' = failureThreshold b.
Proof.
  intros Hall. revert b w.
  induction Hall as [| fn ok fns oks Hb Hall IH]; intros b w Hs Hlt.
  - cbn. unfold count_failures. cbn. repeat split; auto; lia.
  - cbn zeta. rewrite execute_all_cons.
    destruct ok; cbn [behaves] in Hb.
    + destruct (execute_succeeding_closed b fn None w Hb Hs)
        as (Hs' & Hf' & Hth').
      assert (Hc : count_failures (true :: oks) = count_failures oks)
        by reflexivity.
      rewrite Hc in *.
      destruct (IH _ (snd (snd (execute b fn None w))) Hs') as (H1 & H2 & H3).
      { rewrite Hf', Hth'. exact Hlt. }
      cbn zeta in *. rewrite H1, H2, H3, Hf', Hth'. auto.
    + destruct (execute_failing b fn w Hb) as (Hth' & Hclosed & _).
      destruct (Hclosed Hs) as [Hs' Hf'].
      assert (Hc : count_failures (false :: oks) = 1 + count_failures oks).
      { unfold count_failures. cbn [List.filter negb length]. lia. }
      rewrite Hc in *.
      assert (Hpos : 0 <= count_failures oks)
        by (unfold count_failures; lia).
      destruct (Z.leb_spec (failureThreshold b) (failures b + 1)) as [Hle | Hgt];
        [lia |].
      destruct (IH _ (snd (snd (execute b fn None w))) Hs') as (H1 & H2 & H3).
      { rewrite Hf', Hth'. lia. }
      cbn zeta in *. rewrite H1, H2, H3, Hf', Hth'. repeat split; auto; lia.
Qed.

(** Whatever happens in a call, the failure counter stays, grows by
    one, or is set to zero by a successful trial admitted in
    HALF_OPEN. *)
Lemma execute_failures_cases (b : breaker) (fn : operation)
    (fb : option operation) (w : W) :
  let b' := fst (snd (execute b fn fb w)) in
  failures b' = failures b \/
  failures b' = failures b + 1 \/
  (failures b' = 0 /\ state b' = CLOSED /\
   exists b1 w1 a w2,
     let_through Date_now (counted b) w = (Some b1, w1) /\
     state b1 = HALF_OPEN /\ fn w1 = (Returned a, w2)).
Proof.
  cbn zeta. unfold CircuitBreaker.execute. fold (counted b).
  destruct (let_through Date_now (counted b) w) as [[b1 |] w1] eqn:Hthrough.
  - assert (Hb1 : failures b1 = failures b).
    { unfold let_through in Hthrough.
      destruct (STATES_eqb (state (counted b)) OPEN).
      - destruct (Date_now w) as [now w']. destruct (_ <=? now).
        + injection Hthrough as <- <-.
          destruct (transition_keeps HALF_OPEN (counted b)) as (-> & _).
          reflexivity.
        + destruct (Date_now w'). discriminate.
      - injection Hthrough as <- <-. reflexivity. }
    destruct (fn w1) as [[a | e] w2] eqn:Hfn.
    + cbn [fst snd].
      destruct (state b1) eqn:Hs1.
      * left. destruct (onSuccess_other b1) as [_ ->]; [| exact Hb1].
        rewrite Hs1. discriminate.
      * left. destruct (onSuccess_other b1) as [_ ->]; [| exact Hb1].
        rewrite Hs1. discriminate.
      * right. right.
        destruct (onSuccess_half_open b1 Hs1) as [-> ->].
        repeat split. exists b1, w1, a, w2. auto.
    + right. left.
      pose proof (onFailure_counts e b1 w2) as Hf.
      destruct (_onFailure e b1 w2) as [[[] | thrown] [b2 w3]];
        cbn [fst snd] in Hf.
      * destruct fb as [fb |].
        -- destruct (STATES_eqb (state b2) OPEN).
           ++ destruct (run_fallback fb w3). cbn. lia.
           ++ cbn. lia.
        -- cbn. lia.
      * cbn. lia.
  - left. destruct fb as [fb |].
    + destruct (run_fallback fb w1). reflexivity.
    + reflexivity.
Qed.



(** Failures add up across successes.  A success while CLOSED leaves
    the failure counter alone; only a successful trial in HALF_OPEN, or
    [reset()], sets it to zero; so, counting from a zero counter and as
    long as every failure throws a value with a [message] to read, the
    breaker opens with the [failureThreshold]-th failure however many
    successes lie between the failures. *)
Lemma failures_accumulate_across_successes :
  (forall b fn fb w,
      succeeds fn -> state b = CLOSED ->
      let b' := fst (snd (execute b fn fb w)) in
      state b' = CLOSED /\ failures b' = failures b) /\
  (forall b fn fb w,
      let b' := fst (snd (execute b fn fb w)) in
      failures b' = failures b \/
      failures b' = failures b + 1 \/
      (failures b' = 0 /\ state b' = CLOSED /\
       exists b1 w1 a w2,
         let_through Date_now (counted b) w = (Some b1, w1) /\
         state b1 = HALF_OPEN /\ fn w1 = (Returned a, w2))) /\
  (forall b, state (reset b) = CLOSED /\ failures (reset b) = 0) /\
  (forall fns oks fn b w,
      Forall2 behaves fns oks -> fails_with_message fn ->
      state b = CLOSED -> failures b = 0 ->
      count_failures oks = failureThreshold b - 1 ->
      state (fst (execute_all b fns w)) = CLOSED /\
      failures (fst (execute_all b fns w)) = failureThreshold b - 1 /\
      state (fst (execute_all b (fns ++ [fn]) w)) = OPEN).
Proof.
  split.
  { intros b fn fb w Hfn Hs.
    destruct (execute_succeeding_closed b fn fb w Hfn Hs) as (H1 & H2 & _).
    split; assumption. }
  split; [exact execute_failures_cases |].
  split.
  { intros b. split; reflexivity. }
  intros fns oks fn b w Hall Hfn Hs Hf Hcount.
  destruct (closed_below_threshold fns oks b w Hall Hs) as (H1 & H2 & H3).
  { lia. }
  cbn zeta in *. split; [exact H1 |]. split; [lia |].
  rewrite execute_all_app. rewrite execute_all_cons. cbn [execute_all fst].
  destruct (execute_failing (fst (execute_all b fns w)) fn
              (snd (execute_all b fns w)) Hfn) as (_ & Hclosed & _).
  destruct (Hclosed H1) as [Hst _]. cbn zeta in Hst. rewrite Hst.
  rewrite H2, H3.
  destruct (Z.leb_spec (failureThreshold b) (failures b + count_failures oks + 1));
    [reflexivity | lia].
Qed.

End World.

Lemma always_fails_fails :
  fails_with_message Samples.no_message Samples.always_fails.
Proof. intros w. exists tt, w. split; reflexivity. Qed.

Lemma always_succeeds_succeeds : succeeds Samples.always_succeeds.
Proof. intros w. exists 7, w. reflexivity. Qed.



(** C10, where the code departs from it.  The first call of a breaker
    with [failureThreshold] 1 rejects with [undefined].  The failure is
    counted, so that the counter has reached the threshold; but the log
    line of [_onFailure] reads [error.message], the [TypeError] it throws
    leaves [execute] in place of the rejection, and the breaker is still
    CLOSED, with no retry time set and no state change reported.  The
    same call with an operation that rejects with an error object opens
    the breaker. *)
Theorem undefined_rejection_leaves_closed :
  fst Samples.run_rejects_undefined = Thrown TypeError /\
  (let b := fst (snd Samples.run_rejects_undefined) in
   failures b = 1 /\ failureThreshold b = 1 /\ state b = CLOSED /\
   nextRetryTime b = None /\ notified b = []) /\
  (let b := fst (snd (execute Samples.clock_now Upstream.is_undefined
                        (Samples.breaker_of_threshold 1)
                        Samples.rejects_timeout None 0%nat)) in
   failures b = 1 /\ state b = OPEN).
Proof. vm_compute. repeat split. Qed.

(** A trial call that rejects with [undefined]: the breaker, OPEN until
    second 61, lets the call through in HALF_OPEN and is left there. *)
Example undefined_trial_stays_half_open :
  let out := execute Samples.clock_now Upstream.is_undefined
               Samples.tripped Samples.rejects_undefined None 61%nat in
  fst out = Thrown TypeError /\
  state (fst (snd out)) = HALF_OPEN /\
  failures (fst (snd out)) = 2 /\
  consistent (fst (snd out)) = false.
Proof. vm_compute. repeat split. Qed.

Lemma failures_accumulate_across_successes_witness :
  (let b' := fst (snd (execute Samples.clock_now Samples.no_message
                         (Samples.breaker_of_threshold 3)
                         Samples.always_succeeds None 0%nat)) in
   state b' = CLOSED /\ failures b' = 0)
  /\ state (fst (execute_all Samples.clock_now Samples.no_message
                   (Samples.breaker_of_threshold 3)
                   ([Samples.always_fails; Samples.always_succeeds;
                     Samples.always_succeeds; Samples.always_fails]
                      ++ [Samples.always_fails]) 0%nat)) = OPEN.
Proof.
  destruct (@failures_accumulate_across_successes nat Z unit
              Samples.clock_now Samples.no_message) as (H1 & _ & _ & H4).
  split.
  - apply H1; [exact always_succeeds_succeeds | reflexivity].
  - destruct (H4 [Samples.always_fails; Samples.always_succeeds;
                  Samples.always_succeeds; Samples.always_fails]
                 [false; true; true; false]
                 Samples.always_fails (Samples.breaker_of_threshold 3) 0%nat)
      as (_ & _ & Hopen).
    + repeat constructor;
        first [exact always_fails_fails | exact always_succeeds_succeeds].
    + exact always_fails_fails.
    + reflexivity.
    + reflexivity.
    + reflexivity.
    + exact Hopen.
Defined.

End BreakerFacts.

(** ** Invariants of the circuit breaker *)

Module BreakerLaws.
Import CircuitBreaker.
Local Open Scope Z_scope.

Section World.
Context {W A E : Type}.
Variable Date_now : W -> Z * W.
Variable is_nullish : E -> bool.

Local Abbreviation operation := (@operation W A E).
Local Abbreviation execute := (@execute W A E Date_now is_nullish).

Ltac split_calls :=
  repeat (simpl;
          match goal with
          | |- context [Date_now ?w] => destruct (Date_now w)
          | |- context [if ?c then _ else _] => destruct c eqn:?
          | |- context [match ?fb ?w with _ => _ end] =>
              destruct (fb w) as [[? | ?] ?]
          end).






(** [monitorWindow] is stored and never read: a breaker made with
    another window answers every call in the same way and moves
    through the same states. *)
Theorem monitorWindow_never_read (m : Z) (b : breaker) (fn : operation)
    (fallback : option operation) (w : W) :
  execute (set_monitorWindow m b) fn fallback w
  = let '(r, (b', w')) := execute b fn fallback w in
    (r, (set_monitorWindow m b', w')).
Proof.
  unfold CircuitBreaker.execute, let_through, run_fallback, _onSuccess,
    _onFailure, _transition, set_state, set_failures,
    set_lastFailureTime, set_nextRetryTime, set_successCount,
    set_totalRequests, notify.
  destruct b as [ft rt mw [] f lf nr sc tr ns]; cbn;
    destruct fallback as [fb |]; split_calls; reflexivity.
Qed.

(** *** Notifications *)

Lemma chained_app (s s' : STATES) (ns ns' : list notification) :
  chained s ns = Some s' ->
  chained s (ns ++ ns')%list = chained s' ns'.
Proof.
  revert s. induction ns as [| n ns IH]; intros s H; cbn in *.
  - injection H as <-. reflexivity.
  - destruct (_ && _); [apply IH, H | discriminate].
Qed.


End World.

End BreakerLaws.

(** ** The upstream clients *)

Module ClientFacts.
Import Upstream.
Local Open Scope Z_scope.
Local Open Scope list_scope.

(** *** What the effects do to the trace *)

Section Effects.
Context {B : Type}.
Variable env : environment B.

Lemma trace_Date_now (w : world B) : trace (snd (Date_now env w)) = trace w.
Proof. reflexivity. Qed.

Lemma trace_waitForRateLimit (cfg : settings) (w : world B) :
  trace (_waitForRateLimit env cfg w) = trace w.
Proof.
  unfold _waitForRateLimit. cbn.
  destruct (_ <? _); reflexivity.
Qed.

Lemma trace_backoff_wait (cfg : settings) (attempt : nat) (w : world B) :
  exists ms, trace (backoff_wait env cfg attempt w)
             = trace w ++ [EBackoff ms].
Proof. unfold backoff_wait. cbn. eexists. reflexivity. Qed.

Lemma new_events_app (w w' : world B) (evs : list (event B)) :
  trace w' = trace w ++ evs -> new_events w w' = evs.
Proof.
  intros H. unfold new_events. rewrite H. apply drop_app_length.
Qed.

End Effects.

(** *** The attempt loop of the NSDL client *)

Section Nsdl.
Import NsdlClient.
Context {B R : Type}.
Variable env : environment B.
Variable cfg : settings.
Variable check : response B -> option error.
Variable finish : response B -> outcome R error.
Variable empty : R.
Variable expired_message : string -> string.

Local Abbreviation attempts :=
  (attempts env cfg check finish empty expired_message).
Local Abbreviation tried := (tried check finish).
Local Abbreviation loop_trace :=
  (loop_trace cfg check finish empty expired_message).

Lemma trace_refreshCookies (w : world B) :
  trace (snd (refreshCookies env w))
  = trace w ++ [ELogin (fst (refreshCookies env w))].
Proof.
  unfold refreshCookies. destruct (login env (logins w)) as [[a b] |];
    reflexivity.
Qed.

Local Abbreviation after_get := (after_get env cfg check).

Lemma trace_after_get (endpoint : string) (attempt : nat) (w : world B) :
  exists cookie,
    trace (snd (after_get endpoint attempt w))
    = trace w ++ [EGet attempt cookie (fst (after_get endpoint attempt w))].
Proof.
  unfold after_get. cbn [fst snd].
  pose proof (trace_waitForRateLimit env cfg w) as Hwait.
  destruct (_waitForRateLimit env cfg w) as [? ? ? ? ? ? ? ? ? tr].
  cbn in Hwait. subst tr.
  eexists.
  destruct (server env _ endpoint _) as [response | st].
  - destruct (check response); reflexivity.
  - reflexivity.
Qed.

(** One iteration of the loop, spelled out. *)
Lemma attempts_S (endpoint : string) (k attempt : nat)
    (lastError : option error) (w : world B) :
  attempts endpoint (S k) attempt lastError w =
  let '(r, w) := after_get endpoint attempt w in
  match tried r with
  | Returned v => (Returned v, w)
  | Thrown error =>
      if asks_for_refresh error then
        if fst (refreshCookies env w)
        then attempts endpoint k (S attempt) (Some error)
                      (snd (refreshCookies env w))
        else (Thrown (SessionExpired (expired_message endpoint)),
              bump_failures (snd (refreshCookies env w)))
      else if status_is error 404 then (Returned empty, w)
      else attempts endpoint k (S attempt) (Some error)
                    (if Z.of_nat attempt <? maxRetries cfg
                     then backoff_wait env cfg attempt w else w)
  end.
Proof.
  cbn [NsdlClient.attempts]. unfold after_get, Upstream.get.
  cbn [fst snd].
  destruct (server env _ endpoint _) as [response | st];
    cbn [NsdlClient.tried].
  - destruct (check response) as [e |].
    + unfold asks_for_refresh.
      destruct (status_is e 403 || isHtmlSessionError e).
      * destruct (refreshCookies env _) as [[] w']; reflexivity.
      * reflexivity.
    + destruct (finish response) as [v | e]; [reflexivity |].
      unfold asks_for_refresh.
      destruct (status_is e 403 || isHtmlSessionError e).
      * destruct (refreshCookies env _) as [[] w']; reflexivity.
      * reflexivity.
  - unfold asks_for_refresh.
    destruct (status_is (AxiosError st) 403
              || isHtmlSessionError (AxiosError st)).
    + destruct (refreshCookies env _) as [[] w']; reflexivity.
    + reflexivity.
Qed.

(** Every run of the loop leaves a trace of the shape [loop_trace]. *)
Lemma attempts_loop_trace (endpoint : string) (remaining : nat) :
  forall (attempt : nat) (lastError : option error) (w : world B),
    remaining = Z.to_nat (maxRetries cfg + 1 - Z.of_nat attempt) ->
    exists evs,
      trace (snd (attempts endpoint remaining attempt lastError w))
      = trace w ++ evs /\
      loop_trace endpoint attempt evs
                 (fst (attempts endpoint remaining attempt lastError w)).
Proof.
  induction remaining as [| k IH]; intros attempt lastError w Hrem.
  - exists []. cbn. split; [rewrite app_nil_r; reflexivity |].
    apply trace_exhausted. lia.
  - rewrite attempts_S.
    destruct (trace_after_get endpoint attempt w) as [cookie Hget].
    destruct (after_get endpoint attempt w) as [r w1]. cbn [fst snd] in Hget.
    assert (Hle : Z.of_nat attempt <= maxRetries cfg) by lia.
    assert (Hk : k = Z.to_nat (maxRetries cfg + 1 - Z.of_nat (S attempt)))
      by lia.
    destruct (tried r) as [v | e] eqn:Htried.
    + exists [EGet attempt cookie r]. split; [exact Hget |].
      apply trace_returned; assumption.
    + destruct (asks_for_refresh e) eqn:Hasks.
      * pose proof (trace_refreshCookies w1) as Hlogin.
        destruct (fst (refreshCookies env w1)) eqn:Hok.
        -- destruct (IH (S attempt) (Some e) (snd (refreshCookies env w1)) Hk)
             as (evs & Htr & Hshape).
           exists (EGet attempt cookie r :: ELogin true :: evs). split.
           ++ rewrite Htr, Hlogin, Hget, <- !app_assoc. reflexivity.
           ++ eapply trace_refreshed; eassumption.
        -- exists [EGet attempt cookie r; ELogin false]. split.
           ++ cbn [fst snd]. cbn [trace bump_failures set_stat].
              rewrite Hlogin, Hget, <- app_assoc. reflexivity.
           ++ eapply trace_refresh_failed; eassumption.
      * destruct (status_is e 404) eqn:H404.
        -- exists [EGet attempt cookie r]. split; [exact Hget |].
           eapply trace_not_found; eassumption.
        -- destruct (Z.ltb_spec (Z.of_nat attempt) (maxRetries cfg)) as [Hlt | Hge].
           ++ destruct (trace_backoff_wait env cfg attempt w1) as [ms Hback].
              destruct (IH (S attempt) (Some e)
                           (backoff_wait env cfg attempt w1) Hk)
                as (evs & Htr & Hshape).
              exists (EGet attempt cookie r :: EBackoff ms :: evs). split.
              ** rewrite Htr, Hback, Hget, <- !app_assoc. reflexivity.
              ** eapply trace_backoff; eassumption.
           ++ destruct (IH (S attempt) (Some e) w1 Hk)
                as (evs & Htr & Hshape).
              exists (EGet attempt cookie r :: evs). split.
              ** rewrite Htr, Hget, <- !app_assoc. reflexivity.
              ** eapply trace_last; try eassumption. lia.
Qed.

Lemma loop_trace_first (endpoint : string) (attempt : nat)
    (evs : list (event B)) (res : outcome R error) :
  loop_trace endpoint attempt evs res ->
  evs = [] \/ exists cookie r tl, evs = EGet attempt cookie r :: tl.
Proof. intros H. destruct H; eauto. Qed.

Lemma loop_trace_head (endpoint : string) (attempt : nat)
    (evs : list (event B)) (res : outcome R error) :
  loop_trace endpoint attempt evs res ->
  Z.of_nat attempt <= maxRetries cfg ->
  exists cookie r tl, evs = EGet attempt cookie r :: tl.
Proof. intros H Hle. destruct H; eauto. lia. Qed.

Lemma tried_404 :
  tried (Rejected (Some 404)) = Thrown (AxiosError (Some 404)).
Proof. reflexivity. Qed.

(** In a run of the loop a 404 is the last thing that happens. *)
Lemma loop_trace_not_found (endpoint : string) (attempt : nat)
    (evs : list (event B)) (res : outcome R error) :
  loop_trace endpoint attempt evs res ->
  not_found_is_final evs res empty.
Proof.
  induction 1 as [a e Hgt | a c r v Hle Ht | a c r e Hle Ht Ha H4
                 | a c r e Hle Ht Ha | a c r e evs res Hle Ht Ha Hrec IH
                 | a c r e ms evs res Hlt Ht Ha H4 Hrec IH
                 | a c r e evs res Heq Ht Ha H4 Hrec IH];
    intros i a' c' Hi.
  - discriminate.
  - destruct i; [| discriminate]. cbn in Hi. injection Hi as -> -> ->.
    rewrite tried_404 in Ht. discriminate.
  - destruct i; [| discriminate]. split; reflexivity.
  - destruct i as [| [| i]]; try discriminate.
    cbn in Hi. injection Hi as -> -> ->.
    rewrite tried_404 in Ht. injection Ht as <-. discriminate.
  - destruct i as [| [| i]]; try discriminate.
    + cbn in Hi. injection Hi as -> -> ->.
      rewrite tried_404 in Ht. injection Ht as <-. discriminate.
    + cbn in Hi. destruct (IH i a' c' Hi) as [Hlen Hres].
      split; [cbn [length]; lia | exact Hres].
  - destruct i as [| [| i]]; try discriminate.
    + cbn in Hi. injection Hi as -> -> ->.
      rewrite tried_404 in Ht. injection Ht as <-. discriminate.
    + cbn in Hi. destruct (IH i a' c' Hi) as [Hlen Hres].
      split; [cbn [length]; lia | exact Hres].
  - destruct i as [| i].
    + cbn in Hi. injection Hi as -> -> ->.
      rewrite tried_404 in Ht. injection Ht as <-. discriminate.
    + cbn in Hi. destruct (IH i a' c' Hi) as [Hlen Hres].
      split; [cbn [length]; lia | exact Hres].
Qed.

Local Abbreviation session_expired := (session_expired check finish).
Local Abbreviation one_refresh_per_expiry :=
  (one_refresh_per_expiry cfg check finish).

Lemma session_expired_inv (r : axios_result B) (e : error) :
  session_expired r -> tried r = Thrown e -> asks_for_refresh e = true.
Proof. intros (e' & Ht & Ha) Ht'. congruence. Qed.

Local Abbreviation login_follows := (login_follows cfg).

Lemma login_follows_shift {E} (e0 : event B) (evs : list (event B))
    (res expired : outcome R E) (i attempt : nat) (ok : bool) :
  login_follows evs res expired i attempt ok ->
  login_follows (e0 :: evs) res expired (S i) attempt ok.
Proof.
  intros (H1 & H2 & H3 & H4). split; [exact H1 |]. split; [exact H2 |].
  split; [| exact H4].
  intros Hok. destruct (H3 Hok) as [Hlen Hres].
  split; [cbn [length]; lia | exact Hres].
Qed.

Lemma login_follows_passed_on (evs : list (event B))
    (res : outcome R error) (msg : string) (i attempt : nat) (ok : bool) :
  login_follows evs res (Thrown (SessionExpired msg)) i attempt ok ->
  login_follows evs (CircuitBreaker.passed_on is_undefined res)
    (Thrown (CircuitBreaker.OperationError (SessionExpired msg)))
    i attempt ok.
Proof.
  intros (H1 & H2 & H3 & H4). split; [exact H1 |]. split; [exact H2 |].
  split; [| exact H4].
  intros Hok. destruct (H3 Hok) as [Hlen Hres].
  split; [exact Hlen | rewrite Hres; reflexivity].
Qed.

(** In a run of the loop every expired session gets one login. *)
Lemma loop_trace_refresh (endpoint : string) (attempt : nat)
    (evs : list (event B)) (res : outcome R error) :
  loop_trace endpoint attempt evs res ->
  one_refresh_per_expiry evs res
    (Thrown (SessionExpired (expired_message endpoint))).
Proof.
  induction 1 as [a e Hgt | a c r v Hle Ht | a c r e Hle Ht Ha H4
                 | a c r e Hle Ht Ha | a c r e evs res Hle Ht Ha Hrec IH
                 | a c r e ms evs res Hlt Ht Ha H4 Hrec IH
                 | a c r e evs res Heq Ht Ha H4 Hrec IH];
    intros i a' c' r' Hi Hexp.
  - discriminate.
  - destruct i; [| discriminate]. cbn in Hi. injection Hi as -> -> ->.
    destruct Hexp as (e' & Ht' & _). congruence.
  - destruct i; [| discriminate]. cbn in Hi. injection Hi as -> -> ->.
    pose proof (session_expired_inv _ _ Hexp Ht). congruence.
  - destruct i as [| [| i]]; try discriminate.
    cbn in Hi. injection Hi as -> -> ->.
    exists false. split; [reflexivity |]. split; [discriminate |].
    split; [| discriminate]. intros _. split; reflexivity.
  - destruct i as [| [| i]]; try discriminate.
    + cbn in Hi. injection Hi as -> -> ->.
      exists true. split; [reflexivity |]. split; [| split].
      * intros ok'. cbn.
        destruct (loop_trace_first _ _ _ _ Hrec) as [-> | (c2 & r2 & tl & ->)];
          discriminate.
      * discriminate.
      * intros _ Hlt. cbn.
        destruct (loop_trace_head _ _ _ _ Hrec) as (c2 & r2 & tl & ->);
          [lia |]. eauto.
    + cbn in Hi. destruct (IH i a' c' r' Hi Hexp) as (ok & Hok).
      exists ok. do 2 apply login_follows_shift. exact Hok.
  - destruct i as [| [| i]]; try discriminate.
    + cbn in Hi. injection Hi as -> -> ->.
      pose proof (session_expired_inv _ _ Hexp Ht). congruence.
    + cbn in Hi. destruct (IH i a' c' r' Hi Hexp) as (ok & Hok).
      exists ok. do 2 apply login_follows_shift. exact Hok.
  - destruct i as [| i].
    + cbn in Hi. injection Hi as -> -> ->.
      pose proof (session_expired_inv _ _ Hexp Ht). congruence.
    + cbn in Hi. destruct (IH i a' c' r' Hi Hexp) as (ok & Hok).
      exists ok. apply login_follows_shift. exact Hok.
Qed.

(** The closure handed to the breaker: at most one login ahead of the
    loop, then the loop. *)
Lemma attempt_all_trace (endpoint : string) (w : world B) :
  exists pre evs,
    (pre = [] \/ exists ok, pre = [ELogin ok]) /\
    trace (snd (attempt_all env cfg check finish empty expired_message
                            endpoint w))
    = trace w ++ pre ++ evs /\
    loop_trace endpoint 0 evs
      (fst (attempt_all env cfg check finish empty expired_message
                        endpoint w)).
Proof.
  unfold attempt_all.
  destruct (cookies_missing w).
  - destruct (attempts_loop_trace endpoint
                (Z.to_nat (maxRetries cfg + 1)) 0 None
                (snd (refreshCookies env w))) as (evs & Htr & Hshape);
      [lia |].
    exists [ELogin (fst (refreshCookies env w))], evs.
    split; [right; eauto |]. split; [| exact Hshape].
    rewrite Htr, trace_refreshCookies, <- app_assoc. reflexivity.
  - destruct (attempts_loop_trace endpoint
                (Z.to_nat (maxRetries cfg + 1)) 0 None w)
      as (evs & Htr & Hshape); [lia |].
    exists [], evs. split; [left; reflexivity |]. split; assumption.
Qed.

(** Both properties survive a login put in front. *)
Lemma not_found_is_final_pre {E} (pre evs : list (event B))
    (res : outcome R E) :
  (pre = [] \/ exists ok, pre = [ELogin ok]) ->
  not_found_is_final evs res empty ->
  not_found_is_final (pre ++ evs) res empty.
Proof.
  intros [-> | [ok ->]] H; [exact H |].
  intros [| i] a c Hi; [discriminate |].
  cbn in Hi. destruct (H i a c Hi) as [Hlen Hres].
  split; [cbn [app length]; lia | exact Hres].
Qed.

Lemma one_refresh_per_expiry_pre {E} (pre evs : list (event B))
    (res expired : outcome R E) :
  (pre = [] \/ exists ok, pre = [ELogin ok]) ->
  one_refresh_per_expiry evs res expired ->
  one_refresh_per_expiry (pre ++ evs) res expired.
Proof.
  intros [-> | [ok0 ->]] H; [exact H |].
  intros [| i] a c r Hi Hexp; [discriminate |].
  cbn in Hi. destruct (H i a c r Hi Hexp) as (ok & Hok).
  exists ok. apply login_follows_shift. exact Hok.
Qed.

(** What a request through the breaker leaves in the trace. *)
Lemma request_trace (b : CircuitBreaker.breaker) (endpoint : string)
    (w : world B) :
  let out := request env cfg check finish empty expired_message
                     b endpoint w in
  let evs := new_events w (snd (snd out)) in
  trace (snd (snd out)) = trace w ++ evs /\
  not_found_is_final evs (fst out) empty /\
  one_refresh_per_expiry evs (fst out)
    (Thrown (CircuitBreaker.OperationError
               (SessionExpired (expired_message endpoint)))).
Proof.
  cbn zeta. unfold request.
  set (fn := attempt_all env cfg check finish empty expired_message endpoint).
  destruct (BreakerFacts.execute_frame (Date_now env) is_undefined trace b fn
              (bump_requests w) (trace_Date_now env))
    as [[Htr [msg Hres]] | (w1 & Hw1 & Htr & Hres)].
  - cbn [trace bump_requests set_stat] in Htr.
    assert (Hev : trace (snd (snd (CircuitBreaker.execute (Date_now env) is_undefined b fn
                                     None (bump_requests w))))
                  = trace w ++ []) by (rewrite app_nil_r; exact Htr).
    rewrite (new_events_app _ _ _ Hev). split; [exact Hev |].
    split.
    + intros i a c Hi. discriminate.
    + intros i a c r Hi. discriminate.
  - cbn [trace bump_requests set_stat] in Hw1.
    subst fn.
    destruct (attempt_all_trace endpoint w1) as (pre & evs & Hpre & Hall & Hshape).
    assert (Hev : trace (snd (snd (CircuitBreaker.execute (Date_now env) is_undefined b
                     (attempt_all env cfg check finish empty
                                  expired_message endpoint)
                     None (bump_requests w))))
                  = trace w ++ (pre ++ evs)).
    { rewrite Htr, Hall, Hw1. reflexivity. }
    rewrite (new_events_app _ _ _ Hev). split; [exact Hev |].
    rewrite Hres. split.
    + apply not_found_is_final_pre; [exact Hpre |].
      intros i a c Hi.
      destruct (loop_trace_not_found _ _ _ _ Hshape i a c Hi) as [Hlen Hr].
      split; [exact Hlen |]. rewrite Hr. reflexivity.
    + apply one_refresh_per_expiry_pre; [exact Hpre |].
      intros i a c r Hi Hexp.
      destruct (loop_trace_refresh _ _ _ _ Hshape i a c r Hi Hexp)
        as (ok & Hok).
      exists ok. apply login_follows_passed_on. exact Hok.
Qed.

End Nsdl.

(** *** The shape of an expired session, endpoint by endpoint *)

Lemma session_expired_json (r : axios_result payload) :
  NsdlClient.session_expired NsdlClient.check_json NsdlClient.finish_json r
  <-> NsdlClient.forbidden_or_html_json r.
Proof.
  unfold NsdlClient.session_expired, NsdlClient.forbidden_or_html_json.
  split.
  - intros (e & Ht & Ha). destruct r as [[st dt] | st]; cbn in Ht.
    + unfold NsdlClient.check_json in Ht. cbn [status data] in Ht.
      destruct (Z.eqb_spec st 200) as [-> | Hne]; cbn [negb] in Ht.
      * destruct dt as [| s | rows | d1 d2 d3]; try discriminate.
        destruct (JsString.includes s "<html") eqn:Hhtml; [| discriminate].
        right. exists s. split; [reflexivity | exact Hhtml].
      * injection Ht as <-. discriminate.
    + injection Ht as <-. left.
      unfold NsdlClient.asks_for_refresh, status_is in Ha. cbn in Ha.
      destruct st as [z |]; [| discriminate].
      rewrite orb_false_r in Ha. apply Z.eqb_eq in Ha. subst. reflexivity.
  - intros [-> | (s & -> & Hhtml)].
    + exists (AxiosError (Some 403)). split; reflexivity.
    + exists HtmlSessionError. split; [| reflexivity].
      cbn. unfold NsdlClient.check_json. cbn. rewrite Hhtml. reflexivity.
Qed.

Lemma session_expired_excel (xlsx_rows : string -> option (list row))
    (r : axios_result string) :
  NsdlClient.session_expired NsdlClient.check_excel
    (NsdlClient.finish_excel xlsx_rows) r
  <-> NsdlClient.forbidden_or_html_excel r.
Proof.
  unfold NsdlClient.session_expired, NsdlClient.forbidden_or_html_excel.
  split.
  - intros (e & Ht & Ha). destruct r as [[st dt] | st]; cbn in Ht.
    + unfold NsdlClient.check_excel in Ht. cbn [status data] in Ht.
      destruct (Z.eqb_spec st 200) as [-> | Hne]; cbn [negb] in Ht.
      * destruct (JsString.includes dt "<html") eqn:Hhtml.
        -- right. exists dt. split; [reflexivity | exact Hhtml].
        -- unfold NsdlClient.finish_excel in Ht. cbn [data] in Ht.
           destruct (xlsx_rows dt); [discriminate |].
           injection Ht as <-. discriminate.
      * injection Ht as <-. discriminate.
    + injection Ht as <-. left.
      unfold NsdlClient.asks_for_refresh, status_is in Ha. cbn in Ha.
      destruct st as [z |]; [| discriminate].
      rewrite orb_false_r in Ha. apply Z.eqb_eq in Ha. subst. reflexivity.
  - intros [-> | (s & -> & Hhtml)].
    + exists (AxiosError (Some 403)). split; reflexivity.
    + exists HtmlSessionError. split; [| reflexivity].
      cbn. unfold NsdlClient.check_excel. cbn. rewrite Hhtml. reflexivity.
Qed.

(** *** The attempt loop of the IndiaBondInfo client *)

Section India.
Import IndiaBondInfoClient.
Variable env : environment payload.
Variable cfg : settings.

Lemma not_found_is_final_cons {R E} (e : event payload)
    (evs : list (event payload)) (res : outcome R E) (empty : R) :
  (forall attempt cookie, e <> EGet attempt cookie (Rejected (Some 404))) ->
  not_found_is_final evs res empty ->
  not_found_is_final (e :: evs) res empty.
Proof.
  intros He H [| i] a c Hi.
  - cbn in Hi. injection Hi as ->. exfalso. eapply He. reflexivity.
  - cbn in Hi. destruct (H i a c Hi) as [Hlen Hres].
    split; [cbn [length]; lia | exact Hres].
Qed.

Lemma not_found_is_final_nil {R E} (res : outcome R E) (empty : R) :
  not_found_is_final (@nil (event payload)) res empty.
Proof. intros i a c Hi. discriminate. Qed.

Lemma india_attempts_not_found (endpoint : string) (remaining : nat) :
  forall (attempt : nat) (lastError : option error) (w : world payload),
  exists evs,
    trace (snd (attempts env cfg endpoint remaining attempt lastError w))
    = trace w ++ evs /\
    not_found_is_final evs
      (fst (attempts env cfg endpoint remaining attempt lastError w)) PNull.
Proof.
  induction remaining as [| k IH]; intros attempt lastError w.
  - exists []. cbn. split; [rewrite app_nil_r; reflexivity |].
    apply not_found_is_final_nil.
  - cbn [attempts]. unfold Upstream.get. cbn [fst snd].
    pose proof (trace_waitForRateLimit env cfg w) as Hwait.
    destruct (_waitForRateLimit env cfg w) as [tk dr gt lg c1 c2 lrt st wt tr]
      eqn:Hw1.
    cbn [trace] in Hwait. subst tr. cbn [gets].
    set (r := server env gt endpoint "").
    assert (Hretry :
      forall e w2,
        trace w2 = trace w ++ [EGet attempt "" r] ->
        (forall a c, EGet attempt "" r <> EGet a c (Rejected (Some 404))) ->
        exists evs,
          trace (snd (attempts env cfg endpoint k (S attempt) (Some e)
                        (if Z.of_nat attempt <? maxRetries cfg
                         then backoff_wait env cfg attempt w2 else w2)))
          = trace w ++ evs /\
          not_found_is_final evs
            (fst (attempts env cfg endpoint k (S attempt) (Some e)
                    (if Z.of_nat attempt <? maxRetries cfg
                     then backoff_wait env cfg attempt w2 else w2))) PNull).
    { intros e w2 Hw2 Hne.
      destruct (Z.of_nat attempt <? maxRetries cfg).
      - destruct (trace_backoff_wait env cfg attempt w2) as [ms Hback].
        destruct (IH (S attempt) (Some e) (backoff_wait env cfg attempt w2))
          as (evs & Htr & Hfin).
        exists (EGet attempt "" r :: EBackoff ms :: evs). split.
        + rewrite Htr, Hback, Hw2, <- !app_assoc. reflexivity.
        + apply not_found_is_final_cons; [exact Hne |].
          apply not_found_is_final_cons; [discriminate | exact Hfin].
      - destruct (IH (S attempt) (Some e) w2) as (evs & Htr & Hfin).
        exists (EGet attempt "" r :: evs). split.
        + rewrite Htr, Hw2, <- !app_assoc. reflexivity.
        + apply not_found_is_final_cons; assumption. }
    destruct r as [response | st0] eqn:Hr.
    + destruct (negb (status response =? 200)).
      * cbn [status_is response_status_of].
        apply Hretry; [reflexivity | discriminate].
      * exists [EGet attempt "" (Resolved response)]. cbn [fst snd].
        split; [reflexivity |].
        apply not_found_is_final_cons; [discriminate |].
        apply not_found_is_final_nil.
    + unfold status_is. cbn [response_status_of].
      destruct st0 as [z |].
      * destruct (Z.eqb_spec z 404) as [-> | H404].
        -- exists [EGet attempt "" (Rejected (Some 404))]. cbn [fst snd].
           split; [reflexivity |].
           intros [| i] a c Hi; [| discriminate].
           split; reflexivity.
        -- assert (Hne : forall a c,
                     EGet attempt "" (@Rejected payload (Some z))
                     <> EGet a c (Rejected (Some 404))).
           { intros a c Heq. injection Heq as _ _ Hz. contradiction. }
           destruct (z =? 403).
           ++ exists [EGet attempt "" (Rejected (Some z))]. cbn [fst snd].
              split; [reflexivity |].
              apply not_found_is_final_cons; [exact Hne |].
              apply not_found_is_final_nil.
           ++ apply Hretry; [reflexivity | exact Hne].
      * apply Hretry; [reflexivity | discriminate].
Qed.

Lemma india_request_trace (b : CircuitBreaker.breaker) (endpoint : string)
    (w : world payload) :
  let out := _requestWithRetry env cfg b endpoint w in
  let evs := new_events w (snd (snd out)) in
  trace (snd (snd out)) = trace w ++ evs /\
  not_found_is_final evs (fst out) PNull.
Proof.
  cbn zeta. unfold _requestWithRetry.
  set (fn := attempt_all env cfg endpoint).
  destruct (BreakerFacts.execute_frame (Date_now env) is_undefined trace b fn
              (bump_requests w) (trace_Date_now env))
    as [[Htr [msg Hres]] | (w1 & Hw1 & Htr & Hres)].
  - cbn [trace bump_requests set_stat] in Htr.
    assert (Hev : trace (snd (snd (CircuitBreaker.execute (Date_now env) is_undefined b fn
                                     None (bump_requests w))))
                  = trace w ++ []) by (rewrite app_nil_r; exact Htr).
    rewrite (new_events_app _ _ _ Hev). split; [exact Hev |].
    apply not_found_is_final_nil.
  - cbn [trace bump_requests set_stat] in Hw1. subst fn.
    unfold attempt_all in *.
    destruct (india_attempts_not_found endpoint
                (Z.to_nat (maxRetries cfg + 1)) 0 None w1)
      as (evs & Hall & Hfin).
    assert (Hev : trace (snd (snd (CircuitBreaker.execute (Date_now env) is_undefined b
                     (fun w => attempts env cfg endpoint
                                 (Z.to_nat (maxRetries cfg + 1)) 0 None w)
                     None (bump_requests w))))
                  = trace w ++ evs).
    { rewrite Htr, Hall, Hw1. reflexivity. }
    rewrite (new_events_app _ _ _ Hev). split; [exact Hev |].
    rewrite Hres. intros i a c Hi.
    destruct (Hfin i a c Hi) as [Hlen Hr].
    split; [exact Hlen | rewrite Hr; reflexivity].
Qed.

End India.

(** *** The claims about the request executors *)

(** C9: in the attempt loop of every executor a 404 answer is never
    retried: the GET that received it is the last event of the request,
    and the request returns the empty result at once: the empty array
    from [_request] and [_requestExcel] of the NSDL client, [null] from
    [_requestWithRetry] of the IndiaBondInfo client. *)
Theorem not_found_returns_empty_without_retry :
  (forall env cfg b endpoint w,
      let out := NsdlClient._request env cfg b endpoint w in
      let evs := new_events w (snd (snd out)) in
      trace (snd (snd out)) = trace w ++ evs /\
      not_found_is_final evs (fst out) (PArray [])) /\
  (forall xlsx_rows env cfg b endpoint w,
      let out := NsdlClient._requestExcel xlsx_rows env cfg b endpoint w in
      let evs := new_events w (snd (snd out)) in
      trace (snd (snd out)) = trace w ++ evs /\
      not_found_is_final evs (fst out) []) /\
  (forall env cfg b endpoint w,
      let out := IndiaBondInfoClient._requestWithRetry env cfg b endpoint w in
      let evs := new_events w (snd (snd out)) in
      trace (snd (snd out)) = trace w ++ evs /\
      not_found_is_final evs (fst out) PNull).
Proof.
  split; [| split].
  - intros env cfg b endpoint w.
    destruct (request_trace env cfg NsdlClient.check_json
                NsdlClient.finish_json (PArray [])
                (fun endpoint => ("NSDL_SESSION_EXPIRED: " ++ endpoint)%string)
                b endpoint w) as (H1 & H2 & _).
    split; assumption.
  - intros xlsx_rows env cfg b endpoint w.
    destruct (request_trace env cfg NsdlClient.check_excel
                (NsdlClient.finish_excel xlsx_rows) []
                (fun endpoint =>
                   ("NSDL_SESSION_EXPIRED (Excel): " ++ endpoint)%string)
                b endpoint w) as (H1 & H2 & _).
    split; assumption.
  - intros env cfg b endpoint w. apply india_request_trace.
Qed.

Lemma not_found_returns_empty_without_retry_witness :
  fst Samples.run_404 = Returned (PArray []).
Proof.
  destruct not_found_returns_empty_without_retry as [H _].
  destruct (H Samples.env_404
              (NsdlClient.new_settings (Samples.nsdl_config 3))
              (NsdlClient.new_breaker (Samples.nsdl_config 3))
              "/issuerwise" Samples.world0) as [_ Hfin].
  destruct (Hfin 0%nat 0%nat "NL01dfc552=old1; NL1e619be7027=old2")
    as [_ Hres].
  - vm_compute. reflexivity.
  - exact Hres.
Defined.

(** C1, as the code has it: for every GET of the NSDL client answered by
    a 403, or by a 200 whose body includes the text [<html] (lower case,
    as the code looks for it), the executor runs the cookie refresh
    exactly once for that answer.  If the refresh fails,
    the request ends there with the session-expired error.  If it
    succeeds and attempts remain, the next GET goes out at once (no
    backoff between them) under the next attempt index: the refresh uses
    up one of the [maxRetries + 1] attempts. *)
Theorem expired_session_refreshed_once :
  (forall env cfg b endpoint w,
      let out := NsdlClient._request env cfg b endpoint w in
      let evs := new_events w (snd (snd out)) in
      trace (snd (snd out)) = trace w ++ evs /\
      forall i attempt cookie r,
        evs !! i = Some (EGet attempt cookie r) ->
        NsdlClient.forbidden_or_html_json r ->
        exists ok,
          NsdlClient.login_follows cfg evs (fst out)
            (Thrown (CircuitBreaker.OperationError
                       (SessionExpired
                          ("NSDL_SESSION_EXPIRED: " ++ endpoint)%string)))
            i attempt ok) /\
  (forall xlsx_rows env cfg b endpoint w,
      let out := NsdlClient._requestExcel xlsx_rows env cfg b endpoint w in
      let evs := new_events w (snd (snd out)) in
      trace (snd (snd out)) = trace w ++ evs /\
      forall i attempt cookie r,
        evs !! i = Some (EGet attempt cookie r) ->
        NsdlClient.forbidden_or_html_excel r ->
        exists ok,
          NsdlClient.login_follows cfg evs (fst out)
            (Thrown (CircuitBreaker.OperationError
                       (SessionExpired
                          ("NSDL_SESSION_EXPIRED (Excel): " ++ endpoint)%string)))
            i attempt ok).
Proof.
  split.
  - intros env cfg b endpoint w.
    destruct (request_trace env cfg NsdlClient.check_json
                NsdlClient.finish_json (PArray [])
                (fun endpoint => ("NSDL_SESSION_EXPIRED: " ++ endpoint)%string)
                b endpoint w) as (H1 & _ & H3).
    split; [exact H1 |].
    intros i attempt cookie r Hi Hr.
    apply (H3 i attempt cookie r Hi). apply session_expired_json. exact Hr.
  - intros xlsx_rows env cfg b endpoint w.
    destruct (request_trace env cfg NsdlClient.check_excel
                (NsdlClient.finish_excel xlsx_rows) []
                (fun endpoint =>
                   ("NSDL_SESSION_EXPIRED (Excel): " ++ endpoint)%string)
                b endpoint w) as (H1 & _ & H3).
    split; [exact H1 |].
    intros i attempt cookie r Hi Hr.
    apply (H3 i attempt cookie r Hi). apply session_expired_excel. exact Hr.
Qed.

Lemma expired_session_refreshed_once_witness :
  fst Samples.run_403_no_login =
  Thrown (CircuitBreaker.OperationError
            (SessionExpired "NSDL_SESSION_EXPIRED: /creditratingwise")).
Proof.
  destruct expired_session_refreshed_once as [H _].
  destruct (H Samples.env_403_no_login
              (NsdlClient.new_settings (Samples.nsdl_config 1))
              (NsdlClient.new_breaker (Samples.nsdl_config 1))
              "/creditratingwise" Samples.world0) as [_ Hlogin].
  destruct (Hlogin 0%nat 0%nat "NL01dfc552=old1; NL1e619be7027=old2"
              (Rejected (Some 403))) as (ok & H1 & _ & H3 & _).
  - vm_compute. reflexivity.
  - left. reflexivity.
  - assert (Hok : ok = false).
    { vm_compute in H1. injection H1 as <-. reflexivity. }
    destruct (H3 Hok) as [_ Hres]. exact Hres.
Defined.

(** C1, as stated, fails: with one retry configured, a 403 followed by a
    successful refresh is retried under attempt index 1, not 0, and that
    retry is the last attempt the request has. *)
Lemma refresh_consumes_an_attempt :
  new_events Samples.world0 (snd (snd Samples.run_403_then_500)) =
    [ EGet 0 "NL01dfc552=old1; NL1e619be7027=old2" (Rejected (Some 403));
      ELogin true;
      EGet 1 "NL01dfc552=fresh1; NL1e619be7027=fresh2" (Rejected (Some 500)) ]
  /\ fst Samples.run_403_then_500 =
     Thrown (CircuitBreaker.OperationError (AxiosError (Some 500)))
  /\ ~ NsdlClient.retries_same_attempt
         NsdlClient.check_json NsdlClient.finish_json
         (new_events Samples.world0 (snd (snd Samples.run_403_then_500))).
Proof.
  assert (Hev : new_events Samples.world0 (snd (snd Samples.run_403_then_500)) =
    [ EGet 0 "NL01dfc552=old1; NL1e619be7027=old2" (Rejected (Some 403));
      ELogin true;
      EGet 1 "NL01dfc552=fresh1; NL1e619be7027=fresh2" (Rejected (Some 500)) ])
    by (vm_compute; reflexivity).
  split; [exact Hev |]. split; [vm_compute; reflexivity |].
  rewrite Hev. intros Hsame.
  destruct (Hsame 0%nat 0%nat "NL01dfc552=old1; NL1e619be7027=old2"
              (Rejected (Some 403))) as (c' & r' & Hget).
  - reflexivity.
  - apply session_expired_json. left. reflexivity.
  - reflexivity.
  - cbn in Hget. discriminate.
Qed.

(** A 403 on the last attempt: the refresh runs and succeeds, yet no
    request follows it; the request ends with the 403 itself. *)
Example refresh_after_last_attempt :
  new_events Samples.world0 (snd (snd Samples.run_403_login_ok)) =
    [ EGet 0 "NL01dfc552=old1; NL1e619be7027=old2" (Rejected (Some 403));
      ELogin true;
      EGet 1 "NL01dfc552=fresh1; NL1e619be7027=fresh2" (Rejected (Some 403));
      ELogin true ]
  /\ fst Samples.run_403_login_ok =
     Thrown (CircuitBreaker.OperationError (AxiosError (Some 403))).
Proof. split; vm_compute; reflexivity. Qed.

(** The test for a page is [includes('<html')], which tells upper case
    from lower: a 200 with a page in upper-case tags counts as a success,
    no login runs, and the page is returned as the data. *)
Example upper_case_page_returned :
  new_events Samples.world0 (snd (snd Samples.run_upper_case_page)) =
    [ EGet 0 "NL01dfc552=old1; NL1e619be7027=old2"
        (Resolved {| status := 200;
                     data := PText Samples.upper_case_page |}) ]
  /\ fst Samples.run_upper_case_page
     = Returned (PText Samples.upper_case_page).
Proof. split; vm_compute; reflexivity. Qed.

(** With [maxRetries] below zero the loop makes no attempt and the
    operation rejects with [undefined]: the request ends in the
    [TypeError] of the breaker's log line, and the breaker, whose
    threshold is 1, has counted the failure and is still CLOSED. *)
Example no_attempt_ends_in_type_error :
  fst Samples.run_no_attempt = Thrown CircuitBreaker.TypeError /\
  new_events Samples.world0 (snd (snd Samples.run_no_attempt)) = [] /\
  (let b := fst (snd Samples.run_no_attempt) in
   CircuitBreaker.failures b = 1 /\
   CircuitBreaker.failureThreshold b = 1 /\
   CircuitBreaker.state b = CircuitBreaker.CLOSED).
Proof. vm_compute. repeat split. Qed.

End ClientFacts.

(** ** Laws of the request loops *)

Module ClientLaws.
Import Upstream.
Local Open Scope Z_scope.
Local Open Scope list_scope.

(** *** Reading a trace *)

Section Traces.
Context {B : Type}.

Lemma answers_app (a b : list (event B)) :
  answers (a ++ b) = answers a ++ answers b.
Proof.
  induction a as [| [att c r | ok | ms] a IH]; cbn; congruence.
Qed.

Lemma attempt_numbers_app (a b : list (event B)) :
  attempt_numbers (a ++ b) = attempt_numbers a ++ attempt_numbers b.
Proof.
  induction a as [| [att c r | ok | ms] a IH]; cbn; congruence.
Qed.

Lemma backoff_after_get_nil (cfg : settings) :
  backoff_after_get cfg (@nil (event B)).
Proof. intros i ms Hi. discriminate. Qed.

Lemma backoff_after_get_cons (cfg : settings) (e : event B)
    (evs : list (event B)) :
  (forall ms, e <> EBackoff ms) ->
  backoff_after_get cfg evs -> backoff_after_get cfg (e :: evs).
Proof.
  intros He H [| i] ms Hi; cbn in Hi.
  - injection Hi as ->. exfalso. apply (He ms). reflexivity.
  - destruct (H i ms Hi) as (j & a & c & r & -> & Hj & Ha & Hms).
    exists (S j), a, c, r. auto.
Qed.

Lemma backoff_after_get_pause (cfg : settings) (attempt : nat)
    (cookie : string) (r : axios_result B) (ms : Z)
    (evs : list (event B)) :
  Z.of_nat attempt < maxRetries cfg ->
  baseBackoffMs cfg * 2 ^ Z.of_nat attempt <= ms
  < baseBackoffMs cfg * 2 ^ Z.of_nat attempt + 1000 ->
  backoff_after_get cfg evs ->
  backoff_after_get cfg (EGet attempt cookie r :: EBackoff ms :: evs).
Proof.
  intros Ha Hms H [| [| i]] ms' Hi; cbn in Hi.
  - discriminate.
  - injection Hi as <-. exists 0%nat, attempt, cookie, r. auto.
  - destruct (H i ms' Hi) as (j & a & c & r' & -> & Hj & Ha' & Hms').
    exists (S (S j)), a, c, r'. auto.
Qed.

Lemma backoff_after_get_pre (cfg : settings) (pre evs : list (event B)) :
  (pre = [] \/ exists ok, pre = [ELogin ok]) ->
  backoff_after_get cfg evs -> backoff_after_get cfg (pre ++ evs).
Proof.
  intros [-> | [ok ->]] H; [exact H |].
  apply backoff_after_get_cons; [discriminate | exact H].
Qed.

Variable env : environment B.

(** The pause before the next attempt: one event, with the delay
    the attempt number and the draw give. *)
Lemma backoff_wait_trace (cfg : settings) (attempt : nat) (w : world B) :
  trace (backoff_wait env cfg attempt w)
  = trace w
      ++ [EBackoff (baseBackoffMs cfg * 2 ^ Z.of_nat attempt
                    + random_below env (draws w) 1000)].
Proof. reflexivity. Qed.

End Traces.

(** *** [nsdlClient.js] *)

Section Nsdl.
Import NsdlClient.
Context {B R : Type}.
Variable env : environment B.
Variable cfg : settings.
Variable check : response B -> option error.
Variable finish : response B -> outcome R error.
Variable empty : R.
Variable expired_message : string -> string.

Local Abbreviation attempts :=
  (attempts env cfg check finish empty expired_message).
Local Abbreviation tried := (tried check finish).
Local Abbreviation request :=
  (request env cfg check finish empty expired_message).
Local Abbreviation attempt_all :=
  (attempt_all env cfg check finish empty expired_message).

Local Abbreviation random_in_range :=
  (forall n, 0 <= random_below env n 1000 < 1000).

(** What one run of the loop leaves behind. *)
Lemma attempts_run (endpoint : string) (remaining : nat) :
  forall (attempt : nat) (lastError : option error) (w : world B),
  exists evs,
    trace (snd (attempts endpoint remaining attempt lastError w))
    = trace w ++ evs /\
    (remaining = 0%nat -> evs = []) /\
    attempt_numbers evs = seq attempt (length (answers evs)) /\
    (length (answers evs) <= remaining)%nat /\
    (forall e,
        fst (attempts endpoint remaining attempt lastError w) = Thrown e ->
        e = SessionExpired (expired_message endpoint) \/
        (exists r, last (answers evs) = Some r /\ tried r = Thrown e) \/
        (remaining = 0%nat /\ e = default ThrownUndefined lastError)) /\
    (random_in_range -> backoff_after_get cfg evs).
Proof.
  induction remaining as [| k IH]; intros attempt lastError w.
  - exists []. cbn. rewrite app_nil_r.
    split; [reflexivity |]. split; [reflexivity |].
    split; [reflexivity |]. split; [lia |].
    split; [| intros _; apply backoff_after_get_nil].
    intros e He. injection He as <-. right. right. auto.
  - rewrite (ClientFacts.attempts_S env cfg check finish empty
               expired_message).
    destruct (ClientFacts.trace_after_get env cfg check endpoint attempt w)
      as [cookie Hget].
    destruct (NsdlClient.after_get env cfg check endpoint attempt w)
      as [r w1].
    cbn [fst snd] in Hget.
    assert (Hnext :
      forall (mid : list (event B)) (error : error) (w2 : world B),
        tried r = Thrown error ->
        trace w2 = trace w1 ++ mid ->
        answers mid = [] -> attempt_numbers mid = [] ->
        (random_in_range ->
         forall evs', backoff_after_get cfg evs' ->
                      backoff_after_get cfg
                        (EGet attempt cookie r :: mid ++ evs')) ->
        exists evs,
          trace (snd (attempts endpoint k (S attempt) (Some error) w2))
          = trace w ++ evs /\
          (S k = 0%nat -> evs = []) /\
          attempt_numbers evs = seq attempt (length (answers evs)) /\
          (length (answers evs) <= S k)%nat /\
          (forall e,
              fst (attempts endpoint k (S attempt) (Some error) w2)
              = Thrown e ->
              e = SessionExpired (expired_message endpoint) \/
              (exists r, last (answers evs) = Some r /\
                         tried r = Thrown e) \/
              (S k = 0%nat /\ e = default ThrownUndefined lastError)) /\
          (random_in_range -> backoff_after_get cfg evs)).
    { intros mid error w2 Herr Hw2 Hans Hnum Hback.
      destruct (IH (S attempt) (Some error) w2)
        as (evs' & Htr & Hnil & Hseq & Hlen & Hthrown & Hb).
      exists (EGet attempt cookie r :: mid ++ evs').
      split; [rewrite Htr, Hw2, Hget, <- !app_assoc; reflexivity |].
      split; [discriminate |].
      cbn [answers attempt_numbers length].
      rewrite answers_app, attempt_numbers_app, Hans, Hnum.
      cbn [app seq]. split; [rewrite Hseq; reflexivity |].
      split; [lia |].
      split; [| intros Hr; apply (Hback Hr), Hb, Hr].
      intros e He. destruct (Hthrown e He) as [-> | [(r' & Hl & Ht) | [-> ->]]].
      - left. reflexivity.
      - right. left. exists r'. split; [| exact Ht].
        destruct (answers evs') as [| x xs]; [discriminate Hl |].
        exact Hl.
      - right. left. exists r. rewrite (Hnil eq_refl). cbn.
        split; [reflexivity | exact Herr]. }
    assert (Hone :
      exists evs,
        trace w1 = trace w ++ evs /\
        (S k = 0%nat -> evs = []) /\
        attempt_numbers evs = seq attempt (length (answers evs)) /\
        (length (answers evs) <= S k)%nat /\
        backoff_after_get cfg evs).
    { exists [EGet attempt cookie r]. split; [exact Hget |].
      split; [discriminate |]. split; [reflexivity |].
      split; [cbn; lia |].
      apply backoff_after_get_cons; [discriminate |].
      apply backoff_after_get_nil. }
    destruct (tried r) as [v | error] eqn:Htried.
    + destruct Hone as (evs & H1 & H2 & H3 & H4 & H5).
      exists evs. cbn [fst snd]. repeat (split; [assumption |]).
      split; [| intros _; exact H5]. intros e He. discriminate He.
    + destruct (asks_for_refresh error).
      * pose proof (ClientFacts.trace_refreshCookies env w1) as Hlogin.
        destruct (refreshCookies env w1) as [[] w2]; cbn [fst snd] in *.
        -- apply (Hnext [ELogin true] error w2 eq_refl Hlogin
                    eq_refl eq_refl).
           intros _ evs' Hb.
           apply backoff_after_get_cons; [discriminate |].
           apply backoff_after_get_cons; [discriminate | exact Hb].
        -- exists [EGet attempt cookie r; ELogin false].
           split; [cbn; rewrite Hlogin, Hget, <- app_assoc; reflexivity |].
           split; [discriminate |]. split; [reflexivity |].
           split; [cbn; lia |]. split.
           ++ intros e He. injection He as <-. left. reflexivity.
           ++ intros _. apply backoff_after_get_cons; [discriminate |].
              apply backoff_after_get_cons; [discriminate |].
              apply backoff_after_get_nil.
      * destruct (status_is error 404).
        -- destruct Hone as (evs & H1 & H2 & H3 & H4 & H5).
           exists evs. cbn [fst snd]. repeat (split; [assumption |]).
           split; [| intros _; exact H5]. intros e He. discriminate He.
        -- destruct (Z.ltb_spec (Z.of_nat attempt) (maxRetries cfg))
             as [Hlt | _].
           ++ apply (Hnext [EBackoff _] error _ eq_refl
                       (backoff_wait_trace env cfg attempt w1)
                       eq_refl eq_refl).
              intros Hr evs' Hb.
              apply backoff_after_get_pause;
                [exact Hlt | | exact Hb].
              specialize (Hr (draws w1)). lia.
           ++ apply (Hnext [] error w1 eq_refl);
                [rewrite app_nil_r; reflexivity
                | reflexivity | reflexivity |].
              intros _ evs' Hb.
              apply backoff_after_get_cons; [discriminate | exact Hb].
Qed.

Lemma answers_pre (pre evs : list (event B)) :
  (pre = [] \/ exists ok, pre = [ELogin ok]) ->
  answers (pre ++ evs) = answers evs /\
  attempt_numbers (pre ++ evs) = attempt_numbers evs.
Proof. intros [-> | [ok ->]]; split; reflexivity. Qed.

(** What one request through the breaker leaves behind. *)
Lemma request_run (b : CircuitBreaker.breaker) (endpoint : string)
    (w : world B) :
  let out := request b endpoint w in
  let evs := new_events w (snd (snd out)) in
  (exists k, attempt_numbers evs = seq 0 k /\
             (k <= Z.to_nat (maxRetries cfg + 1))%nat) /\
  (0 <= maxRetries cfg ->
   forall e,
     fst out = Thrown (CircuitBreaker.OperationError e) ->
     e = SessionExpired (expired_message endpoint) \/
     exists r, last (answers evs) = Some r /\ tried r = Thrown e) /\
  (random_in_range -> backoff_after_get cfg evs).
Proof.
  cbn zeta. unfold NsdlClient.request.
  set (fn := attempt_all endpoint).
  destruct (BreakerFacts.execute_frame (Date_now env) is_undefined trace b fn
              (bump_requests w) (ClientFacts.trace_Date_now env))
    as [[Htr [msg Hres]] | (w1 & Hw1 & Htr & Hres)].
  - cbn [trace bump_requests set_stat] in Htr.
    assert (Hev : trace (snd (snd (CircuitBreaker.execute (Date_now env) is_undefined b fn
                                     None (bump_requests w))))
                  = trace w ++ []) by (rewrite app_nil_r; exact Htr).
    rewrite (ClientFacts.new_events_app _ _ _ Hev).
    split; [exists 0%nat; split; [reflexivity | lia] |].
    split; [| intros _; apply backoff_after_get_nil].
    intros _ e He. rewrite Hres in He. discriminate He.
  - cbn [trace bump_requests set_stat] in Hw1. subst fn.
    unfold NsdlClient.attempt_all in *.
    set (w2 := if cookies_missing w1 then snd (refreshCookies env w1)
               else w1) in *.
    assert (Hpre : exists pre,
               (pre = [] \/ exists ok, pre = [ELogin ok]) /\
               trace w2 = trace w ++ pre).
    { subst w2. destruct (cookies_missing w1).
      - exists [ELogin (fst (refreshCookies env w1))].
        split; [right; eauto |].
        rewrite ClientFacts.trace_refreshCookies, Hw1. reflexivity.
      - exists []. split; [left; reflexivity |].
        rewrite app_nil_r. exact Hw1. }
    destruct Hpre as (pre & Hpre & Hw2).
    destruct (attempts_run endpoint (Z.to_nat (maxRetries cfg + 1)) 0 None w2)
      as (evs & Hall & Hnil & Hseq & Hlen & Hthrown & Hback).
    assert (Hev : trace (snd (snd (CircuitBreaker.execute (Date_now env) is_undefined b
                     (fun w => attempts endpoint
                                 (Z.to_nat (maxRetries cfg + 1)) 0 None
                                 (if cookies_missing w
                                  then snd (refreshCookies env w) else w))
                     None (bump_requests w))))
                  = trace w ++ (pre ++ evs)).
    { rewrite Htr. fold w2. rewrite Hall, Hw2, <- app_assoc. reflexivity. }
    rewrite (ClientFacts.new_events_app _ _ _ Hev).
    destruct (answers_pre pre evs Hpre) as [Hans Hnum].
    rewrite Hans, Hnum, Hres. fold w2.
    split; [exists (length (answers evs)); split; assumption |].
    split.
    + intros Hmax e He.
      assert (He' : fst (attempts endpoint (Z.to_nat (maxRetries cfg + 1))
                           0 None w2) = Thrown e).
      { destruct (fst (attempts _ _ _ _ w2)) as [v | e0]; cbn in He;
          [discriminate He |].
        destruct (is_undefined e0); [discriminate He |].
        injection He as ->. reflexivity. }
      destruct (Hthrown e He') as [-> | [Hex | [Hz _]]];
        [left; reflexivity | right; exact Hex | lia].
    + intros Hr. apply backoff_after_get_pre; [exact Hpre | exact (Hback Hr)].
Qed.

(** One request makes at most [maxRetries + 1] GETs, and they go out
    under the attempt numbers 0, 1, 2, ... without a gap: a cookie
    refresh uses up a number like any other failed attempt. *)
Theorem request_attempts_numbered (b : CircuitBreaker.breaker)
    (endpoint : string) (w : world B) :
  exists k,
    attempt_numbers
      (new_events w (snd (snd (request b endpoint w)))) = seq 0 k /\
    (k <= Z.to_nat (maxRetries cfg + 1))%nat.
Proof. apply (request_run b endpoint w). Qed.

(** What a request throws, when it is not the breaker's own error, is
    the session-expired error of a failed login or the error of the
    last GET that went out: earlier errors are dropped. *)
Theorem thrown_error_is_last_answer (b : CircuitBreaker.breaker)
    (endpoint : string) (w : world B) (e : error) :
  0 <= maxRetries cfg ->
  fst (request b endpoint w) = Thrown (CircuitBreaker.OperationError e) ->
  e = SessionExpired (expired_message endpoint) \/
  exists r,
    last (answers (new_events w (snd (snd (request b endpoint w)))))
    = Some r /\
    tried r = Thrown e.
Proof. intros Hmax. apply (request_run b endpoint w), Hmax. Qed.

(** The pauses between attempts grow exponentially: the pause after
    attempt [n] lasts [baseBackoffMs * 2^n] plus a jitter below one
    second, and no pause follows the last attempt. *)
Theorem backoff_is_exponential (b : CircuitBreaker.breaker)
    (endpoint : string) (w : world B) :
  (forall n, 0 <= random_below env n 1000 < 1000) ->
  backoff_after_get cfg
    (new_events w (snd (snd (request b endpoint w)))).
Proof. apply (request_run b endpoint w). Qed.

(** While the breaker is open and the retry time has not come, a
    request reaches neither the upstream nor the login: it throws the
    breaker's error at once, leaves no event and no wait, and counts
    as a request only. *)
Theorem open_breaker_spares_upstream (b : CircuitBreaker.breaker)
    (endpoint : string) (w : world B) (retryAt : Z) :
  CircuitBreaker.state b = CircuitBreaker.OPEN ->
  CircuitBreaker.nextRetryTime b = Some retryAt ->
  clock env (ticks w) < retryAt ->
  let out := request b endpoint w in
  fst out
  = Thrown (CircuitBreaker.CircuitBreakerError
              "Circuit breaker is OPEN — upstream API unavailable") /\
  CircuitBreaker.state (fst (snd out)) = CircuitBreaker.OPEN /\
  new_events w (snd (snd out)) = [] /\
  gets (snd (snd out)) = gets w /\
  logins (snd (snd out)) = logins w /\
  waited (snd (snd out)) = waited w /\
  stat (snd (snd out))
  = {| requests := requests (stat w) + 1;
       successes := successes (stat w);
       failures := failures (stat w);
       retries := retries (stat w) |}.
Proof.
  intros Hs Hnext Hlt. cbn zeta. unfold NsdlClient.request.
  rewrite (BreakerFacts.execute_rejected (Date_now env) is_undefined b _
             (bump_requests w) (tick (bump_requests w))
             (clock env (ticks w)) Hs eq_refl)
    by (rewrite Hnext; exact Hlt).
  cbn [fst snd]. split; [reflexivity |]. split; [exact Hs |].
  split; [| repeat split].
  unfold new_events. cbn. apply drop_all.
Qed.

End Nsdl.

Lemma thrown_error_is_last_answer_witness :
  AxiosError (Some 500)
  = SessionExpired ("NSDL_SESSION_EXPIRED: " ++ "/creditratingwise")%string \/
  exists r,
    last (answers (new_events Samples.world0
                     (snd (snd Samples.run_403_then_500)))) = Some r /\
    NsdlClient.tried NsdlClient.check_json NsdlClient.finish_json r
    = Thrown (AxiosError (Some 500)).
Proof.
  apply (thrown_error_is_last_answer
           Samples.env_403_then_500
           (NsdlClient.new_settings (Samples.nsdl_config 1))
           NsdlClient.check_json NsdlClient.finish_json (PArray [])
           (fun endpoint => ("NSDL_SESSION_EXPIRED: " ++ endpoint)%string)
           (NsdlClient.new_breaker (Samples.nsdl_config 1))
           "/creditratingwise" Samples.world0 (AxiosError (Some 500))).
  - vm_compute. discriminate.
  - vm_compute. reflexivity.
Defined.

Lemma backoff_is_exponential_witness :
  backoff_after_get
    (NsdlClient.new_settings (Samples.nsdl_config 3))
    (new_events Samples.world0
       (snd (snd (NsdlClient._request
                    Samples.env_403_then_500
                    (NsdlClient.new_settings (Samples.nsdl_config 3))
                    (NsdlClient.new_breaker (Samples.nsdl_config 3))
                    "/creditratingwise" Samples.world0)))).
Proof.
  apply (backoff_is_exponential
           Samples.env_403_then_500
           (NsdlClient.new_settings (Samples.nsdl_config 3))
           NsdlClient.check_json NsdlClient.finish_json (PArray [])
           (fun endpoint => ("NSDL_SESSION_EXPIRED: " ++ endpoint)%string)).
  intros n. cbn. lia.
Defined.

Lemma open_breaker_spares_upstream_witness :
  let out :=
    NsdlClient._request
      Samples.env_403_then_500
      (NsdlClient.new_settings (Samples.nsdl_config 3))
      Samples.tripped "/creditratingwise" Samples.world0 in
  fst out
  = Thrown (CircuitBreaker.CircuitBreakerError
              "Circuit breaker is OPEN — upstream API unavailable") /\
  CircuitBreaker.state (fst (snd out)) = CircuitBreaker.OPEN /\
  new_events Samples.world0 (snd (snd out)) = [] /\
  gets (snd (snd out)) = gets (@Samples.world0 payload) /\
  logins (snd (snd out)) = logins (@Samples.world0 payload) /\
  waited (snd (snd out)) = waited (@Samples.world0 payload) /\
  stat (snd (snd out))
  = {| requests := requests (stat (@Samples.world0 payload)) + 1;
       successes := successes (stat (@Samples.world0 payload));
       failures := failures (stat (@Samples.world0 payload));
       retries := retries (stat (@Samples.world0 payload)) |}.
Proof.
  apply (open_breaker_spares_upstream
           Samples.env_403_then_500
           (NsdlClient.new_settings (Samples.nsdl_config 3))
           NsdlClient.check_json NsdlClient.finish_json (PArray [])
           (fun endpoint => ("NSDL_SESSION_EXPIRED: " ++ endpoint)%string)
           Samples.tripped "/creditratingwise" Samples.world0 61000).
  - vm_compute. reflexivity.
  - vm_compute. reflexivity.
  - vm_compute. reflexivity.
Defined.

(** *** [client.js] *)

Section India.
Import IndiaBondInfoClient.
Variable env : environment payload.
Variable cfg : settings.

Lemma forbidden_is_final_cons {R E} (e : event payload)
    (evs : list (event payload)) (res : outcome R E) (blocked : E) :
  (forall attempt cookie, e <> EGet attempt cookie (Rejected (Some 403))) ->
  forbidden_is_final evs res blocked ->
  forbidden_is_final (e :: evs) res blocked.
Proof.
  intros He H [| i] a c Hi.
  - cbn in Hi. injection Hi as ->. exfalso. eapply He. reflexivity.
  - cbn in Hi. destruct (H i a c Hi) as [Hlen Hres].
    split; [cbn [length]; lia | exact Hres].
Qed.

Lemma forbidden_is_final_nil {R E} (res : outcome R E) (blocked : E) :
  forbidden_is_final (@nil (event payload)) res blocked.
Proof. intros i a c Hi. discriminate. Qed.

Lemma india_attempts_forbidden (endpoint : string) (remaining : nat) :
  forall (attempt : nat) (lastError : option error) (w : world payload),
  exists evs,
    trace (snd (attempts env cfg endpoint remaining attempt lastError w))
    = trace w ++ evs /\
    forbidden_is_final evs
      (fst (attempts env cfg endpoint remaining attempt lastError w))
      (AxiosError (Some 403)) /\
    (forall i ok, evs !! i <> Some (ELogin ok)).
Proof.
  induction remaining as [| k IH]; intros attempt lastError w.
  - exists []. cbn. split; [rewrite app_nil_r; reflexivity |].
    split; [apply forbidden_is_final_nil | intros i ok; discriminate].
  - cbn [attempts]. unfold Upstream.get. cbn [fst snd].
    pose proof (ClientFacts.trace_waitForRateLimit env cfg w) as Hwait.
    destruct (_waitForRateLimit env cfg w) as [tk dr gt lg c1 c2 lrt st wt tr]
      eqn:Hw1.
    cbn [trace] in Hwait. subst tr. cbn [gets].
    set (r := server env gt endpoint "").
    assert (Hone :
      forall res : outcome payload error,
        (forall a c, EGet attempt "" r <> EGet a c (Rejected (Some 403))) ->
        forbidden_is_final [EGet attempt "" r] res (AxiosError (Some 403)) /\
        (forall i ok, [EGet attempt "" r] !! i <> Some (ELogin ok))).
    { intros res Hne. split.
      - apply forbidden_is_final_cons; [exact Hne |].
        apply forbidden_is_final_nil.
      - intros [| [| i]] ok; discriminate. }
    assert (Hretry :
      forall e w2,
        trace w2 = trace w ++ [EGet attempt "" r] ->
        (forall a c, EGet attempt "" r <> EGet a c (Rejected (Some 403))) ->
        exists evs,
          trace (snd (attempts env cfg endpoint k (S attempt) (Some e)
                        (if Z.of_nat attempt <? maxRetries cfg
                         then backoff_wait env cfg attempt w2 else w2)))
          = trace w ++ evs /\
          forbidden_is_final evs
            (fst (attempts env cfg endpoint k (S attempt) (Some e)
                    (if Z.of_nat attempt <? maxRetries cfg
                     then backoff_wait env cfg attempt w2 else w2)))
            (AxiosError (Some 403)) /\
          (forall i ok, evs !! i <> Some (ELogin ok))).
    { intros e w2 Hw2 Hne.
      destruct (Z.of_nat attempt <? maxRetries cfg).
      - destruct (IH (S attempt) (Some e) (backoff_wait env cfg attempt w2))
          as (evs & Htr & Hfin & Hlog).
        exists (EGet attempt "" r
                  :: EBackoff (baseBackoffMs cfg * 2 ^ Z.of_nat attempt
                               + random_below env (draws w2) 1000)
                  :: evs).
        split; [| split].
        + rewrite Htr, backoff_wait_trace, Hw2, <- !app_assoc. reflexivity.
        + apply forbidden_is_final_cons; [exact Hne |].
          apply forbidden_is_final_cons; [discriminate | exact Hfin].
        + intros [| [| i]] ok; [discriminate | discriminate |].
          apply (Hlog i ok).
      - destruct (IH (S attempt) (Some e) w2) as (evs & Htr & Hfin & Hlog).
        exists (EGet attempt "" r :: evs). split; [| split].
        + rewrite Htr, Hw2, <- !app_assoc. reflexivity.
        + apply forbidden_is_final_cons; assumption.
        + intros [| i] ok; [discriminate |]. apply (Hlog i ok). }
    destruct r as [response | st0] eqn:Hr.
    + destruct (negb (status response =? 200)).
      * cbn [status_is response_status_of].
        apply Hretry; [reflexivity | discriminate].
      * exists [EGet attempt "" (Resolved response)]. cbn [fst snd].
        split; [reflexivity |]. apply Hone. discriminate.
    + unfold status_is. cbn [response_status_of].
      destruct st0 as [z |].
      * destruct (Z.eqb_spec z 404) as [-> | H404].
        -- exists [EGet attempt "" (Rejected (Some 404))]. cbn [fst snd].
           split; [reflexivity |]. apply Hone. discriminate.
        -- destruct (Z.eqb_spec z 403) as [-> | H403].
           ++ exists [EGet attempt "" (Rejected (Some 403))].
              cbn [fst snd]. split; [reflexivity |]. split.
              ** intros [| i] a c Hi; [| discriminate].
                 split; reflexivity.
              ** intros [| [| i]] ok; discriminate.
           ++ apply Hretry; [reflexivity |].
              intros a c Heq. injection Heq as _ _ Hz. contradiction.
      * apply Hretry; [reflexivity | discriminate].
Qed.

(** The public client stops at the first 403: the GET that was
    answered 403 is the last thing the request does, the 403 error is
    what it throws, and it never logs in.  (The NSDL client answers a
    403 with a login and goes on.) *)
Theorem india_forbidden_is_final (b : CircuitBreaker.breaker)
    (endpoint : string) (w : world payload) :
  let out := _requestWithRetry env cfg b endpoint w in
  let evs := new_events w (snd (snd out)) in
  forbidden_is_final evs (fst out)
    (CircuitBreaker.OperationError (AxiosError (Some 403))) /\
  (forall i ok, evs !! i <> Some (ELogin ok)).
Proof.
  cbn zeta. unfold _requestWithRetry.
  set (fn := attempt_all env cfg endpoint).
  destruct (BreakerFacts.execute_frame (Date_now env) is_undefined trace b fn
              (bump_requests w) (ClientFacts.trace_Date_now env))
    as [[Htr [msg Hres]] | (w1 & Hw1 & Htr & Hres)].
  - cbn [trace bump_requests set_stat] in Htr.
    assert (Hev : trace (snd (snd (CircuitBreaker.execute (Date_now env) is_undefined b fn
                                     None (bump_requests w))))
                  = trace w ++ []) by (rewrite app_nil_r; exact Htr).
    rewrite (ClientFacts.new_events_app _ _ _ Hev).
    split; [apply forbidden_is_final_nil | intros i ok; discriminate].
  - cbn [trace bump_requests set_stat] in Hw1. subst fn.
    unfold attempt_all in *.
    destruct (india_attempts_forbidden endpoint
                (Z.to_nat (maxRetries cfg + 1)) 0 None w1)
      as (evs & Hall & Hfin & Hlog).
    assert (Hev : trace (snd (snd (CircuitBreaker.execute (Date_now env) is_undefined b
                     (fun w => attempts env cfg endpoint
                                 (Z.to_nat (maxRetries cfg + 1)) 0 None w)
                     None (bump_requests w))))
                  = trace w ++ evs).
    { rewrite Htr, Hall, Hw1. reflexivity. }
    rewrite (ClientFacts.new_events_app _ _ _ Hev).
    split; [| exact Hlog].
    rewrite Hres. intros i a c Hi.
    destruct (Hfin i a c Hi) as [Hlen Hr].
    split; [exact Hlen | rewrite Hr; reflexivity].
Qed.

End India.

(** *** Reading all pages *)

Section Pages.
Import IndiaBondInfoClient.

Lemma pages_from (all : list row) (status : string) (pageSize : Z)
    (E : Type) :
  1 <= pageSize ->
  forall (fuel : nat) (allRecords : list row) (page : Z)
         (requested : list Z),
    1 <= page ->
    (length (drop (Z.to_nat ((page - 1) * pageSize)) all) < fuel)%nat ->
    getAllListedSecurities_from (@paged_upstream E all) fuel allRecords
                                page status pageSize requested
    = Some (Returned
              (allRecords ++ drop (Z.to_nat ((page - 1) * pageSize)) all),
            requested
              ++ map Z.of_nat
                   (seq (Z.to_nat page)
                        (length (drop (Z.to_nat ((page - 1) * pageSize))
                                      all)
                         / Z.to_nat pageSize + 1))).
Proof.
  intros Hsize. induction fuel as [| fuel IH];
    intros allRecords page requested Hpage Hfuel; [lia |].
  cbn [getAllListedSecurities_from]. unfold paged_upstream at 1.
  unfold page_of.
  set (rest := drop (Z.to_nat ((page - 1) * pageSize)) all) in *.
  set (n := Z.to_nat pageSize).
  assert (Hn : (1 <= n)%nat) by (subst n; lia).
  assert (Hlen : length (take n rest) = Nat.min n (length rest))
    by apply length_take.
  destruct (Nat.eqb_spec (length (take n rest)) 0) as [Hz | Hnz].
  - assert (Hrest : rest = []).
    { destruct rest; [reflexivity |]. cbn in Hlen, Hz. lia. }
    rewrite Hrest, app_nil_r. cbn [length].
    rewrite Nat.Div0.div_0_l. cbn [Nat.add seq map].
    rewrite Z2Nat.id by lia. reflexivity.
  - destruct (Z.ltb_spec (Z.of_nat (length (take n rest))) pageSize)
      as [Hshort | Hfull].
    + assert (Hlt : (length rest < n)%nat) by (subst n; lia).
      rewrite take_ge by lia.
      rewrite Nat.div_small by exact Hlt. cbn [Nat.add seq map].
      rewrite Z2Nat.id by lia. reflexivity.
    + assert (Hge : (n <= length rest)%nat) by (subst n; lia).
      assert (Hoff : Z.to_nat ((page + 1 - 1) * pageSize)
                     = (Z.to_nat ((page - 1) * pageSize) + n)%nat)
        by (subst n; nia).
      assert (Hdrop : drop (Z.to_nat ((page + 1 - 1) * pageSize)) all
                      = drop n rest).
      { rewrite Hoff. subst rest. rewrite drop_drop. reflexivity. }
      rewrite (IH _ (page + 1) _); [| lia |].
      * rewrite Hdrop, <- !app_assoc, take_drop. f_equal. f_equal.
        assert (Hdiv : (length rest / n
                        = 1 + length (drop n rest) / n)%nat).
        { rewrite length_drop.
          replace (length rest) with (1 * n + (length rest - n))%nat
            at 1 by lia.
          rewrite Nat.div_add_l by lia. reflexivity. }
        rewrite Hdiv. cbn [Nat.add seq map].
        rewrite Z2Nat.id by lia. fold n.
        replace (Z.to_nat (page + 1)) with (S (Z.to_nat page)) by lia.
        reflexivity.
      * rewrite Hdrop, length_drop. lia.
Qed.

(** Against an upstream that serves a fixed list page by page,
    [getAllListedSecurities] returns the whole list, every record once
    and in order; it asks for the pages 1, 2, 3, ... and stops after
    the first page that is not full, which is an empty extra page when
    the list ends with a full one. *)
Theorem getAllListedSecurities_complete (all : list row)
    (status : string) (pageSize : Z) (E : Type) :
  1 <= pageSize ->
  getAllListedSecurities (@paged_upstream E all) (S (length all))
                         status pageSize []
  = Some (Returned all,
          map Z.of_nat
              (seq 1 (length all / Z.to_nat pageSize + 1))).
Proof.
  intros Hsize. unfold getAllListedSecurities.
  rewrite (pages_from all status pageSize E Hsize);
    [reflexivity | lia | rewrite length_drop; lia].
Qed.

(** The loop ends on a page that is empty, not full or not an array,
    and on nothing else but an exception: while every page comes full
    it keeps asking, whatever the number of pages read so far. *)
Theorem getAllListedSecurities_needs_short_page {S E : Type}
    (getListedSecurities : Z -> Z -> string -> S -> outcome payload E * S)
    (status : string) (pageSize : Z) :
  (forall page s,
      exists batch s',
        getListedSecurities page pageSize status s
        = (Returned (PArray batch), s') /\
        batch <> [] /\ pageSize <= Z.of_nat (length batch)) ->
  forall fuel allRecords page s,
    getAllListedSecurities_from getListedSecurities fuel allRecords
                                page status pageSize s = None.
Proof.
  intros Hfull. induction fuel as [| fuel IH]; intros allRecords page s;
    [reflexivity |].
  cbn [getAllListedSecurities_from].
  destruct (Hfull page s) as (batch & s' & -> & Hne & Hlen).
  destruct (Nat.eqb_spec (length batch) 0) as [Hz | _].
  - destruct batch; [contradiction | discriminate Hz].
  - destruct (Z.ltb_spec (Z.of_nat (length batch)) pageSize); [lia |].
    apply IH.
Qed.

End Pages.

Lemma getAllListedSecurities_complete_witness :
  IndiaBondInfoClient.getAllListedSecurities
    (@IndiaBondInfoClient.paged_upstream unit Samples.rate_rows)
    (S (length Samples.rate_rows)) "Active" 1 []
  = Some (Returned Samples.rate_rows,
          map Z.of_nat (seq 1 (length Samples.rate_rows / Z.to_nat 1 + 1))).
Proof.
  apply (getAllListedSecurities_complete Samples.rate_rows "Active" 1 unit).
  lia.
Defined.

Lemma getAllListedSecurities_needs_short_page_witness :
  IndiaBondInfoClient.getAllListedSecurities_from
    (fun (_ _ : Z) (_ : string) (s : unit) =>
       (@Returned payload unit (PArray Samples.rate_rows), s))
    5 [] 1 "Active" 1 tt
  = None.
Proof.
  apply (getAllListedSecurities_needs_short_page
           (fun (_ _ : Z) (_ : string) (s : unit) =>
              (@Returned payload unit (PArray Samples.rate_rows), s))
           "Active" 1).
  intros page s. exists Samples.rate_rows, s.
  split; [reflexivity |]. split; [discriminate | cbn; lia].
Defined.

End ClientLaws.

(** ** Laws of the in-memory fallback of the routes *)

Module RouteLaws.
Import Routes.
Local Open Scope Z_scope.
Local Open Scope list_scope.

(** *** Pages *)

Lemma limit_in_range (limit : option Z) :
  1 <= Z.min 200 (Z.max 1 (or_number limit 50)) <= 200.
Proof. lia. Qed.

Lemma page_data {A} (array : list A) (k : nat) (limit : option Z) :
  (1 <= k)%nat ->
  data (paginateArray array (Some (Z.of_nat k)) limit)
  = take (Z.to_nat (Z.min 200 (Z.max 1 (or_number limit 50))))
         (drop ((k - 1)
                * Z.to_nat (Z.min 200 (Z.max 1 (or_number limit 50))))
               array).
Proof.
  intros Hk. unfold paginateArray, slice. cbn [data].
  pose proof (limit_in_range limit) as Hl.
  set (l := Z.min 200 (Z.max 1 (or_number limit 50))) in *.
  assert (Hp : Z.max 1 (or_number (Some (Z.of_nat k)) 1) = Z.of_nat k).
  { unfold or_number. destruct (Z.of_nat k) eqn:Hz; lia. }
  rewrite Hp. f_equal; [f_equal; lia | f_equal; nia].
Qed.

Lemma chunks_take {A} (array : list A) (n k : nat) :
  concat (map (fun i => take n (drop ((i - 1) * n) array)) (seq 1 k))
  = take (k * n) array.
Proof.
  induction k as [| k IH]; [reflexivity |].
  rewrite seq_S, map_app, concat_app, IH. cbn [map concat Nat.add].
  rewrite app_nil_r.
  replace (S k - 1)%nat with k by lia.
  rewrite take_take_drop. f_equal. lia.
Qed.

Lemma ceil_div_covers (n l : Z) :
  0 <= n -> 1 <= l ->
  n <= ceil_div n l * l /\ 0 <= ceil_div n l /\
  (ceil_div n l - 1) * l < n + l.
Proof.
  intros Hn Hl. unfold ceil_div.
  pose proof (Z.div_mod (n + l - 1) l) as Hdm.
  pose proof (Z.mod_pos_bound (n + l - 1) l) as Hb.
  assert (0 <= (n + l - 1) / l) by (apply Z.div_pos; lia).
  nia.
Qed.

(** [paginateArray] cuts the array into pages that lose and repeat
    nothing: the limit used lies between 1 and 200, no page holds more
    records than the limit, the pages 1 to [pages] put end to end give
    the array back, and every page after them is empty. *)
Theorem paginateArray_partitions {A} (array : list A) (limit : option Z) :
  let first := paginateArray array None limit in
  1 <= Routes.limit first <= 200 /\
  total first = Z.of_nat (length array) /\
  (forall page,
      Z.of_nat (length (data (paginateArray array page limit)))
      <= Routes.limit first) /\
  concat (map (fun p => data (paginateArray array (Some p) limit))
              (map Z.of_nat (seq 1 (Z.to_nat (pages first)))))
  = array /\
  (forall p, pages first < p ->
             data (paginateArray array (Some p) limit) = []).
Proof.
  cbn zeta. cbn [Routes.limit total pages paginateArray].
  pose proof (limit_in_range limit) as Hl.
  set (l := Z.min 200 (Z.max 1 (or_number limit 50))) in *.
  destruct (ceil_div_covers (Z.of_nat (length array)) l) as (Hc1 & Hc2 & Hc3);
    [lia | lia |].
  split; [exact Hl |]. split; [reflexivity |]. split; [| split].
  - intros page. unfold paginateArray, slice. cbn [data]. fold l.
    rewrite length_take. lia.
  - rewrite map_map.
    rewrite (map_ext_in _
               (fun i => take (Z.to_nat l)
                              (drop ((i - 1) * Z.to_nat l) array))).
    + rewrite chunks_take. apply take_ge. nia.
    + intros i Hi. apply in_seq in Hi. apply page_data. lia.
  - intros p Hp. unfold paginateArray, slice. cbn [data]. fold l.
    assert (Hp' : Z.max 1 (or_number (Some p) 1) = p).
    { unfold or_number. destruct p; lia. }
    rewrite Hp'. rewrite drop_ge; [apply take_nil | nia].
Qed.

(** *** The rating distribution *)

Lemma grade_of_own_key (creditRating : option string) :
  existsb (String.eqb (grade_of creditRating))
          RatingNormalizer.Object_prototype_keys = false.
Proof.
  unfold grade_of.
  destruct (RatingNormalizer.normalizeRating creditRating) as [g |] eqn:Hg;
    [| reflexivity].
  destruct (String.eqb g ""); [reflexivity |].
  pose proof (RatingLaws.normalizeRating_clean_of creditRating g Hg) as Hc.
  destruct (existsb _ _) eqn:He; [| reflexivity].
  apply RatingLaws.inherited_key_not_clean in He. congruence.
Qed.

Lemma counted_bonds_comm (z1 z2 : tally) (y : Z) :
  count_of z1 + (count_of z2 + y) = count_of z2 + (count_of z1 + y).
Proof. lia. Qed.

Lemma counted_bonds_insert (agg : gmap string tally) (g : string)
    (v : tally) :
  counted_bonds (<[g := v]> agg)
  = count_of v - match agg !! g with Some u => count_of u | None => 0 end
    + counted_bonds agg.
Proof.
  unfold counted_bonds. destruct (agg !! g) as [u |] eqn:Hg.
  - rewrite <- insert_delete_eq.
    rewrite map_fold_insert_L;
      [| intros; apply counted_bonds_comm | apply lookup_delete_eq].
    rewrite (map_fold_delete_L _ _ g u agg);
      [| intros; apply counted_bonds_comm | exact Hg].
    lia.
  - rewrite map_fold_insert_L;
      [| intros; apply counted_bonds_comm | exact Hg].
    lia.
Qed.

Lemma bump_own (agg : gmap string tally) (g : string) :
  existsb (String.eqb g) RatingNormalizer.Object_prototype_keys = false ->
  (forall k v, agg !! k = Some v -> exists n, v = Count n /\ 1 <= n) ->
  (forall k v, bump agg g !! k = Some v -> exists n, v = Count n /\ 1 <= n) /\
  counted_bonds (bump agg g) = counted_bonds agg + 1.
Proof.
  intros Hg Hagg. unfold bump. rewrite Hg.
  assert (Hproto : String.eqb g "__proto__" = false).
  { destruct (String.eqb_spec g "__proto__") as [-> | _]; [| reflexivity].
    discriminate Hg. }
  rewrite Hproto.
  destruct (agg !! g) as [u |] eqn:Hu.
  - destruct (Hagg g u Hu) as (n & -> & Hn).
    assert (Hnext : match n with 0 => Count 1 | _ => Count (n + 1) end
                    = Count (n + 1)) by (destruct n; reflexivity || lia).
    rewrite Hnext. split.
    + intros k v Hk. apply lookup_insert_Some in Hk as [[_ <-] | [_ Hk]].
      * exists (n + 1). split; [reflexivity | lia].
      * apply (Hagg k v Hk).
    + rewrite counted_bonds_insert, Hu. cbn [count_of]. lia.
  - split.
    + intros k v Hk. apply lookup_insert_Some in Hk as [[_ <-] | [_ Hk]].
      * exists 1. split; [reflexivity | lia].
      * apply (Hagg k v Hk).
    + rewrite counted_bonds_insert, Hu. cbn [count_of]. lia.
Qed.

Lemma rating_aggregate_from (bonds : list (option string)) :
  forall agg,
    (forall k v, agg !! k = Some v -> exists n, v = Count n /\ 1 <= n) ->
    let out :=
      foldl (fun ratingAgg creditRating =>
               bump ratingAgg (grade_of creditRating)) agg bonds in
    (forall k v, out !! k = Some v -> exists n, v = Count n /\ 1 <= n) /\
    counted_bonds out = counted_bonds agg + Z.of_nat (length bonds).
Proof.
  induction bonds as [| b bonds IH]; intros agg Hagg; cbn zeta.
  - cbn. split; [exact Hagg | lia].
  - cbn [foldl length].
    destruct (bump_own agg (grade_of b) (grade_of_own_key b) Hagg)
      as [Hnext Hcount].
    destruct (IH _ Hnext) as [Hall Hsum]. split; [exact Hall |].
    rewrite Hsum, Hcount. lia.
Qed.

(** In the rating distribution of the fallback every grade is counted by
    a number, at least 1, and the counts add up to the number of bonds:
    a grade that [normalizeRating] returns never meets a member the
    tally object inherits from [Object.prototype]. *)
Theorem rating_aggregate_counts (bonds : list (option string)) :
  (forall grade v,
      rating_aggregate bonds !! grade = Some v ->
      exists n, v = Count n /\ 1 <= n) /\
  counted_bonds (rating_aggregate bonds) = Z.of_nat (length bonds).
Proof.
  unfold rating_aggregate.
  destruct (rating_aggregate_from bonds ∅) as [Hall Hsum].
  - intros k v Hk. rewrite lookup_empty in Hk. discriminate.
  - split; [exact Hall |]. rewrite Hsum. reflexivity.
Qed.

End RouteLaws.
